(** * ui-webscoket: the log viewer and the event viewer, embedded in Rocq

    The repository holds two React widgets:
    - [LogStreamViewer] (src/app/build/components/LogStreamViewer.tsx) with
      its two hosts, [LogStreamDemo] and [BuildChallengePage]
      (src/unnamed/part_000);
    - [EventViewer] (src/unnamed/part_002) with the hooks [useLatestRef],
      [useAsyncMemo] and [useDebouncedValue].

    React state is modelled by explicit state passing: a component is a
    record of its [useState] cells and refs, and every discrete reaction of
    the single-threaded event loop (a render with its effects, a timer
    firing, a promise settling, a socket message, a scroll event) is a
    function from state to state.

    JavaScript strings are modelled by [string] over code units below 256
    (the Latin-1 range); numbers that the code only uses as integers
    (lengths, indices, pixel offsets, milliseconds) are [nat] or [Z]. *)

From Stdlib Require Import ZArith Ascii String List Sorted Lia Bool.
From stdpp Require Import base list strings pretty.
Import ListNotations.
Local Open Scope string_scope.

(* ===================================================================== *)
(** * Part I: definitions *)
(* ===================================================================== *)

(** ** JavaScript string primitives used by the code *)
Module JS.

(** White space recognised by [String.prototype.trim] among the code
    units below 256: TAB, LF, VT, FF, CR, SPACE and NBSP. *)
Definition isWhiteSpace (c : ascii) : bool :=
  let n := nat_of_ascii c in
  ((9 <=? n)%nat && (n <=? 13)%nat) || (n =? 32)%nat || (n =? 160)%nat.

(** [toLowerCase] on one code unit: A-Z, and the Latin-1 capitals
    U+00C0..U+00DE except the multiplication sign U+00D7. *)
Definition lowerChar (c : ascii) : ascii :=
  let n := nat_of_ascii c in
  if ((65 <=? n)%nat && (n <=? 90)%nat)
     || ((192 <=? n)%nat && (n <=? 222)%nat && negb (n =? 215)%nat)
  then ascii_of_nat (n + 32)
  else c.

Fixpoint toLowerCase (s : string) : string :=
  match s with
  | EmptyString => EmptyString
  | String c r => String (lowerChar c) (toLowerCase r)
  end.

Fixpoint trimStart (s : string) : string :=
  match s with
  | EmptyString => EmptyString
  | String c r => if isWhiteSpace c then trimStart r else s
  end.

Fixpoint trimEnd (s : string) : string :=
  match s with
  | EmptyString => EmptyString
  | String c r =>
      match trimEnd r with
      | EmptyString => if isWhiteSpace c then EmptyString else String c EmptyString
      | r' => String c r'
      end
  end.

(** [s.trim()] *)
Definition trim (s : string) : string := trimEnd (trimStart s).

(** [s.startsWith(q)] *)
Fixpoint startsWith (s q : string) : bool :=
  match q, s with
  | EmptyString, _ => true
  | String a q', String b s' => Ascii.eqb a b && startsWith s' q'
  | String _ _, EmptyString => false
  end.

(** [s.includes(q)]: [q] occurs in [s] at some position. *)
Fixpoint includes (s q : string) : bool :=
  startsWith s q ||
  match s with
  | EmptyString => false
  | String _ r => includes r q
  end.

(** [arr.slice(start)] for [0 <= start]. *)
Definition slice_from {A} (start : nat) (arr : list A) : list A :=
  skipn start arr.

(** [arr.slice(-k)] for [k > 0]: the last [k] elements, the whole array
    when it is shorter. A relative start [-k] is resolved to
    [max (length - k) 0]. *)
Definition slice_last {A} (k : nat) (arr : list A) : list A :=
  skipn (List.length arr - k) arr.

End JS.

(** ** LogStreamViewer (src/app/build/components/LogStreamViewer.tsx) *)
Module LogStreamViewer.

Inductive LogLevel := DEBUG | INFO | WARN | ERROR.

Record LogEntry := {
  id : string;
  ts : Z;
  level : LogLevel;
  message : string;
  _lc : string  (* precomputed lowercased message *)
}.

(** [Record<LogLevel, boolean>] *)
Record EnabledLevels := {
  on_DEBUG : bool;
  on_INFO : bool;
  on_WARN : bool;
  on_ERROR : bool
}.

(** [enabledLevels[lvl]] *)
Definition get (enabledLevels : EnabledLevels) (lvl : LogLevel) : bool :=
  match lvl with
  | DEBUG => on_DEBUG enabledLevels
  | INFO => on_INFO enabledLevels
  | WARN => on_WARN enabledLevels
  | ERROR => on_ERROR enabledLevels
  end.

(** [{ ...enabled, [lvl]: checked }] of [LevelToggles] *)
Definition set (enabled : EnabledLevels) (lvl : LogLevel) (checked : bool)
  : EnabledLevels :=
  match lvl with
  | DEBUG => {| on_DEBUG := checked; on_INFO := on_INFO enabled;
                on_WARN := on_WARN enabled; on_ERROR := on_ERROR enabled |}
  | INFO => {| on_DEBUG := on_DEBUG enabled; on_INFO := checked;
               on_WARN := on_WARN enabled; on_ERROR := on_ERROR enabled |}
  | WARN => {| on_DEBUG := on_DEBUG enabled; on_INFO := on_INFO enabled;
               on_WARN := checked; on_ERROR := on_ERROR enabled |}
  | ERROR => {| on_DEBUG := on_DEBUG enabled; on_INFO := on_INFO enabled;
                on_WARN := on_WARN enabled; on_ERROR := checked |}
  end.

(** Initial [useState] value of [enabledLevels]. *)
Definition allLevels : EnabledLevels :=
  {| on_DEBUG := true; on_INFO := true; on_WARN := true; on_ERROR := true |}.

(** [debouncedSearch.trim().toLowerCase()] *)
Definition debouncedSearchLc (debouncedSearch : string) : string :=
  JS.toLowerCase (JS.trim debouncedSearch).

(** The [for] loop of the [filteredIndices] memo: [rest] is [logs] from
    position [i] on, [out] the indices pushed so far. *)
Fixpoint filteredIndices_loop (enabledLevels : EnabledLevels) (q : string)
    (useQuery : bool) (rest : list LogEntry) (i : nat) (out : list nat)
  : list nat :=
  match rest with
  | [] => out
  | log :: rest' =>
      if negb (get enabledLevels (level log)) then
        filteredIndices_loop enabledLevels q useQuery rest' (S i) out
      else if useQuery && negb (JS.includes (_lc log) q) then
        filteredIndices_loop enabledLevels q useQuery rest' (S i) out
      else
        filteredIndices_loop enabledLevels q useQuery rest' (S i) (out ++ [i])
  end.

Definition filteredIndices (logs : list LogEntry)
    (enabledLevels : EnabledLevels) (debouncedSearchLc : string) : list nat :=
  let q := debouncedSearchLc in
  let useQuery := (0 <? String.length q)%nat in
  filteredIndices_loop enabledLevels q useQuery logs 0 [].

(** The test of one loop iteration: [true] when index [i] is pushed. *)
Definition pushed (enabledLevels : EnabledLevels) (q : string)
    (useQuery : bool) (log : LogEntry) : bool :=
  if negb (get enabledLevels (level log)) then false
  else if useQuery && negb (JS.includes (_lc log) q) then false
  else true.

(** The indices that the loop pushes from position [i] on. *)
Fixpoint pushedFrom (enabledLevels : EnabledLevels) (q : string)
    (useQuery : bool) (rest : list LogEntry) (i : nat) : list nat :=
  match rest with
  | [] => []
  | log :: rest' =>
      if pushed enabledLevels q useQuery log
      then i :: pushedFrom enabledLevels q useQuery rest' (S i)
      else pushedFrom enabledLevels q useQuery rest' (S i)
  end.

(** The visible index set of a render whose debounced search box holds
    [debouncedSearch]. *)
Definition visibleIndices (logs : list LogEntry)
    (enabledLevels : EnabledLevels) (debouncedSearch : string) : list nat :=
  filteredIndices logs enabledLevels (debouncedSearchLc debouncedSearch).


(** *** useDebouncedValue

    One [useState] cell and one effect with dependencies [value, delayMs].
    The clock [now] counts milliseconds; [timer] is the pending
    [window.setTimeout] of the effect in force, with its due time and the
    [value] its closure captured; [committed] logs the arguments of every
    [setDebounced] call, oldest first. *)
Section useDebouncedValue.
Context {T : Type} `{EqDecision T}.

Record Debounced := {
  value : T;
  delayMs : nat;
  debounced : T;
  timer : option (nat * T);
  now : nat;
  committed : list T
}.

(** First render and its effect, at time [t0]. *)
Definition useDebouncedValue_mount (v : T) (delay t0 : nat) : Debounced :=
  {| value := v; delayMs := delay; debounced := v;
     timer := Some (t0 + delay, v); now := t0; committed := [] |}.

(** A render with a new [value]: when the dependency changed, the
    cleanup clears the pending timeout and the effect sets a new one. *)
Definition useDebouncedValue_render (v : T) (d : Debounced) : Debounced :=
  if decide (v = value d) then d
  else {| value := v; delayMs := delayMs d; debounced := debounced d;
          timer := Some (now d + delayMs d, v); now := now d;
          committed := committed d |}.

(** [ms] milliseconds pass without a render: a timeout that falls due
    runs [setDebounced] with the value it captured. *)
Definition useDebouncedValue_wait (ms : nat) (d : Debounced) : Debounced :=
  let t := now d + ms in
  match timer d with
  | Some (due, v) =>
      if (due <=? t)%nat then
        {| value := value d; delayMs := delayMs d; debounced := v;
           timer := None; now := t; committed := committed d ++ [v] |}
      else
        {| value := value d; delayMs := delayMs d; debounced := debounced d;
           timer := timer d; now := t; committed := committed d |}
  | None =>
      {| value := value d; delayMs := delayMs d; debounced := debounced d;
         timer := None; now := t; committed := committed d |}
  end.

(** Unmount: the cleanup clears the pending timeout. *)
Definition useDebouncedValue_unmount (d : Debounced) : Debounced :=
  {| value := value d; delayMs := delayMs d; debounced := debounced d;
     timer := None; now := now d; committed := committed d |}.

Inductive Input := Edit (v : T) | Wait (ms : nat).

Definition useDebouncedValue_step (d : Debounced) (i : Input) : Debounced :=
  match i with
  | Edit v => useDebouncedValue_render v d
  | Wait ms => useDebouncedValue_wait ms d
  end.

Definition useDebouncedValue_run (d : Debounced) (inputs : list Input)
  : Debounced :=
  fold_left useDebouncedValue_step inputs d.
End useDebouncedValue.
Arguments Debounced : clear implicits.
Arguments Input : clear implicits.

(** *** The viewer: follow state and the virtual list

    [FixedSizeList] of react-window 1.x is a third-party component; the
    part of its contract that the viewer relies on is modelled here:
    [scrollToItem] moves the list and reports it through [onScroll] with
    [scrollUpdateWasRequested = true]; a scroll of the DOM element by the
    user is reported with [scrollUpdateWasRequested = false]; neither
    reports anything when the offset does not change. *)
Local Open Scope Z_scope.

Record ListOnScrollProps := {
  scrollOffset : Z;
  scrollUpdateWasRequested : bool
}.

Inductive Align := AlignStart | AlignEnd.

Record Viewer := {
  logs : list LogEntry;          (* props *)
  height : Z;
  rowHeight : Z;
  enabledLevels : EnabledLevels; (* useState cells *)
  debouncedSearch : string;
  autoFollowEnabled : bool;
  atBottom : bool;
  list_scrollOffset : Z;         (* state of the FixedSizeList *)
  list_scrollToItem : list (Z * Align) (* scrollToItem calls it received *)
}.

(** [filteredIndices.length] of the render showing [v]. *)
Definition itemCount (v : Viewer) : Z :=
  Z.of_nat (List.length
    (visibleIndices (logs v) (enabledLevels v) (debouncedSearch v))).

Definition effectiveFollow (v : Viewer) : bool :=
  autoFollowEnabled v && atBottom v.

Definition setAtBottom (b : bool) (v : Viewer) : Viewer :=
  {| logs := logs v; height := height v; rowHeight := rowHeight v;
     enabledLevels := enabledLevels v; debouncedSearch := debouncedSearch v;
     autoFollowEnabled := autoFollowEnabled v; atBottom := b;
     list_scrollOffset := list_scrollOffset v;
     list_scrollToItem := list_scrollToItem v |}.

Definition setAutoFollowEnabled (b : bool) (v : Viewer) : Viewer :=
  {| logs := logs v; height := height v; rowHeight := rowHeight v;
     enabledLevels := enabledLevels v; debouncedSearch := debouncedSearch v;
     autoFollowEnabled := b; atBottom := atBottom v;
     list_scrollOffset := list_scrollOffset v;
     list_scrollToItem := list_scrollToItem v |}.

Definition setLogs (l : list LogEntry) (v : Viewer) : Viewer :=
  {| logs := l; height := height v; rowHeight := rowHeight v;
     enabledLevels := enabledLevels v; debouncedSearch := debouncedSearch v;
     autoFollowEnabled := autoFollowEnabled v; atBottom := atBottom v;
     list_scrollOffset := list_scrollOffset v;
     list_scrollToItem := list_scrollToItem v |}.

Definition setFilter (e : EnabledLevels) (q : string) (v : Viewer) : Viewer :=
  {| logs := logs v; height := height v; rowHeight := rowHeight v;
     enabledLevels := e; debouncedSearch := q;
     autoFollowEnabled := autoFollowEnabled v; atBottom := atBottom v;
     list_scrollOffset := list_scrollOffset v;
     list_scrollToItem := list_scrollToItem v |}.

Definition list_moved (offset : Z) (call : option (Z * Align)) (v : Viewer)
  : Viewer :=
  {| logs := logs v; height := height v; rowHeight := rowHeight v;
     enabledLevels := enabledLevels v; debouncedSearch := debouncedSearch v;
     autoFollowEnabled := autoFollowEnabled v; atBottom := atBottom v;
     list_scrollOffset := offset;
     list_scrollToItem :=
       match call with
       | Some c => list_scrollToItem v ++ [c]
       | None => list_scrollToItem v
       end |}.

(** The [onScroll] callback. *)
Definition onScroll (v : Viewer) (p : ListOnScrollProps) : Viewer :=
  if scrollUpdateWasRequested p then v
  else
    let total := itemCount v * rowHeight v in
    let maxOffset := Z.max 0 (total - height v) in
    let threshold := rowHeight v * 2 in
    setAtBottom (maxOffset - threshold <=? scrollOffset p) v.

(** Offset that [FixedSizeList] computes for [scrollToItem(index, align)]
    (no horizontal scrollbar). *)
Definition FixedSizeList_offsetFor (v : Viewer) (index : Z) (align : Align)
  : Z :=
  let lastItemOffset := Z.max 0 (itemCount v * rowHeight v - height v) in
  let maxOffset := Z.min lastItemOffset (index * rowHeight v) in
  let minOffset := Z.max 0 (index * rowHeight v - height v + rowHeight v) in
  match align with
  | AlignStart => maxOffset
  | AlignEnd => minOffset
  end.

(** [listRef.current?.scrollToItem(index, align)] *)
Definition FixedSizeList_scrollToItem (index : Z) (align : Align) (v : Viewer)
  : Viewer :=
  let index' := Z.max 0 (Z.min index (itemCount v - 1)) in
  let offset := Z.max 0 (FixedSizeList_offsetFor v index' align) in
  let v' := list_moved offset (Some (index, align)) v in
  if offset =? list_scrollOffset v then v'
  else onScroll v' {| scrollOffset := offset;
                      scrollUpdateWasRequested := true |}.

(** The [useLayoutEffect] with dependencies [effectiveFollow, itemCount]. *)
Definition layoutEffect (v : Viewer) : Viewer :=
  if negb (effectiveFollow v) then v
  else if itemCount v <=? 0 then v
  else FixedSizeList_scrollToItem (itemCount v - 1) AlignEnd v.

(** Commit of a re-render that takes the component from [prev] to [next]:
    the layout effect runs when one of its dependencies changed. *)
Definition commit (prev next : Viewer) : Viewer :=
  if Bool.eqb (effectiveFollow prev) (effectiveFollow next)
     && (itemCount prev =? itemCount next)
  then next
  else layoutEffect next.

(** The user scrolls the list element to [scrollTop]. *)
Definition userScroll (scrollTop : Z) (v : Viewer) : Viewer :=
  if scrollTop =? list_scrollOffset v then v
  else
    let range := Z.max 0 (itemCount v * rowHeight v - height v) in
    let offset := Z.max 0 (Z.min scrollTop range) in
    commit v (onScroll (list_moved offset None v)
                {| scrollOffset := offset;
                   scrollUpdateWasRequested := false |}).

(** [jumpToLatest], the click handler of the "Jump to latest" button. *)
Definition jumpToLatest (v : Viewer) : Viewer :=
  if itemCount v <=? 0 then v
  else FixedSizeList_scrollToItem (itemCount v - 1) AlignEnd v.

(** The parent passes a new [logs] array. *)
Definition logsChanged (l : list LogEntry) (v : Viewer) : Viewer :=
  commit v (setLogs l v).

(** A level toggle or a debounced search commit changes the filter. *)
Definition filterChanged (e : EnabledLevels) (q : string) (v : Viewer)
  : Viewer :=
  commit v (setFilter e q v).

(** The auto-follow checkbox. *)
Definition toggleAutoFollow (b : bool) (v : Viewer) : Viewer :=
  commit v (setAutoFollowEnabled b v).

Local Close Scope Z_scope.

(** *** LogStreamDemo: the bounded buffer of the demo host *)
#[warnings="-abstract-large-number"]
Definition MAX_LOGS : nat := 50000.

(** [Math.max(1, Math.round((rate * intervalMs) / 1000))] for an integer
    [rate] and [intervalMs = 100]. *)
Definition perTick (rate : nat) : nat :=
  Nat.max 1 ((rate * 100 + 500) / 1000).

(** The updater passed to [setLogs] on every interval tick; [batch] is
    the array of [perTick] fresh entries. *)
Definition LogStreamDemo_tick (prev batch : list LogEntry) : list LogEntry :=
  let next :=
    if (MAX_LOGS <? List.length prev)%nat
    then JS.slice_from (List.length prev - MAX_LOGS) prev
    else prev in
  next ++ batch.

(** The interval fires once per batch. *)
Definition LogStreamDemo_ticks (prev : list LogEntry)
    (batches : list (list LogEntry)) : list LogEntry :=
  fold_left LogStreamDemo_tick batches prev.

End LogStreamViewer.

(** ** BuildChallengePage (src/unnamed/part_000) *)
Module BuildChallengePage.
Import LogStreamViewer.

(** Size of the seed buffer and of the window kept afterwards. *)
Definition KEEP : nat := 1000.

(** [setLogs(prev => [...prev.slice(-999), newLog])] *)
Definition append (prev : list LogEntry) (newLog : LogEntry) : list LogEntry :=
  JS.slice_last 999 prev ++ [newLog].

Definition appendAll (buffer : list LogEntry) (news : list LogEntry)
  : list LogEntry :=
  fold_left append news buffer.

End BuildChallengePage.

(** ** EventViewer (src/unnamed/part_002) *)
Module EventViewer.

Inductive EventType := Click | Navigation | Error | Api.

Record Event := {
  id : string;
  type : EventType;
  timestamp : Z;
  message : string
}.

(** [Event["type"] | "all"] *)
Inductive FilterValue := All | Only (t : EventType).

Definition EventType_eqb (a b : EventType) : bool :=
  match a, b with
  | Click, Click | Navigation, Navigation | Error, Error | Api, Api => true
  | _, _ => false
  end.

(** Values that the code can see thrown or rejected. *)
Inductive Thrown :=
| DOMException (name : string) (msg : string)
| SyntaxError (msg : string)
| OtherError (msg : string).

(** [err instanceof DOMException && err.name === "AbortError"] *)
Definition isAbortError (err : Thrown) : bool :=
  match err with
  | DOMException name _ => String.eqb name "AbortError"
  | _ => false
  end.

(** *** useAsyncMemo

    [controllers] holds [signal.aborted] of every [AbortController] the
    effect has created, in creation order, so that a request is named by
    the position of its controller; [live] is the controller that the
    cleanup of the effect in force will abort. *)
Section useAsyncMemo.
Context {T : Type}.

Inductive Settled := Resolved (next : T) | Rejected (err : Thrown).

Record AsyncMemo := {
  value : T;
  loading : bool;
  error : option Thrown;
  controllers : list bool;
  live : option nat
}.

(** The three [useState] cells before the first effect. *)
Definition useAsyncMemo_init (initialValue : T) : AsyncMemo :=
  {| value := initialValue; loading := false; error := None;
     controllers := []; live := None |}.

(** [controller.signal.aborted] of request [r]. *)
Definition aborted (m : AsyncMemo) (r : nat) : bool :=
  match controllers m !! r with
  | Some b => b
  | None => false
  end.

(** The cleanup [() => controller.abort()]. *)
Definition cleanup (m : AsyncMemo) : AsyncMemo :=
  match live m with
  | Some r =>
      {| value := value m; loading := loading m; error := error m;
         controllers := <[r := true]> (controllers m); live := None |}
  | None => m
  end.

(** The effect body up to the call of [factory]: a fresh controller,
    [setLoading(true)], [setError(null)]. *)
Definition effect (m : AsyncMemo) : AsyncMemo :=
  {| value := value m; loading := true; error := None;
     controllers := controllers m ++ [false];
     live := Some (List.length (controllers m)) |}.

(** Mount, or a render whose [deps] changed: the previous cleanup, then
    the effect. The request started is [List.length (controllers m)]. *)
Definition start (m : AsyncMemo) : AsyncMemo := effect (cleanup m).

Definition setValue (next : T) (m : AsyncMemo) : AsyncMemo :=
  {| value := next; loading := loading m; error := error m;
     controllers := controllers m; live := live m |}.

Definition setError (err : Thrown) (m : AsyncMemo) : AsyncMemo :=
  {| value := value m; loading := loading m; error := Some err;
     controllers := controllers m; live := live m |}.

Definition setLoading (b : bool) (m : AsyncMemo) : AsyncMemo :=
  {| value := value m; loading := b; error := error m;
     controllers := controllers m; live := live m |}.

(** The promise of request [r] settles: [.then], [.catch], [.finally]. *)
Definition settle (r : nat) (o : Settled) (m : AsyncMemo) : AsyncMemo :=
  let m1 :=
    match o with
    | Resolved next => if negb (aborted m r) then setValue next m else m
    | Rejected err => if negb (isAbortError err) then setError err m else m
    end in
  if negb (aborted m1 r) then setLoading false m1 else m1.

Inductive HookEvent :=
| Start
| Settle (r : nat) (o : Settled)
| Unmount.

Definition useAsyncMemo_step (m : AsyncMemo) (e : HookEvent) : AsyncMemo :=
  match e with
  | Start => start m
  | Settle r o => settle r o m
  | Unmount => cleanup m
  end.

Definition useAsyncMemo_run (m : AsyncMemo) (es : list HookEvent)
  : AsyncMemo :=
  fold_left useAsyncMemo_step es m.
End useAsyncMemo.
Arguments AsyncMemo : clear implicits.
Arguments Settled : clear implicits.
Arguments HookEvent : clear implicits.

(** [applyFilterAsync] after its [await delay(50, signal)]: the delay
    rejects with an [AbortError] when the signal is aborted before the 50
    ms are over, otherwise the filter runs. *)
Definition applyFilter (eventsList : list Event) (filterValue : FilterValue)
  : list Event :=
  match filterValue with
  | All => eventsList
  | Only t => List.filter (fun e => EventType_eqb (type e) t) eventsList
  end.

Definition applyFilterAsync (eventsList : list Event)
    (filterValue : FilterValue) (abortedInDelay : bool)
  : Settled (list Event) :=
  if abortedInDelay then Rejected (DOMException "AbortError" "Aborted")
  else Resolved (applyFilter eventsList filterValue).

(** *** The socket effect and [useLatestRef]

    A consumer callback is a JavaScript function value; it is named by a
    number (its reference identity). [received] logs every invocation of a
    consumer callback with its argument, oldest first. *)
Definition Callback := nat.

Record Component := {
  onEventReceived : option Callback;    (* props of the last render *)
  mockStarted : bool;
  events : list Event;                  (* useState cells *)
  isConnected : bool;
  onEventReceivedRef : option Callback; (* .current of the ref *)
  ws_handlers : bool;  (* a socket is open with its on* handlers set *)
  received : list (Callback * Event)
}.

(** A computation of the handler: it may throw, and it updates the
    component. *)
Inductive Completion (A : Type) :=
| Normal (a : A)
| Throw (e : Thrown).
Arguments Normal {A} a.
Arguments Throw {A} e.

Definition Handler (A : Type) : Type := Component -> Completion A * Component.

Definition ret {A} (a : A) : Handler A := fun c => (Normal a, c).

Definition bind {A B} (m : Handler A) (k : A -> Handler B) : Handler B :=
  fun c =>
    match m c with
    | (Normal a, c') => k a c'
    | (Throw e, c') => (Throw e, c')
    end.

(** [try { body } catch { handler }]: what [body] did before it threw
    stays done. *)
Definition tryCatch {A} (body : Handler A) (handler : Thrown -> Handler A)
  : Handler A :=
  fun c =>
    match body c with
    | (Normal a, c') => (Normal a, c')
    | (Throw e, c') => handler e c'
    end.

Notation "'do' x <- m ; k" := (bind m (fun x => k))
  (at level 10, x name, m at level 100, k at level 200).
Notation "'exec' m ; k" := (bind m (fun _ => k))
  (at level 10, m at level 100, k at level 200).

Definition lift {A} (r : Completion A) : Handler A := fun c => (r, c).

(** [setEvents((prev) => [...prev, event])] *)
Definition setEvents_append (event : Event) : Handler unit :=
  fun c =>
    (Normal tt,
     {| onEventReceived := onEventReceived c; mockStarted := mockStarted c;
        events := events c ++ [event]; isConnected := isConnected c;
        onEventReceivedRef := onEventReceivedRef c;
        ws_handlers := ws_handlers c; received := received c |}).

Definition setIsConnected (b : bool) (c : Component) : Component :=
  {| onEventReceived := onEventReceived c; mockStarted := mockStarted c;
     events := events c; isConnected := b;
     onEventReceivedRef := onEventReceivedRef c;
     ws_handlers := ws_handlers c; received := received c |}.

Section Environment.
(** [JSON.parse] followed by the unchecked cast to [Event], and whether
    a consumer callback throws on an event. The payloads that parse to
    another value than a record are treated in [Untyped]. *)
Variable JSON_parse : string -> Completion Event.
Variable throws : Callback -> Event -> bool.

(** The call [cb(event)]. *)
Definition invoke (cb : Callback) (event : Event) : Handler unit :=
  fun c =>
    (if throws cb event then Throw (OtherError "callback") else Normal tt,
     {| onEventReceived := onEventReceived c; mockStarted := mockStarted c;
        events := events c; isConnected := isConnected c;
        onEventReceivedRef := onEventReceivedRef c;
        ws_handlers := ws_handlers c;
        received := received c ++ [(cb, event)] |}).

(** [onEventReceivedRef.current?.(event)] *)
Definition invoke_current (event : Event) : Handler unit :=
  fun c =>
    match onEventReceivedRef c with
    | Some cb => invoke cb event c
    | None => ret tt c
    end.

(** The [ws.onmessage] handler. *)
Definition onmessage (data : string) : Handler unit :=
  tryCatch
    (do event <- lift (JSON_parse data);
     exec setEvents_append event;
     invoke_current event)
    (fun _ => ret tt).

(** The socket dispatches a message: [this.onmessage?.(messageEvent)]. *)
Definition dispatch (data : string) (c : Component)
  : Completion unit * Component :=
  if ws_handlers c then onmessage data c else (Normal tt, c).

(** The socket opens or closes while its handlers are set. *)
Definition opened (c : Component) : Component :=
  if ws_handlers c then setIsConnected true c else c.

Definition closed (c : Component) : Component :=
  if ws_handlers c then setIsConnected false c else c.

(** First render and its effects: [useRef(value)], then the socket
    effect. *)
Definition mount (cb : option Callback) (started : bool) : Component :=
  {| onEventReceived := cb; mockStarted := started; events := [];
     isConnected := false; onEventReceivedRef := cb;
     ws_handlers := started; received := [] |}.

(** The effect of [useLatestRef], dependencies [value]. *)
Definition useLatestRef_effect (prev : option Callback) (c : Component)
  : Component :=
  if decide (prev = onEventReceived c) then c
  else
    {| onEventReceived := onEventReceived c; mockStarted := mockStarted c;
       events := events c; isConnected := isConnected c;
       onEventReceivedRef := onEventReceived c;
       ws_handlers := ws_handlers c; received := received c |}.

(** The socket effect, dependencies [onEventReceivedRef, mockStarted]:
    the ref object never changes, so only [mockStarted] re-runs it. The
    cleanup clears the handlers and closes the socket; the effect opens
    a socket when [mockStarted] holds. *)
Definition socket_effect (prev : bool) (c : Component) : Component :=
  if Bool.eqb prev (mockStarted c) then c
  else
    {| onEventReceived := onEventReceived c; mockStarted := mockStarted c;
       events := events c; isConnected := isConnected c;
       onEventReceivedRef := onEventReceivedRef c;
       ws_handlers := mockStarted c; received := received c |}.

(** A re-render with new props, followed by its effects in the order of
    their declaration. *)
Definition rerender (cb : option Callback) (started : bool) (c : Component)
  : Component :=
  let rendered :=
    {| onEventReceived := cb; mockStarted := started;
       events := events c; isConnected := isConnected c;
       onEventReceivedRef := onEventReceivedRef c;
       ws_handlers := ws_handlers c; received := received c |} in
  socket_effect (mockStarted c)
    (useLatestRef_effect (onEventReceived c) rendered).

Inductive Reaction :=
| Rerender (cb : option Callback) (started : bool)
| Opened
| Closed
| Message (data : string).

Definition react (c : Component) (r : Reaction) : Component :=
  match r with
  | Rerender cb started => rerender cb started c
  | Opened => opened c
  | Closed => closed c
  | Message data => snd (dispatch data c)
  end.

Definition reactAll (c : Component) (rs : list Reaction) : Component :=
  fold_left react rs c.
End Environment.

End EventViewer.

(** ** The properties, in the words of the specification *)
Module Spec.
Import LogStreamViewer.

(** [q] occurs in [s] as a substring. *)
Definition contains (s q : string) : Prop :=
  exists pre post, s = pre ++ q ++ post.

(** A record passes the filter state: its level is enabled, and the
    query is empty or occurs, lowercased, in the lowercased message. *)
Definition passes (enabled : EnabledLevels) (query : string) (log : LogEntry)
  : Prop :=
  get enabled (level log) = true /\
  (query = "" \/ contains (JS.toLowerCase (message log)) (JS.toLowerCase query)).

(** [out] lists exactly the positions of [logs] whose record satisfies
    [P], in ascending order. *)
Definition positions_of (P : LogEntry -> Prop) (logs : list LogEntry)
    (out : list nat) : Prop :=
  (forall i, In i out <-> exists log, logs !! i = Some log /\ P log) /\
  StronglySorted lt out.

(** The data-model invariant of a log record: [_lc] is the lowercase
    projection of [message]. *)
Definition lc_precomputed (log : LogEntry) : Prop :=
  _lc log = JS.toLowerCase (message log).

Fixpoint whitespaceOnly (s : string) : bool :=
  match s with
  | EmptyString => true
  | String c r => JS.isWhiteSpace c && whitespaceOnly r
  end.

(** A string that does not begin with white space. *)
Definition clean_start (s : string) : Prop :=
  match s with
  | EmptyString => True
  | String c _ => JS.isWhiteSpace c = false
  end.

(** The last [n] elements of a sequence, in their original order. *)
Definition last_n {A} (n : nat) (l : list A) : list A :=
  List.rev (List.firstn n (List.rev l)).

(** Every controller of [useAsyncMemo] but the live one has been aborted. *)
Definition superseded_aborted {T} (m : EventViewer.AsyncMemo T) : Prop :=
  forall r, r < List.length (EventViewer.controllers m) ->
            EventViewer.live m <> Some r ->
            EventViewer.controllers m !! r = Some true.

(** The ref of [useLatestRef] holds the callback of the last render, and
    a socket is listening exactly when [mockStarted] holds. *)
Definition ref_is_latest (c : EventViewer.Component) : Prop :=
  EventViewer.onEventReceivedRef c = EventViewer.onEventReceived c /\
  EventViewer.ws_handlers c = EventViewer.mockStarted c.

(** A reaction in which the consumer keeps supplying a callback. *)
Definition supplies_callback (r : EventViewer.Reaction) : Prop :=
  match r with
  | EventViewer.Rerender None _ => False
  | _ => True
  end.

(** The callback invocations, in order, are exactly the records of the
    buffer, and the ref holds a callback. *)
Definition notified_once (c : EventViewer.Component) : Prop :=
  map snd (EventViewer.received c) = EventViewer.events c /\
  EventViewer.onEventReceivedRef c <> None.

(** The component after a well-formed message: the record is appended
    once, and the callback that the ref holds is invoked once with it. *)
Definition ingested (event : EventViewer.Event) (c : EventViewer.Component)
  : EventViewer.Component :=
  {| EventViewer.onEventReceived := EventViewer.onEventReceived c;
     EventViewer.mockStarted := EventViewer.mockStarted c;
     EventViewer.events := EventViewer.events c ++ [event];
     EventViewer.isConnected := EventViewer.isConnected c;
     EventViewer.onEventReceivedRef := EventViewer.onEventReceivedRef c;
     EventViewer.ws_handlers := EventViewer.ws_handlers c;
     EventViewer.received := EventViewer.received c ++
       match EventViewer.onEventReceivedRef c with
       | Some cb => [(cb, event)]
       | None => []
       end |}.

End Spec.

(** Sample data: the five-record buffer of the scenario, and a one-record
    buffer whose message holds no white space. *)
Module Samples.
Import LogStreamViewer.

Definition entry (n : Z) (lvl : LogLevel) (msg : string) : LogEntry :=
  {| id := "log"; ts := n; level := lvl; message := msg;
     _lc := JS.toLowerCase msg |}.

Definition five : list LogEntry :=
  [ entry 0 INFO "Request completed ms=12";
    entry 1 ERROR "Request failed status=500";
    entry 2 INFO "Request completed ms=21";
    entry 3 WARN "Retrying with backoff attempt=2";
    entry 4 ERROR "Request failed status=404" ].

Definition onlyERROR : EnabledLevels :=
  {| on_DEBUG := false; on_INFO := false; on_WARN := false;
     on_ERROR := true |}.

Definition one : list LogEntry := [ entry 0 INFO "ab" ].

(** The viewer as [LogStreamDemo] renders it (height 520, rows of 24) over
    [n] records, all levels enabled and no query. *)
Definition viewer (n : nat) (follow bottom : bool) (offset : Z) : Viewer :=
  {| logs := List.repeat (entry 0 INFO "Request completed ms=12") n;
     height := 520; rowHeight := 24;
     enabledLevels := allLevels; debouncedSearch := "";
     autoFollowEnabled := follow; atBottom := bottom;
     list_scrollOffset := offset; list_scrollToItem := [] |}.

Definition event1 : EventViewer.Event :=
  {| EventViewer.id := "evt-1"; EventViewer.type := EventViewer.Click;
     EventViewer.timestamp := 1;
     EventViewer.message := "User clicked submit button" |}.

(** A stand-in for [JSON.parse]: one payload is well formed. *)
Definition parse (data : string) : EventViewer.Completion EventViewer.Event :=
  if String.eqb data "evt-1" then EventViewer.Normal event1
  else EventViewer.Throw (EventViewer.SyntaxError "Unexpected token").

Definition quiet : EventViewer.Callback -> EventViewer.Event -> bool :=
  fun _ _ => false.
End Samples.

(** ** Random choices

    [Math.random()] and [Date.now()] are inputs of the model. A random
    choice in an array is made with a natural number from the random
    source, reduced below the length of the array. *)
Module Random.

(** [arr[Math.floor(Math.random() * arr.length)]]; [None] is the
    [undefined] that an empty array gives. *)
Definition randomPick {A} (arr : list A) (r : nat) : option A :=
  arr !! (r mod List.length arr).

End Random.

(** ** LogStreamViewer.tsx: utilities, rows and counts *)
Module ViewerRest.
Import LogStreamViewer.

(** A JavaScript number: [NaN], or a number that is ordered. The ordered
    numbers (the finite ones, the two zeros and the two infinities) are
    the elements of a carrier [R], compared by the test [leb] of the total
    order that [Math.max] and [Math.min] use, in which -0 is below +0. *)
Inductive Number (R : Type) :=
| NaN
| Num (x : R).
Arguments NaN {R}.
Arguments Num {R} x.

Section Math.
Context {R : Type} (leb : R -> R -> bool).

(** [Math.max(a, b)] and [Math.min(a, b)]: [NaN] when an argument is
    [NaN], otherwise the larger, the smaller. *)
Definition Math_max (a b : Number R) : Number R :=
  match a, b with
  | Num x, Num y => if leb x y then Num y else Num x
  | _, _ => NaN
  end.

Definition Math_min (a b : Number R) : Number R :=
  match a, b with
  | Num x, Num y => if leb x y then Num x else Num y
  | _, _ => NaN
  end.

(** [Math.max(min, Math.min(max, n))] *)
Definition clamp (n min max : Number R) : Number R :=
  Math_max min (Math_min max n).
End Math.

(** The colour class of a row. *)
Definition levelClass (l : LogLevel) : string :=
  match l with
  | ERROR => "text-red-600"
  | WARN => "text-amber-600"
  | DEBUG => "text-slate-500"
  | INFO => "text-emerald-700"
  end.

(** [RowData], without the click callback. *)
Record RowData := {
  row_filteredIndices : list nat;
  row_logs : list LogEntry
}.

(** The [itemData] memo of the render showing [v]. *)
Definition itemData (v : Viewer) : RowData :=
  {| row_filteredIndices :=
       visibleIndices (logs v) (enabledLevels v) (debouncedSearch v);
     row_logs := logs v |}.

(** The record that [LogRow] renders at row [index]:
    [data.logs[data.filteredIndices[index]]]. [None] stands for the
    [undefined] on which reading [log.level] would throw. *)
Definition LogRow_log (data : RowData) (index : nat) : option LogEntry :=
  match row_filteredIndices data !! index with
  | Some realIndex => row_logs data !! realIndex
  | None => None
  end.

(** "Showing [shownCount] of [totalCount]". *)
Definition shownCount (v : Viewer) : Z := itemCount v.
Definition totalCount (v : Viewer) : Z := Z.of_nat (List.length (logs v)).

(** [SearchBox]: the Clear button is rendered when the value is not empty,
    and a click on it reports the empty string. *)
Definition SearchBox_showsClear (value : string) : bool :=
  (0 <? String.length value)%nat.

#[global] Instance LogLevel_eq_dec : EqDecision LogLevel.
Proof. solve_decision. Defined.

End ViewerRest.

(** ** LogStreamDemo: the generator of the demo host *)
Module LogStreamDemo.
Import LogStreamViewer Random.

Definition LEVELS : list LogLevel := [DEBUG; INFO; WARN; ERROR].

(** What one call of [makeLog] draws: three random choices, the random id
    and the clock. *)
Record Entropy := {
  pick_level : nat;
  pick_extra : nat;
  pick_trace : nat;
  random_id : string;
  date_now : Z
}.

Definition msgBase (lvl : LogLevel) : string :=
  match lvl with
  | ERROR => "Request failed"
  | WARN => "Retrying with backoff"
  | DEBUG => "Cache miss"
  | INFO => "Request completed"
  end.

Definition extra (lvl : LogLevel) (r : nat) : string :=
  match lvl with
  | ERROR =>
      " status=" ++
      pretty (default 0 (randomPick [400; 401; 403; 404; 429; 500; 502; 503] r))
  | WARN => " attempt=" ++ pretty (default 0 (randomPick [2; 3; 4] r))
  | DEBUG =>
      " key=user:" ++ default "" (randomPick ["a1"; "b2"; "c3"; "d4"] r)
  | INFO =>
      " ms=" ++ pretty (default 0 (randomPick [12; 21; 34; 55; 89; 144] r))
  end.

Definition traces : list string := ["9f31"; "b81c"; "0aa2"; "7d0f"; "e3c9"].

Definition makeLog (level : option LogLevel) (e : Entropy) : LogEntry :=
  let lvl :=
    match level with
    | Some l => l
    | None => default INFO (randomPick LEVELS (pick_level e))
    end in
  let message :=
    msgBase lvl ++ extra lvl (pick_extra e) ++ " trace=" ++
    default "" (randomPick traces (pick_trace e)) in
  {| id := random_id e; ts := date_now e; level := lvl; message := message;
     _lc := JS.toLowerCase message |}.

(** [l.ts = t] on a fresh entry. *)
Definition withTs (t : Z) (l : LogEntry) : LogEntry :=
  {| id := id l; ts := t; level := level l; message := message l;
     _lc := _lc l |}.

(** The seed loop, for a loop bound [n] ([n] is 10000 in the source, both
    as the bound and in the time stamp). *)
Definition seedOf (n : nat) (now : Z) (es : nat -> Entropy) : list LogEntry :=
  map (fun i => withTs (now - (Z.of_nat n - Z.of_nat i) * 5)%Z
                  (makeLog None (es i)))
      (seq 0 n).

#[warnings="-abstract-large-number"]
Definition seed (now : Z) (es : nat -> Entropy) : list LogEntry :=
  seedOf 10000 now es.

(** The batch of one tick at slider position [rate]. *)
Definition batchOf (rate : nat) (es : nat -> Entropy) : list LogEntry :=
  map (fun i => makeLog None (es i)) (seq 0 (perTick rate)).

(** The states of the demo: the seed, then one tick per batch entropy, or
    the Clear button. *)
Inductive DemoEvent :=
| Tick (rate : nat) (es : nat -> Entropy)
| Clear.

Definition demoStep (buffer : list LogEntry) (e : DemoEvent) : list LogEntry :=
  match e with
  | Tick rate es => LogStreamDemo_tick buffer (batchOf rate es)
  | Clear => []
  end.

Definition demoRun (buffer : list LogEntry) (evs : list DemoEvent)
  : list LogEntry :=
  fold_left demoStep evs buffer.

End LogStreamDemo.

(** ** BuildChallengePage: the mock log generator (src/unnamed/part_000) *)
Module MockLogs.
Import LogStreamViewer Random.

Definition levels : list LogLevel := [DEBUG; INFO; WARN; ERROR].

Definition messages : list string :=
  [ "User authentication successful";
    "Database query executed";
    "Cache miss for key: user_profile_123";
    "API request received: POST /api/orders";
    "Payment processing started";
    "Email notification queued";
    "Background job completed";
    "WebSocket connection established";
    "Session expired for user";
    "File upload completed: invoice.pdf";
    "Rate limit exceeded for IP";
    "Configuration reloaded";
    "Health check passed";
    "Metrics collected and sent to monitoring service";
    "Deprecated API endpoint accessed" ].

(** [generateMockLogs(count)]; [rl i] and [rm i] are the random numbers of
    iteration [i]. *)
Definition generateMockLogs (count : nat) (now : Z) (rl rm : nat -> nat)
  : list LogEntry :=
  map (fun i =>
         let lvl := default INFO (randomPick levels (rl i)) in
         let msg := default "" (randomPick messages (rm i)) in
         {| id := "log-" ++ pretty i;
            ts := (now - (Z.of_nat count - Z.of_nat i) * 100)%Z;
            level := lvl; message := msg; _lc := JS.toLowerCase msg |})
      (seq 0 count).

(** The entry that the page adds every two seconds; its two calls of
    [Date.now()] are taken within the same millisecond. *)
Definition newLog (now : Z) (r : nat) : LogEntry :=
  {| id := "log-" ++ pretty now; ts := now;
     level := default INFO (randomPick [DEBUG; INFO; WARN; ERROR] r);
     message := "New log entry generated";
     _lc := "new log entry generated" |}.

(** The buffer of the page after the interval fired once per element of
    [ticks] (the clock and the random number of each tick). *)
Definition pageRun (buffer : list LogEntry) (ticks : list (Z * nat))
  : list LogEntry :=
  fold_left (fun prev t => BuildChallengePage.append prev (newLog t.1 t.2))
    ticks buffer.

End MockLogs.

(** ** The mock log stream hook (src/unnamed/part_001) *)
Module MockLogStream.
Import Random.

Inductive Level := INFO | WARN | ERROR | DEBUG.

Record Metadata := {
  userId : string;
  duration : nat;
  endpoint : string
}.

Record LogEntry := {
  id : string;
  timestamp : Z;
  level : Level;
  message : string;
  metadata : option Metadata
}.

Definition LOG_MESSAGES : list string := MockLogs.messages.

Definition LOG_LEVELS : list Level := [INFO; INFO; INFO; WARN; ERROR; DEBUG].

(** What one call of [generateRandomLog] draws; [with_metadata] is the
    outcome of [Math.random() > 0.7], [r_user] and [r_duration] are
    [Math.floor(Math.random() * 1000)]. *)
Record Entropy := {
  r_level : nat;
  r_message : nat;
  with_metadata : bool;
  r_user : nat;
  r_duration : nat;
  date_now : Z
}.

Definition generateRandomLog (n : nat) (e : Entropy) : LogEntry :=
  {| id := "log-" ++ pretty n;
     timestamp := date_now e;
     level := default INFO (randomPick LOG_LEVELS (r_level e));
     message := default "" (randomPick LOG_MESSAGES (r_message e));
     metadata :=
       if with_metadata e
       then Some {| userId := "user-" ++ pretty (r_user e mod 1000);
                    duration := r_duration e mod 1000;
                    endpoint := "/api/v1/resource" |}
       else None |}.

(** [generateInitialLogs(count)] *)
Definition generateInitialLogs (count : nat) (es : nat -> Entropy)
  : list LogEntry :=
  map (fun i => generateRandomLog i (es i)) (seq 0 count).

(** The hook [useLogStream]: its two state cells, the [counter] of the
    effect closure and the three timers of the effect. *)
Record Stream := {
  logs : list LogEntry;
  isConnected : bool;
  counter : nat;
  connectTimeout : bool;  (* pending *)
  streamTimeout : bool;   (* pending *)
  interval : bool         (* set and not cleared *)
}.

(** Mount: the effect sets the two timeouts. *)
Definition useLogStream_mount : Stream :=
  {| logs := []; isConnected := false; counter := 0;
     connectTimeout := true; streamTimeout := true; interval := false |}.

Inductive StreamEvent :=
| ConnectTimeoutFires
| StreamTimeoutFires
| IntervalFires (e : Entropy)
| ClearLogs
| Unmount.

Definition useLogStream_step (s : Stream) (ev : StreamEvent) : Stream :=
  match ev with
  | ConnectTimeoutFires =>
      if connectTimeout s then
        {| logs := logs s; isConnected := true; counter := counter s;
           connectTimeout := false; streamTimeout := streamTimeout s;
           interval := interval s |}
      else s
  | StreamTimeoutFires =>
      if streamTimeout s then
        {| logs := logs s; isConnected := isConnected s; counter := counter s;
           connectTimeout := connectTimeout s; streamTimeout := false;
           interval := true |}
      else s
  | IntervalFires e =>
      if interval s then
        {| logs := logs s ++ [generateRandomLog (counter s) e];
           isConnected := isConnected s; counter := S (counter s);
           connectTimeout := connectTimeout s;
           streamTimeout := streamTimeout s; interval := true |}
      else s
  | ClearLogs =>
      {| logs := []; isConnected := isConnected s; counter := counter s;
         connectTimeout := connectTimeout s; streamTimeout := streamTimeout s;
         interval := interval s |}
  | Unmount =>
      {| logs := logs s; isConnected := isConnected s; counter := counter s;
         connectTimeout := false; streamTimeout := false; interval := false |}
  end.

Definition useLogStream_run (s : Stream) (evs : list StreamEvent) : Stream :=
  fold_left useLogStream_step evs s.

End MockLogStream.

(** ** The mock socket (src/lib/mock-event-stream.ts) *)
Module MockEventStream.
Import Random.

Definition eventTypes : list EventViewer.EventType :=
  [EventViewer.Click; EventViewer.Navigation; EventViewer.Error;
   EventViewer.Api].

Definition messages : list string :=
  [ "User clicked submit button";
    "Navigated to /dashboard";
    "Failed to load user profile";
    "GET /api/users returned 200";
    "Form validation error";
    "WebSocket connection established" ].

(** What one firing of the interval draws. *)
Record Entropy := {
  r_type : nat;
  r_message : nat;
  date_now : Z
}.

(** The event object that the interval builds with counter value [n];
    its two calls of [Date.now()] are taken within the same millisecond. *)
Definition makeEvent (n : nat) (e : Entropy) : EventViewer.Event :=
  {| EventViewer.id := "evt-" ++ pretty (date_now e) ++ "-" ++ pretty n;
     EventViewer.type :=
       default EventViewer.Click (randomPick eventTypes (r_type e));
     EventViewer.timestamp := date_now e;
     EventViewer.message := default "" (randomPick messages (r_message e)) |}.

(** What the socket hands to its [on*] handlers. *)
Inductive Delivery :=
| OnOpen
| OnMessage (event : EventViewer.Event)
| OnClose.

(** A [MockWebSocket]: [readyState] (0 connecting, 1 open, 3 closed), the
    pending connection timeout, the interval, the counter of the interval
    closure, whether the owner has its handlers set, and the calls made to
    the handlers, oldest first. A message is recorded as the event object
    whose [JSON.stringify] is sent. The [on*] fields are assignable at any
    time: the owner may clear them and set them again. *)
Record Socket := {
  readyState : nat;
  connecting : bool;
  interval : bool;
  counter : nat;
  handlers : bool;
  delivered : list Delivery
}.

(** [new MockWebSocket(url)], handlers set by the owner right after. *)
Definition MockWebSocket : Socket :=
  {| readyState := 0; connecting := true; interval := false; counter := 0;
     handlers := true; delivered := [] |}.

Definition deliver (d : Delivery) (s : Socket) : list Delivery :=
  if handlers s then delivered s ++ [d] else delivered s.

Inductive SocketEvent :=
| ConnectTimeoutFires
| IntervalFires (e : Entropy)
| CloseCalled
| HandlersCleared
| HandlersSet.

Definition socket_step (s : Socket) (ev : SocketEvent) : Socket :=
  match ev with
  | ConnectTimeoutFires =>
      if connecting s then
        {| readyState := 1; connecting := false; interval := true;
           counter := counter s; handlers := handlers s;
           delivered := deliver OnOpen s |}
      else s
  | IntervalFires e =>
      if interval s then
        if negb (readyState s =? 1)%nat then s
        else
          {| readyState := readyState s; connecting := connecting s;
             interval := true; counter := S (counter s);
             handlers := handlers s;
             delivered := deliver (OnMessage (makeEvent (counter s) e)) s |}
      else s
  | CloseCalled =>
      {| readyState := 3; connecting := connecting s; interval := false;
         counter := counter s; handlers := handlers s;
         delivered := deliver OnClose s |}
  | HandlersCleared =>
      {| readyState := readyState s; connecting := connecting s;
         interval := interval s; counter := counter s; handlers := false;
         delivered := delivered s |}
  | HandlersSet =>
      {| readyState := readyState s; connecting := connecting s;
         interval := interval s; counter := counter s; handlers := true;
         delivered := delivered s |}
  end.

Definition socket_run (s : Socket) (evs : list SocketEvent) : Socket :=
  fold_left socket_step evs s.

(** The replacement of [window.WebSocket]: the mock serves the URLs that
    contain ["localhost:3001"]. *)
Definition servedByMock (url : string) : bool := JS.includes url "localhost:3001".

End MockEventStream.

(** ** EventViewer: [delay], the search and the counts *)
Module EventViewerRest.
Import EventViewer.

(** The promise of [delay(ms, signal)]: its settlement, the pending
    timeout and the abort listener. *)
Record Delay := {
  settled : option (Settled unit);
  timer : bool;
  listener : bool
}.

(** The executor; [signal] is [None] when the argument is omitted,
    otherwise [signal.aborted] at the call. *)
Definition delay (signal : option bool) : Delay :=
  match signal with
  | Some true =>
      {| settled := Some (Rejected (DOMException "AbortError" "Aborted"));
         timer := false; listener := false |}
  | Some false => {| settled := None; timer := true; listener := true |}
  | None => {| settled := None; timer := true; listener := false |}
  end.

Inductive DelayEvent := TimerFires | SignalAborts.

(** A promise keeps its first settlement. *)
Definition settle_once (o : Settled unit) (d : Delay) : option (Settled unit) :=
  match settled d with
  | Some o' => Some o'
  | None => Some o
  end.

Definition delay_step (d : Delay) (ev : DelayEvent) : Delay :=
  match ev with
  | TimerFires =>
      if timer d then
        {| settled := settle_once (Resolved tt) d; timer := false;
           listener := listener d |}
      else d
  | SignalAborts =>
      if listener d then
        {| settled :=
             settle_once (Rejected (DOMException "AbortError" "Aborted")) d;
           timer := false; listener := false |}
      else d
  end.

Definition delay_run (d : Delay) (evs : list DelayEvent) : Delay :=
  fold_left delay_step evs d.

(** The [searchedEvents] memo. *)
Definition searchedEvents (filteredEvents : list Event)
    (debouncedSearchQuery : string) (caseSensitive : bool) : list Event :=
  let qRaw := debouncedSearchQuery in
  if negb (0 <? String.length qRaw)%nat then filteredEvents
  else if caseSensitive then
    List.filter (fun e => JS.includes (message e) qRaw) filteredEvents
  else
    let q := JS.toLowerCase qRaw in
    List.filter (fun e => JS.includes (JS.toLowerCase (message e)) q)
      filteredEvents.

(** The blink indicator: [setBlinkState(false)] when not connected, a
    toggle every second while connected. *)
Record Blink := {
  blinkState : bool;
  blinking : bool  (* the interval is set *)
}.

Definition blink_effect (isConnected : bool) (b : Blink) : Blink :=
  if isConnected then {| blinkState := blinkState b; blinking := true |}
  else {| blinkState := false; blinking := false |}.

Definition blink_tick (b : Blink) : Blink :=
  if blinking b then {| blinkState := negb (blinkState b); blinking := true |}
  else b.

End EventViewerRest.

(** ** The viewer under a sequence of reactions *)
Module ViewerRun.
Import LogStreamViewer.

Inductive ViewerEvent :=
| LogsChanged (l : list LogEntry)
| FilterChanged (e : EnabledLevels) (q : string)
| UserScroll (scrollTop : Z)
| JumpToLatest
| ToggleAutoFollow (b : bool).

Definition viewer_step (v : Viewer) (ev : ViewerEvent) : Viewer :=
  match ev with
  | LogsChanged l => logsChanged l v
  | FilterChanged e q => filterChanged e q v
  | UserScroll scrollTop => userScroll scrollTop v
  | JumpToLatest => jumpToLatest v
  | ToggleAutoFollow b => toggleAutoFollow b v
  end.

Definition viewer_run (v : Viewer) (evs : list ViewerEvent) : Viewer :=
  fold_left viewer_step evs v.

(** The largest scroll offset of the list of [v]. *)
Definition maxOffset (v : Viewer) : Z :=
  Z.max 0 (itemCount v * rowHeight v - height v).

End ViewerRun.

(** ** EventViewer: the message handler without its type annotation

    [const event: Event = JSON.parse(evt.data)] annotates a type and
    checks nothing: at run time the handler takes whatever value
    [JSON.parse] returns. Here [V] is the type of these values; the
    handler never looks into one. [EventViewer.onmessage] is this handler
    on the payloads that parse to a record. *)
Module Untyped.

Section Handler.
Context {V : Type}.

(** The part of the component that the handler reads and writes. *)
Record Component := {
  events : list V;
  onEventReceivedRef : option EventViewer.Callback;
  ws_handlers : bool;
  received : list (EventViewer.Callback * V)
}.

Definition Handler (A : Type) : Type :=
  Component -> EventViewer.Completion A * Component.

Definition ret {A} (a : A) : Handler A := fun c => (EventViewer.Normal a, c).

Definition bind {A B} (m : Handler A) (k : A -> Handler B) : Handler B :=
  fun c =>
    match m c with
    | (EventViewer.Normal a, c') => k a c'
    | (EventViewer.Throw e, c') => (EventViewer.Throw e, c')
    end.

Definition tryCatch {A} (body : Handler A)
    (handler : EventViewer.Thrown -> Handler A) : Handler A :=
  fun c =>
    match body c with
    | (EventViewer.Normal a, c') => (EventViewer.Normal a, c')
    | (EventViewer.Throw e, c') => handler e c'
    end.

Definition lift {A} (r : EventViewer.Completion A) : Handler A :=
  fun c => (r, c).

(** [setEvents((prev) => [...prev, event])] *)
Definition setEvents_append (event : V) : Handler unit :=
  fun c =>
    (EventViewer.Normal tt,
     {| events := events c ++ [event];
        onEventReceivedRef := onEventReceivedRef c;
        ws_handlers := ws_handlers c; received := received c |}).

Variable JSON_parse : string -> EventViewer.Completion V.
Variable throws : EventViewer.Callback -> V -> bool.

(** The call [cb(event)]. *)
Definition invoke (cb : EventViewer.Callback) (event : V) : Handler unit :=
  fun c =>
    (if throws cb event
     then EventViewer.Throw (EventViewer.OtherError "callback")
     else EventViewer.Normal tt,
     {| events := events c; onEventReceivedRef := onEventReceivedRef c;
        ws_handlers := ws_handlers c;
        received := received c ++ [(cb, event)] |}).

(** [onEventReceivedRef.current?.(event)] *)
Definition invoke_current (event : V) : Handler unit :=
  fun c =>
    match onEventReceivedRef c with
    | Some cb => invoke cb event c
    | None => ret tt c
    end.

(** The [ws.onmessage] handler. *)
Definition onmessage (data : string) : Handler unit :=
  tryCatch
    (bind (lift (JSON_parse data)) (fun event =>
     bind (setEvents_append event) (fun _ =>
     invoke_current event)))
    (fun _ => ret tt).

(** The socket dispatches a message: [this.onmessage?.(messageEvent)]. *)
Definition dispatch (data : string) (c : Component)
  : EventViewer.Completion unit * Component :=
  if ws_handlers c then onmessage data c else (EventViewer.Normal tt, c).
End Handler.
Arguments Component : clear implicits.

(** The component of [EventViewer] as the handler sees it. *)
Definition untyped (c : EventViewer.Component)
  : Component EventViewer.Event :=
  {| events := EventViewer.events c;
     onEventReceivedRef := EventViewer.onEventReceivedRef c;
     ws_handlers := EventViewer.ws_handlers c;
     received := EventViewer.received c |}.

End Untyped.

(** ** Payloads: the values of [JSON.parse] and the shape of a record *)
Module Payloads.

(** A value that [JSON.parse] returns. A number is given by an integer
    here; the handler treats every value alike. *)
#[warnings="-register-all"]
Inductive JSONValue :=
| JNull
| JBoolean (b : bool)
| JNumber (n : Z)
| JString (s : string)
| JArray (items : list JSONValue)
| JObject (fields : list (string * JSONValue)).

Definition field (k : string) (fields : list (string * JSONValue))
  : option JSONValue :=
  match List.find (fun kv => String.eqb (fst kv) k) fields with
  | Some kv => Some (snd kv)
  | None => None
  end.

Definition asEventType (v : JSONValue) : option EventViewer.EventType :=
  match v with
  | JString s =>
      if String.eqb s "click" then Some EventViewer.Click
      else if String.eqb s "navigation" then Some EventViewer.Navigation
      else if String.eqb s "error" then Some EventViewer.Error
      else if String.eqb s "api" then Some EventViewer.Api
      else None
  | _ => None
  end.

(** The words of the specification, not of the code: a value "parses as
    a record" when it has the shape of [interface Event] (part_002 lines
    5-10). The handler makes no such test. *)
Definition asEvent (v : JSONValue) : option EventViewer.Event :=
  match v with
  | JObject fields =>
      match field "id" fields, field "type" fields,
            field "timestamp" fields, field "message" fields with
      | Some (JString i), Some ty, Some (JNumber t), Some (JString m) =>
          match asEventType ty with
          | Some ty' =>
              Some {| EventViewer.id := i; EventViewer.type := ty';
                      EventViewer.timestamp := t; EventViewer.message := m |}
          | None => None
          end
      | _, _, _, _ => None
      end
  | _ => None
  end.

Definition ofEventType (t : EventViewer.EventType) : JSONValue :=
  JString match t with
          | EventViewer.Click => "click"
          | EventViewer.Navigation => "navigation"
          | EventViewer.Error => "error"
          | EventViewer.Api => "api"
          end.

(** The object that [JSON.parse] returns for the text of a record. *)
Definition ofEvent (e : EventViewer.Event) : JSONValue :=
  JObject [ ("id", JString (EventViewer.id e));
            ("type", ofEventType (EventViewer.type e));
            ("timestamp", JNumber (EventViewer.timestamp e));
            ("message", JString (EventViewer.message e)) ].

(** The payload [data] fails to parse as a record. *)
Definition failsToParseAsRecord
    (JSON_parse : string -> EventViewer.Completion JSONValue) (data : string)
  : Prop :=
  match JSON_parse data with
  | EventViewer.Normal v => asEvent v = None
  | EventViewer.Throw _ => True
  end.

(** The claim in the words of the specification: a payload that fails to
    parse as a record is swallowed, that is, the buffer is not mutated,
    no callback is invoked and the handler returns normally. *)
Definition malformed_swallowed
    (JSON_parse : string -> EventViewer.Completion JSONValue)
    (throws : EventViewer.Callback -> JSONValue -> bool) : Prop :=
  forall (data : string) (c : Untyped.Component JSONValue),
    failsToParseAsRecord JSON_parse data ->
    let r := Untyped.onmessage JSON_parse throws data c in
    Untyped.events (snd r) = Untyped.events c /\
    Untyped.received (snd r) = Untyped.received c /\
    fst r = EventViewer.Normal tt.

(** [JSON.parse] at the payloads of the examples: the texts null, 42 and
    {} are JSON and give the value null, the number 42 and the empty
    object; the text evt-1 stands for the JSON text of [Samples.event1];
    the other texts used are not JSON, and [JSON.parse] throws a
    [SyntaxError]. *)
Definition JSON_parse (data : string) : EventViewer.Completion JSONValue :=
  if String.eqb data "null" then EventViewer.Normal JNull
  else if String.eqb data "42" then EventViewer.Normal (JNumber 42)
  else if String.eqb data "{}" then EventViewer.Normal (JObject [])
  else if String.eqb data "evt-1"
       then EventViewer.Normal (ofEvent Samples.event1)
  else EventViewer.Throw (EventViewer.SyntaxError "Unexpected token").

Definition quiet : EventViewer.Callback -> JSONValue -> bool :=
  fun _ _ => false.

(** A component that listens, with callback 1. *)
Definition listening : Untyped.Component JSONValue :=
  {| Untyped.events := []; Untyped.onEventReceivedRef := Some 1;
     Untyped.ws_handlers := true; Untyped.received := [] |}.

End Payloads.

(** ** Auxiliary notions for the further properties *)
Module Props.

(** The values that a sequence of inputs of [useDebouncedValue] supplies. *)
Fixpoint edited {T} (inputs : list (LogStreamViewer.Input T)) : list T :=
  match inputs with
  | [] => []
  | LogStreamViewer.Edit v :: rest => v :: edited rest
  | LogStreamViewer.Wait _ :: rest => edited rest
  end.


(** In a record the word "failed" occurs exactly when the level is
    ERROR. *)
Definition failed_iff_ERROR (log : LogStreamViewer.LogEntry) : Prop :=
  JS.includes (LogStreamViewer._lc log) "failed"
  = match LogStreamViewer.level log with
    | LogStreamViewer.ERROR => true
    | _ => false
    end.

(** The logs of the mock stream are the last records generated: record
    [i] carries the id of generation number [counter - length + i]. *)
Definition stream_ids_consecutive (s : MockLogStream.Stream) : Prop :=
  List.length (MockLogStream.logs s) <= MockLogStream.counter s /\
  forall (i : nat) (log : MockLogStream.LogEntry),
    MockLogStream.logs s !! i = Some log ->
    MockLogStream.id log
    = "log-" ++ pretty (MockLogStream.counter s
                        - List.length (MockLogStream.logs s) + i).

(** An event of the mock stream other than the Clear button. *)
Definition not_clear (ev : MockLogStream.StreamEvent) : Prop :=
  match ev with
  | MockLogStream.ClearLogs => False
  | _ => True
  end.

(** The events that a mock socket delivered as messages, oldest first. *)
Fixpoint messagesOf (ds : list MockEventStream.Delivery)
  : list EventViewer.Event :=
  match ds with
  | [] => []
  | MockEventStream.OnMessage ev :: rest => ev :: messagesOf rest
  | _ :: rest => messagesOf rest
  end.

(** A reaction of [EventViewer] that comes from the socket. *)
Definition from_socket (r : EventViewer.Reaction) : Prop :=
  match r with
  | EventViewer.Rerender _ _ => False
  | _ => True
  end.

(** The settlement of a request that [useAsyncMemo] has started. *)
Definition settles_started {T} (n : nat) (e : EventViewer.HookEvent T) : Prop :=
  match e with
  | EventViewer.Settle r _ => r < n
  | _ => False
  end.

(** The number of messages among the reactions of [EventViewer]. *)
Fixpoint messageCount (rs : list EventViewer.Reaction) : nat :=
  match rs with
  | [] => 0
  | EventViewer.Message _ :: rest => S (messageCount rest)
  | _ :: rest => messageCount rest
  end.

(** Message [x] of a mock socket was built with counter value [n]. *)
Definition built_with (x : EventViewer.Event) (n : nat) : Prop :=
  exists e : MockEventStream.Entropy,
    x = MockEventStream.makeEvent n e /\
    EventViewer.id x
    = "evt-" ++ pretty (MockEventStream.date_now e) ++ "-" ++ pretty n.

End Props.

(* ===================================================================== *)
(** * Part II: theorems *)
(* ===================================================================== *)

(** ** Strings *)
Section Strings.
Import JS.

Lemma startsWith_spec (s q : string) :
  startsWith s q = true <-> exists t, s = q ++ t.
Proof.
  revert s. induction q as [|a q IH]; intros s.
  - split; [intros _; now exists s | now destruct s].
  - destruct s as [|b s]; cbn [startsWith].
    + split; [discriminate | intros [t Ht]; discriminate].
    + rewrite andb_true_iff, Ascii.eqb_eq, IH. split.
      * intros [-> [t ->]]. now exists t.
      * intros [t Ht]. injection Ht as -> ->. split; [reflexivity | now exists t].
Qed.

Lemma includes_spec (s q : string) :
  includes s q = true <-> Spec.contains s q.
Proof.
  unfold Spec.contains. induction s as [|c s IH].
  - cbn [includes]. rewrite orb_false_r, startsWith_spec. split.
    + intros [t Ht]. now exists "", t.
    + intros [pre [post H]]. destruct pre; simpl in H.
      * now exists post.
      * discriminate.
  - cbn [includes]. rewrite orb_true_iff, startsWith_spec, IH. split.
    + intros [[t Ht] | [pre [post H]]].
      * now exists "", t.
      * exists (String c pre), post. simpl. now rewrite H.
    + intros [pre [post H]]. destruct pre as [|c' pre]; simpl in H.
      * left. now exists post.
      * right. injection H as _ H. now exists pre, post.
Qed.

Lemma toLowerCase_length (s : string) :
  String.length (toLowerCase s) = String.length s.
Proof. induction s; simpl; congruence. Qed.

Lemma lowerChar_idem (c : ascii) : lowerChar (lowerChar c) = lowerChar c.
Proof. destruct c as [[] [] [] [] [] [] [] []]; reflexivity. Qed.

Lemma toLowerCase_idem (s : string) :
  toLowerCase (toLowerCase s) = toLowerCase s.
Proof.
  induction s as [|c s IH]; simpl; [reflexivity|].
  now rewrite lowerChar_idem, IH.
Qed.

Lemma toLowerCase_empty (s : string) : toLowerCase s = "" <-> s = "".
Proof. destruct s; simpl; split; intros H; try reflexivity; discriminate. Qed.

Lemma toLowerCase_nonempty (s : string) :
  (0 <? String.length (toLowerCase s))%nat = false <-> s = "".
Proof.
  rewrite toLowerCase_length. destruct s; simpl; split;
    intros H; try reflexivity; discriminate.
Qed.

Lemma trimStart_clean (s : string) : Spec.clean_start (trimStart s).
Proof.
  induction s as [|c s IH]; simpl; [exact I|].
  destruct (isWhiteSpace c) eqn:E; [exact IH | exact E].
Qed.

Lemma trimStart_id (s : string) : Spec.clean_start s -> trimStart s = s.
Proof. destruct s as [|c s]; simpl; [reflexivity|]. now intros ->. Qed.

Lemma trimEnd_clean (s : string) : Spec.clean_start s -> Spec.clean_start (trimEnd s).
Proof.
  destruct s as [|c s]; simpl; [trivial|]. intros E.
  destruct (trimEnd s); rewrite ?E; exact E.
Qed.

Lemma trimEnd_idem (s : string) : trimEnd (trimEnd s) = trimEnd s.
Proof.
  induction s as [|c s IH]; simpl; [reflexivity|].
  destruct (trimEnd s) as [|c' r] eqn:E.
  - destruct (isWhiteSpace c) eqn:W; simpl; [reflexivity | now rewrite W].
  - cbn [trimEnd] in *. fold trimEnd in *. rewrite IH. reflexivity.
Qed.

Lemma trim_idem (s : string) : trim (trim s) = trim s.
Proof.
  unfold trim.
  rewrite (trimStart_id (trimEnd (trimStart s))).
  - apply trimEnd_idem.
  - apply trimEnd_clean, trimStart_clean.
Qed.

Lemma trimStart_whitespaceOnly (s : string) :
  Spec.whitespaceOnly s = true -> trimStart s = "".
Proof.
  induction s as [|c s IH]; simpl; [reflexivity|].
  intros [-> H]%andb_true_iff. auto.
Qed.

Lemma trim_whitespaceOnly (s : string) :
  Spec.whitespaceOnly s = true -> trim s = "".
Proof. intros H. unfold trim. now rewrite trimStart_whitespaceOnly. Qed.
End Strings.

(** ** The filter loop *)
Section FilterLoop.
Import LogStreamViewer.
Variable enabledLevels : EnabledLevels.
Variable q : string.
Variable useQuery : bool.

Lemma filteredIndices_loop_pushedFrom (rest : list LogEntry) (i : nat)
    (out : list nat) :
  filteredIndices_loop enabledLevels q useQuery rest i out
  = (out ++ pushedFrom enabledLevels q useQuery rest i)%list.
Proof.
  revert i out. induction rest as [|log rest IH]; intros i out; simpl.
  - now rewrite app_nil_r.
  - unfold pushed.
    destruct (negb (get enabledLevels (level log))); [apply IH|].
    destruct (useQuery && negb (JS.includes (_lc log) q)); [apply IH|].
    rewrite IH, <- app_assoc. reflexivity.
Qed.

Lemma lookup_cons_shift (log : LogEntry) (rest : list LogEntry) (i j : nat)
    (P : LogEntry -> Prop) :
  (i <= j /\ exists l, (log :: rest) !! (j - i) = Some l /\ P l)
  <-> ((i = j /\ P log) \/
       (S i <= j /\ exists l, rest !! (j - S i) = Some l /\ P l)).
Proof.
  split.
  - intros [Hle [l [Hl Hp]]].
    destruct (decide (i = j)) as [->|Hne].
    + rewrite Nat.sub_diag in Hl. injection Hl as ->. now left.
    + right. split; [lia|]. exists l. split; [|exact Hp].
      replace (j - i) with (S (j - S i)) in Hl by lia. exact Hl.
  - intros [[-> Hp] | [Hle [l [Hl Hp]]]].
    + split; [lia|]. exists log. now rewrite Nat.sub_diag.
    + split; [lia|]. exists l. split; [|exact Hp].
      replace (j - i) with (S (j - S i)) by lia. exact Hl.
Qed.

Lemma pushedFrom_In (rest : list LogEntry) (i j : nat) :
  In j (pushedFrom enabledLevels q useQuery rest i) <->
  i <= j /\ exists log, rest !! (j - i) = Some log /\
                        pushed enabledLevels q useQuery log = true.
Proof.
  revert i. induction rest as [|log rest IH]; intros i.
  - simpl. split; [tauto | intros [_ [log [H _]]]; discriminate].
  - rewrite (lookup_cons_shift log rest i j
               (fun l => pushed enabledLevels q useQuery l = true)).
    cbn [pushedFrom].
    destruct (pushed enabledLevels q useQuery log) eqn:E; simpl;
      rewrite IH; intuition congruence.
Qed.

Lemma pushedFrom_sorted (rest : list LogEntry) (i : nat) :
  StronglySorted lt (pushedFrom enabledLevels q useQuery rest i).
Proof.
  revert i. induction rest as [|log rest IH]; intros i; simpl.
  - constructor.
  - destruct (pushed enabledLevels q useQuery log); [|apply IH].
    constructor; [apply IH|].
    apply List.Forall_forall. intros j Hj.
    apply pushedFrom_In in Hj. lia.
Qed.
End FilterLoop.

(** ** The visible index set *)
Section VisibleIndices.
Import LogStreamViewer.

Lemma debouncedSearchLc_trim (query : string) :
  debouncedSearchLc (JS.trim query) = debouncedSearchLc query.
Proof. unfold debouncedSearchLc. now rewrite trim_idem. Qed.

Lemma debouncedSearchLc_lowercase (query : string) :
  JS.toLowerCase (debouncedSearchLc query) = debouncedSearchLc query.
Proof. unfold debouncedSearchLc. apply toLowerCase_idem. Qed.

(** The test of the loop against the predicate of the specification, for
    a query that is already in lower case. *)
Lemma pushed_passes (enabled : EnabledLevels) (q : string) (log : LogEntry) :
  Spec.lc_precomputed log ->
  JS.toLowerCase q = q ->
  pushed enabled q (0 <? String.length q)%nat log = true
  <-> Spec.passes enabled q log.
Proof.
  intros Hlc Hq. unfold pushed, Spec.passes. rewrite Hq.
  destruct (get enabled (level log)); simpl.
  2: { split; [discriminate | intros [H _]; discriminate]. }
  destruct q as [|c q]; simpl; [tauto|].
  rewrite <- includes_spec, <- Hlc.
  destruct (JS.includes (_lc log) (String c q)); simpl; split;
    try tauto; try discriminate.
  intros [_ [H|H]]; discriminate.
Qed.

Lemma passes_normalised (enabled : EnabledLevels) (query : string)
    (log : LogEntry) :
  Spec.passes enabled (debouncedSearchLc query) log
  <-> Spec.passes enabled (JS.trim query) log.
Proof.
  unfold Spec.passes, debouncedSearchLc.
  rewrite toLowerCase_idem, toLowerCase_empty. reflexivity.
Qed.

Lemma filteredIndices_In (logs : list LogEntry) (enabled : EnabledLevels)
    (q : string) (i : nat) :
  In i (filteredIndices logs enabled q) <->
  exists log, logs !! i = Some log /\
    pushed enabled q (0 <? String.length q)%nat log = true.
Proof.
  unfold filteredIndices.
  rewrite filteredIndices_loop_pushedFrom, app_nil_l, pushedFrom_In.
  rewrite Nat.sub_0_r. split; [tauto | intros H; split; [lia | exact H]].
Qed.

Lemma filteredIndices_sorted (logs : list LogEntry) (enabled : EnabledLevels)
    (q : string) :
  StronglySorted lt (filteredIndices logs enabled q).
Proof.
  unfold filteredIndices.
  rewrite filteredIndices_loop_pushedFrom, app_nil_l.
  apply pushedFrom_sorted.
Qed.

Lemma filteredIndices_positions (logs : list LogEntry)
    (enabled : EnabledLevels) (q : string) :
  Forall Spec.lc_precomputed logs ->
  JS.toLowerCase q = q ->
  Spec.positions_of (Spec.passes enabled q) logs
    (filteredIndices logs enabled q).
Proof.
  intros Hlc Hq. split; [|apply filteredIndices_sorted].
  intros i. rewrite filteredIndices_In.
  split; intros [log [Hl Hp]]; exists log; (split; [exact Hl|]);
    (apply pushed_passes; [| exact Hq | exact Hp]);
    rewrite List.Forall_forall in Hlc; apply Hlc;
    apply list_elem_of_In; eapply list_elem_of_lookup_2, Hl.
Qed.
End VisibleIndices.

(** The query of the filter predicate is the effective one. With the raw
    text of the search box in its place the predicate would fail: for the
    text [" "] and a buffer whose only record has the message ["ab"], the
    viewer shows position 0, although the text is not empty and the message
    holds no space. *)
Remark visibleIndices_raw_text :
  Forall Spec.lc_precomputed Samples.one /\
  LogStreamViewer.visibleIndices Samples.one LogStreamViewer.allLevels " "
  = [0] /\
  ~ Spec.positions_of (Spec.passes LogStreamViewer.allLevels " ") Samples.one
      (LogStreamViewer.visibleIndices Samples.one LogStreamViewer.allLevels " ").
Proof.
  split; [|split].
  - repeat constructor.
  - reflexivity.
  - intros [H _]. destruct (H 0) as [H0 _].
    destruct H0 as [log [Hlog [_ [Hq | Hc]]]].
    + now left.
    + discriminate.
    + injection Hlog as <-. apply includes_spec in Hc. discriminate.
Qed.

(** C1: for every buffer whose records carry the lowercase projection of
    their message, every enabled-level map and every effective query string
    (a string in lower case, as [debouncedSearchLc] produces), the visible
    index set lists exactly the positions whose record has an enabled level
    and, unless the query is empty, a lowercase message that contains the
    lowercase query, in ascending order. In terms of the text of the search
    box, the effective query is the text trimmed and lowercased. For levels
    [INFO, ERROR, INFO, WARN, ERROR], enabled = {ERROR} and the empty query
    the result is [1, 4]. *)
Theorem visibleIndices_filter_correct :
  (forall (logs : list LogStreamViewer.LogEntry)
          (enabled : LogStreamViewer.EnabledLevels) (q : string),
      Forall Spec.lc_precomputed logs ->
      JS.toLowerCase q = q ->
      Spec.positions_of (Spec.passes enabled q) logs
        (LogStreamViewer.filteredIndices logs enabled q)) /\
  (forall (logs : list LogStreamViewer.LogEntry)
          (enabled : LogStreamViewer.EnabledLevels) (search : string),
      Forall Spec.lc_precomputed logs ->
      Spec.positions_of
        (Spec.passes enabled (LogStreamViewer.debouncedSearchLc search)) logs
        (LogStreamViewer.visibleIndices logs enabled search) /\
      Spec.positions_of (Spec.passes enabled (JS.trim search)) logs
        (LogStreamViewer.visibleIndices logs enabled search)) /\
  (forall logs : list LogStreamViewer.LogEntry,
      map LogStreamViewer.level logs
      = [LogStreamViewer.INFO; LogStreamViewer.ERROR; LogStreamViewer.INFO;
         LogStreamViewer.WARN; LogStreamViewer.ERROR] ->
      LogStreamViewer.filteredIndices logs Samples.onlyERROR "" = [1; 4]).
Proof.
  split; [|split].
  - intros logs enabled q Hlc Hq. now apply filteredIndices_positions.
  - intros logs enabled search Hlc.
    assert (Hn : Spec.positions_of
              (Spec.passes enabled (LogStreamViewer.debouncedSearchLc search))
              logs (LogStreamViewer.visibleIndices logs enabled search)).
    { apply filteredIndices_positions;
        [exact Hlc | apply debouncedSearchLc_lowercase]. }
    split; [exact Hn|].
    destruct Hn as [Hin Hsorted]. split; [|exact Hsorted].
    intros i. rewrite Hin.
    split; intros [log [Hl Hp]]; exists log; (split; [exact Hl|]);
      apply passes_normalised; exact Hp.
  - intros logs H.
    destruct logs as [|l0 [|l1 [|l2 [|l3 [|l4 [|l5 logs]]]]]]; try discriminate.
    simpl in H. injection H as H0 H1 H2 H3 H4.
    unfold LogStreamViewer.filteredIndices.
    simpl. rewrite H0, H1, H2, H3, H4. reflexivity.
Qed.

Lemma visibleIndices_filter_correct_witness :
  Spec.positions_of (Spec.passes Samples.onlyERROR "failed") Samples.five
    (LogStreamViewer.filteredIndices Samples.five Samples.onlyERROR "failed")
  /\
  Spec.positions_of
    (Spec.passes Samples.onlyERROR
       (LogStreamViewer.debouncedSearchLc "  Failed "))
    Samples.five
    (LogStreamViewer.visibleIndices Samples.five Samples.onlyERROR "  Failed ")
  /\
  LogStreamViewer.filteredIndices Samples.five Samples.onlyERROR "" = [1; 4].
Proof.
  split; [|split].
  - apply (proj1 visibleIndices_filter_correct);
      [repeat constructor | reflexivity].
  - apply (proj1 (proj2 visibleIndices_filter_correct)). repeat constructor.
  - apply (proj2 (proj2 visibleIndices_filter_correct)). reflexivity.
Defined.

(** C10: the visible index set computed for a query equals the one computed
    for the trimmed query; a query made of white space only behaves like the
    empty query and shows every record whose level is enabled. *)
Theorem visibleIndices_trim_invariant :
  (forall (logs : list LogStreamViewer.LogEntry)
          (enabled : LogStreamViewer.EnabledLevels) (query : string),
      LogStreamViewer.visibleIndices logs enabled query
      = LogStreamViewer.visibleIndices logs enabled (JS.trim query)) /\
  (forall (logs : list LogStreamViewer.LogEntry)
          (enabled : LogStreamViewer.EnabledLevels) (query : string),
      Spec.whitespaceOnly query = true ->
      LogStreamViewer.visibleIndices logs enabled query
      = LogStreamViewer.visibleIndices logs enabled "" /\
      forall i, In i (LogStreamViewer.visibleIndices logs enabled query) <->
                exists log, logs !! i = Some log /\
                  LogStreamViewer.get enabled (LogStreamViewer.level log) = true).
Proof.
  split.
  - intros logs enabled query. unfold LogStreamViewer.visibleIndices.
    now rewrite debouncedSearchLc_trim.
  - intros logs enabled query Hws.
    assert (Hq : LogStreamViewer.debouncedSearchLc query = "").
    { unfold LogStreamViewer.debouncedSearchLc.
      now rewrite trim_whitespaceOnly. }
    split.
    + unfold LogStreamViewer.visibleIndices. now rewrite Hq.
    + intros i. unfold LogStreamViewer.visibleIndices.
      rewrite filteredIndices_In, Hq. simpl.
      unfold LogStreamViewer.pushed. simpl.
      split; intros [log [Hl Hp]]; exists log; (split; [exact Hl|]).
      * destruct (LogStreamViewer.get enabled (LogStreamViewer.level log));
          [reflexivity | discriminate].
      * now rewrite Hp.
Qed.

Lemma visibleIndices_trim_invariant_witness :
  LogStreamViewer.visibleIndices Samples.five Samples.onlyERROR "   "
  = LogStreamViewer.visibleIndices Samples.five Samples.onlyERROR "" /\
  forall i,
    In i (LogStreamViewer.visibleIndices Samples.five Samples.onlyERROR "   ")
    <-> exists log, Samples.five !! i = Some log /\
          LogStreamViewer.get Samples.onlyERROR (LogStreamViewer.level log)
          = true.
Proof.
  apply (proj2 visibleIndices_trim_invariant). reflexivity.
Defined.

(** ** The bounded buffers *)
Section Buffers.
Context {A : Type}.
Implicit Types l m : list A.

Lemma slice_last_length (k : nat) l :
  List.length (JS.slice_last k l) = Nat.min k (List.length l).
Proof. unfold JS.slice_last. rewrite length_drop. lia. Qed.

Lemma slice_last_snoc (k : nat) l (x : A) :
  (JS.slice_last k l ++ [x])%list = JS.slice_last (S k) (l ++ [x]).
Proof.
  unfold JS.slice_last. rewrite length_app. simpl.
  replace (List.length l + 1 - S k) with (List.length l - k) by lia.
  rewrite drop_app_le by lia. reflexivity.
Qed.

Lemma slice_last_absorb (k : nat) l m :
  JS.slice_last k (JS.slice_last k l ++ m) = JS.slice_last k (l ++ m).
Proof.
  unfold JS.slice_last. rewrite !length_app, length_drop.
  destruct (decide (List.length l <= k)) as [Hle|Hgt].
  - replace (List.length l - k) with 0 by lia. rewrite drop_0.
    f_equal. lia.
  - replace (List.length l - (List.length l - k) + List.length m - k)
      with (List.length m) by lia.
    replace (List.length l + List.length m - k)
      with ((List.length l - k) + List.length m) by lia.
    rewrite <- drop_drop. rewrite (drop_app_le l m) by lia. reflexivity.
Qed.

Lemma last_n_slice_last (k : nat) l : Spec.last_n k l = JS.slice_last k l.
Proof.
  unfold Spec.last_n, JS.slice_last.
  rewrite List.firstn_rev, List.rev_involutive. reflexivity.
Qed.
End Buffers.

Section BuildChallengePage.
Import LogStreamViewer BuildChallengePage.

Lemma append_slice_last (prev : list LogEntry) (newLog : LogEntry) :
  append prev newLog = JS.slice_last KEEP (prev ++ [newLog]).
Proof. unfold append, KEEP. apply slice_last_snoc. Qed.

Lemma append_length (prev : list LogEntry) (newLog : LogEntry) :
  List.length (append prev newLog) = Nat.min KEEP (S (List.length prev)).
Proof.
  rewrite append_slice_last, slice_last_length, length_app.
  f_equal. cbn [List.length]. lia.
Qed.

Lemma appendAll_slice_last (buffer : list LogEntry) (newLog : LogEntry)
    (news : list LogEntry) :
  appendAll buffer (newLog :: news)
  = JS.slice_last KEEP (buffer ++ newLog :: news).
Proof.
  revert buffer newLog. induction news as [|y news IH]; intros buffer x.
  - simpl. apply append_slice_last.
  - change (appendAll buffer (x :: y :: news))
      with (appendAll (append buffer x) (y :: news)).
    rewrite IH, append_slice_last, slice_last_absorb.
    rewrite <- app_assoc. reflexivity.
Qed.

(** The host page keeps its promise: once more than [KEEP] records have
    been appended, the buffer holds exactly the last [KEEP] of them, in
    order, and no append step leaves it longer than [KEEP]. *)
Lemma BuildChallengePage_keeps_last (buffer : list LogEntry)
    (newLog : LogEntry) (news : list LogEntry) :
  KEEP <= List.length (buffer ++ newLog :: news) ->
  appendAll buffer (newLog :: news)
  = Spec.last_n KEEP (buffer ++ newLog :: news) /\
  List.length (appendAll buffer (newLog :: news)) = KEEP /\
  List.length (append buffer newLog) <= KEEP.
Proof.
  intros Hlen. rewrite appendAll_slice_last, last_n_slice_last.
  split; [reflexivity|]. split.
  - rewrite slice_last_length. lia.
  - rewrite append_length. lia.
Qed.
End BuildChallengePage.

Section LogStreamDemo.
Import LogStreamViewer.

Lemma LogStreamDemo_tick_length (prev batch : list LogEntry) :
  List.length (LogStreamDemo_tick prev batch)
  = Nat.min MAX_LOGS (List.length prev) + List.length batch.
Proof.
  unfold LogStreamDemo_tick, JS.slice_from. generalize MAX_LOGS. intros cap.
  rewrite length_app.
  destruct (cap <? List.length prev)%nat eqn:E.
  - apply Nat.ltb_lt in E. rewrite length_drop. lia.
  - apply Nat.ltb_ge in E. lia.
Qed.

(** Once the buffer has reached [MAX_LOGS], it holds [MAX_LOGS] records
    plus the last batch after every further tick. *)
Lemma LogStreamDemo_ticks_over_cap (batches : list (list LogEntry))
    (prev last : list LogEntry) :
  MAX_LOGS <= List.length prev ->
  List.length (LogStreamDemo_ticks prev (batches ++ [last]))
  = MAX_LOGS + List.length last.
Proof.
  unfold LogStreamDemo_ticks.
  revert prev. induction batches as [|b batches IH]; intros prev Hfull;
    cbn [app fold_left].
  - rewrite LogStreamDemo_tick_length. lia.
  - apply IH. rewrite LogStreamDemo_tick_length. lia.
Qed.
End LogStreamDemo.

(** C2: the demo host trims its buffer to [MAX_LOGS] before it appends the
    batch of a tick, not after. On a buffer that has reached [MAX_LOGS]
    records, a tick leaves [MAX_LOGS] plus the batch size: the cap is
    exceeded after the step, and the buffer is not the last [MAX_LOGS]
    records. *)
Theorem LogStreamDemo_tick_exceeds_MAX_LOGS :
  forall prev batch : list LogStreamViewer.LogEntry,
    LogStreamViewer.MAX_LOGS <= List.length prev ->
    0 < List.length batch ->
    List.length (LogStreamViewer.LogStreamDemo_tick prev batch)
    = LogStreamViewer.MAX_LOGS + List.length batch /\
    LogStreamViewer.MAX_LOGS
    < List.length (LogStreamViewer.LogStreamDemo_tick prev batch) /\
    LogStreamViewer.LogStreamDemo_tick prev batch
    <> Spec.last_n LogStreamViewer.MAX_LOGS (prev ++ batch).
Proof.
  intros prev batch Hfull Hbatch.
  assert (Hlen : List.length (LogStreamViewer.LogStreamDemo_tick prev batch)
                 = LogStreamViewer.MAX_LOGS + List.length batch).
  { rewrite LogStreamDemo_tick_length. lia. }
  split; [exact Hlen|]. split; [lia|].
  intros Heq. rewrite Heq, last_n_slice_last, slice_last_length in Hlen.
  rewrite length_app in Hlen. lia.
Qed.

Lemma LogStreamDemo_tick_exceeds_MAX_LOGS_witness :
  let e := Samples.entry 0 LogStreamViewer.INFO "Request completed ms=12" in
  let prev := List.repeat e LogStreamViewer.MAX_LOGS in
  let batch := List.repeat e (LogStreamViewer.perTick 20) in
  List.length (LogStreamViewer.LogStreamDemo_tick prev batch)
  = LogStreamViewer.MAX_LOGS + List.length batch /\
  LogStreamViewer.MAX_LOGS
  < List.length (LogStreamViewer.LogStreamDemo_tick prev batch) /\
  LogStreamViewer.LogStreamDemo_tick prev batch
  <> Spec.last_n LogStreamViewer.MAX_LOGS (prev ++ batch).
Proof.
  intros e prev batch.
  apply (LogStreamDemo_tick_exceeds_MAX_LOGS prev batch).
  - apply Nat.leb_le. vm_compute. reflexivity.
  - apply Nat.ltb_lt. vm_compute. reflexivity.
Defined.

(** ** Debounce *)
Section Debounce.
Import LogStreamViewer.
Context {T : Type} `{EqDecision T}.
Implicit Types d : Debounced T.

Lemma useDebouncedValue_render_restarts d (v : T) :
  v <> value d ->
  useDebouncedValue_render v d
  = {| value := v; delayMs := delayMs d; debounced := debounced d;
       timer := Some (now d + delayMs d, v); now := now d;
       committed := committed d |}.
Proof.
  intros Hne. unfold useDebouncedValue_render.
  destruct (decide (v = value d)); [contradiction | reflexivity].
Qed.

Lemma useDebouncedValue_wait_pending d (ms due : nat) (v : T) :
  timer d = Some (due, v) -> now d + ms < due ->
  useDebouncedValue_wait ms d
  = {| value := value d; delayMs := delayMs d; debounced := debounced d;
       timer := Some (due, v); now := now d + ms; committed := committed d |}.
Proof.
  intros Ht Hlt. unfold useDebouncedValue_wait. rewrite Ht.
  destruct (Nat.leb_spec due (now d + ms)); [lia | reflexivity].
Qed.

Lemma useDebouncedValue_wait_fires d (ms due : nat) (v : T) :
  timer d = Some (due, v) -> due <= now d + ms ->
  useDebouncedValue_wait ms d
  = {| value := value d; delayMs := delayMs d; debounced := v;
       timer := None; now := now d + ms;
       committed := (committed d ++ [v])%list |}.
Proof.
  intros Ht Hle. unfold useDebouncedValue_wait. rewrite Ht.
  destruct (Nat.leb_spec due (now d + ms)); [reflexivity | lia].
Qed.

Lemma useDebouncedValue_render_eq (v v0 deb : T) (dl nw : nat)
    (tm : option (nat * T)) (cm : list T) :
  v <> v0 ->
  useDebouncedValue_render v
    {| value := v0; delayMs := dl; debounced := deb; timer := tm;
       now := nw; committed := cm |}
  = {| value := v; delayMs := dl; debounced := deb;
       timer := Some (nw + dl, v); now := nw; committed := cm |}.
Proof. intros Hne. now rewrite useDebouncedValue_render_restarts. Qed.

Lemma useDebouncedValue_wait_eq (ms : nat) (v0 deb x : T) (dl nw due : nat)
    (cm : list T) :
  useDebouncedValue_wait ms
    {| value := v0; delayMs := dl; debounced := deb; timer := Some (due, x);
       now := nw; committed := cm |}
  = if (due <=? nw + ms)%nat
    then {| value := v0; delayMs := dl; debounced := x; timer := None;
            now := nw + ms; committed := (cm ++ [x])%list |}
    else {| value := v0; delayMs := dl; debounced := deb;
            timer := Some (due, x); now := nw + ms; committed := cm |}.
Proof. reflexivity. Qed.
End Debounce.

(** C4: with the 200 ms debounce of the log viewer, the search box is
    edited to "a", 50 ms later to "ab" and 50 ms later to "abc". Whatever
    the idle time [pre] before the first edit and the time [w] waited after
    the last one, [setDebounced] is never called with "a" or "ab"; it is
    called with "abc" exactly once when [w] reaches 200 ms and not at all
    before. Every edit to a new value replaces the pending timeout by one
    that is due a full delay later. *)
Theorem useDebouncedValue_commits_last_edit_once :
  (forall pre w : nat,
      let d := LogStreamViewer.useDebouncedValue_run
                 (LogStreamViewer.useDebouncedValue_mount "" 200 0)
                 [LogStreamViewer.Wait pre;
                  LogStreamViewer.Edit "a"; LogStreamViewer.Wait 50;
                  LogStreamViewer.Edit "ab"; LogStreamViewer.Wait 50;
                  LogStreamViewer.Edit "abc"; LogStreamViewer.Wait w] in
      LogStreamViewer.committed d
      = ((if (200 <=? pre)%nat then [""] else [])
         ++ (if (200 <=? w)%nat then ["abc"] else []))%list /\
      LogStreamViewer.debounced d = (if (200 <=? w)%nat then "abc" else "") /\
      ~ In "a" (LogStreamViewer.committed d) /\
      ~ In "ab" (LogStreamViewer.committed d) /\
      count_occ string_dec (LogStreamViewer.committed d) "abc"
      = (if (200 <=? w)%nat then 1 else 0)) /\
  (forall (d : LogStreamViewer.Debounced string) (v : string),
      v <> LogStreamViewer.value d ->
      LogStreamViewer.timer (LogStreamViewer.useDebouncedValue_render v d)
      = Some (LogStreamViewer.now d + LogStreamViewer.delayMs d, v) /\
      LogStreamViewer.committed (LogStreamViewer.useDebouncedValue_render v d)
      = LogStreamViewer.committed d /\
      LogStreamViewer.debounced (LogStreamViewer.useDebouncedValue_render v d)
      = LogStreamViewer.debounced d).
Proof.
  split.
  - intros pre w d.
    assert (Hd : LogStreamViewer.committed d
                 = ((if (200 <=? pre)%nat then [""] else [])
                    ++ (if (200 <=? w)%nat then ["abc"] else []))%list /\
                 LogStreamViewer.debounced d
                 = (if (200 <=? w)%nat then "abc" else "")).
    { subst d.
      unfold LogStreamViewer.useDebouncedValue_run,
        LogStreamViewer.useDebouncedValue_mount.
      cbn [fold_left LogStreamViewer.useDebouncedValue_step].
      rewrite useDebouncedValue_wait_eq.
      destruct (Nat.leb_spec 200 pre) as [Hpre|Hpre];
        (destruct (Nat.leb_spec (0 + 200) (0 + pre)); [|try lia]; try lia);
        rewrite useDebouncedValue_render_eq by discriminate;
        rewrite useDebouncedValue_wait_eq;
        (destruct (Nat.leb_spec (0 + pre + 200) (0 + pre + 50)); [lia|]);
        rewrite useDebouncedValue_render_eq by discriminate;
        rewrite useDebouncedValue_wait_eq;
        (destruct (Nat.leb_spec (0 + pre + 50 + 200) (0 + pre + 50 + 50));
         [lia|]);
        rewrite useDebouncedValue_render_eq by discriminate;
        rewrite useDebouncedValue_wait_eq;
        (destruct (Nat.leb_spec (0 + pre + 50 + 50 + 200)
                                (0 + pre + 50 + 50 + w));
         destruct (Nat.leb_spec 200 w); try lia);
        split; reflexivity. }
    destruct Hd as [Hc Hdeb]. rewrite Hc.
    split; [reflexivity|]. split; [exact Hdeb|].
    destruct (200 <=? pre)%nat, (200 <=? w)%nat; cbn;
      repeat split; try reflexivity;
      intros H; repeat (destruct H as [H|H]; [discriminate|]); exact H.
  - intros d v Hne. rewrite useDebouncedValue_render_restarts by exact Hne.
    repeat split.
Qed.

Lemma useDebouncedValue_commits_last_edit_once_witness :
  let d := LogStreamViewer.useDebouncedValue_mount "" 200 0 in
  LogStreamViewer.timer (LogStreamViewer.useDebouncedValue_render "a" d)
  = Some (LogStreamViewer.now d + LogStreamViewer.delayMs d, "a") /\
  LogStreamViewer.committed (LogStreamViewer.useDebouncedValue_render "a" d)
  = LogStreamViewer.committed d /\
  LogStreamViewer.debounced (LogStreamViewer.useDebouncedValue_render "a" d)
  = LogStreamViewer.debounced d.
Proof.
  intros d.
  apply (proj2 useDebouncedValue_commits_last_edit_once d "a").
  discriminate.
Defined.

(** ** The follow state of the viewer *)
Section Follow.
Import LogStreamViewer.
Local Open Scope Z_scope.
Implicit Types v : Viewer.

Lemma onScroll_requested v (offset : Z) :
  onScroll v {| scrollOffset := offset; scrollUpdateWasRequested := true |} = v.
Proof. reflexivity. Qed.

Lemma onScroll_user v (offset : Z) :
  onScroll v {| scrollOffset := offset; scrollUpdateWasRequested := false |}
  = setAtBottom
      (Z.max 0 (itemCount v * rowHeight v - height v) - rowHeight v * 2
       <=? offset) v.
Proof. reflexivity. Qed.

Lemma FixedSizeList_scrollToItem_eq (index : Z) (align : Align) v :
  FixedSizeList_scrollToItem index align v
  = list_moved
      (Z.max 0 (FixedSizeList_offsetFor v
                  (Z.max 0 (Z.min index (itemCount v - 1))) align))
      (Some (index, align)) v.
Proof.
  unfold FixedSizeList_scrollToItem.
  destruct (_ =? list_scrollOffset v); [reflexivity|].
  apply onScroll_requested.
Qed.

Lemma offsetFor_last_end v :
  0 < itemCount v ->
  Z.max 0 (FixedSizeList_offsetFor v
             (Z.max 0 (Z.min (itemCount v - 1) (itemCount v - 1))) AlignEnd)
  = Z.max 0 (itemCount v * rowHeight v - height v).
Proof.
  intros Hpos. unfold FixedSizeList_offsetFor.
  rewrite Z.min_id, (Z.max_r 0 (itemCount v - 1)) by lia.
  replace ((itemCount v - 1) * rowHeight v - height v + rowHeight v)
    with (itemCount v * rowHeight v - height v) by ring.
  lia.
Qed.

Lemma jumpToLatest_eq v :
  jumpToLatest v
  = if itemCount v <=? 0 then v
    else list_moved (Z.max 0 (itemCount v * rowHeight v - height v))
           (Some (itemCount v - 1, AlignEnd)) v.
Proof.
  unfold jumpToLatest. destruct (Z.leb_spec (itemCount v) 0); [reflexivity|].
  rewrite FixedSizeList_scrollToItem_eq, offsetFor_last_end by lia.
  reflexivity.
Qed.

Lemma layoutEffect_following v :
  effectiveFollow v = true -> 0 < itemCount v ->
  layoutEffect v
  = list_moved (Z.max 0 (itemCount v * rowHeight v - height v))
      (Some (itemCount v - 1, AlignEnd)) v.
Proof.
  intros Hf Hpos. unfold layoutEffect. rewrite Hf. simpl.
  destruct (Z.leb_spec (itemCount v) 0); [lia|].
  rewrite FixedSizeList_scrollToItem_eq, offsetFor_last_end by lia.
  reflexivity.
Qed.

(** A commit that grows the item count while the viewer follows runs the
    layout effect, which scrolls to the new last row. *)
Lemma commit_growth v next :
  effectiveFollow next = true ->
  itemCount v < itemCount next ->
  commit v next
  = list_moved (Z.max 0 (itemCount next * rowHeight next - height next))
      (Some (itemCount next - 1, AlignEnd)) next.
Proof.
  intros Hf Hgrow. unfold commit.
  destruct (Z.eqb_spec (itemCount v) (itemCount next)) as [Heq|Hne]; [lia|].
  rewrite andb_false_r. apply layoutEffect_following; [exact Hf|].
  unfold itemCount in *. lia.
Qed.

(** A user scroll that ends within two rows of the bottom sets [atBottom];
    with the auto-follow toggle on, the viewer follows again. *)
Lemma onScroll_near_bottom_pins v (offset : Z) :
  autoFollowEnabled v = true ->
  Z.max 0 (itemCount v * rowHeight v - height v) - 2 * rowHeight v <= offset ->
  effectiveFollow
    (onScroll v {| scrollOffset := offset;
                   scrollUpdateWasRequested := false |}) = true.
Proof.
  intros Hauto Hnear. rewrite onScroll_user.
  unfold effectiveFollow. cbn [autoFollowEnabled atBottom setAtBottom].
  rewrite Hauto. simpl. apply Z.leb_le. lia.
Qed.

(** A user scroll that ends further than two rows from the bottom clears
    [atBottom]. *)
Lemma onScroll_far_unpins v (offset : Z) :
  offset < Z.max 0 (itemCount v * rowHeight v - height v) - 2 * rowHeight v ->
  effectiveFollow
    (onScroll v {| scrollOffset := offset;
                   scrollUpdateWasRequested := false |}) = false.
Proof.
  intros Hfar. rewrite onScroll_user.
  unfold effectiveFollow. cbn [autoFollowEnabled atBottom setAtBottom].
  apply andb_false_iff. right. apply Z.leb_gt. lia.
Qed.
End Follow.

(** C6: in the following state (auto-follow on, at bottom), a change of
    the buffer or of the filter that grows the visible index set makes the
    viewer call [scrollToItem] once, for the new last index with alignment
    "end"; the list then stands at its maximum offset, and the viewer is
    still at bottom and still following. A scroll report that was requested
    by the program never changes the viewer. *)
Theorem pinned_growth_scrolls_to_last :
  (forall (v : LogStreamViewer.Viewer)
          (logs' : list LogStreamViewer.LogEntry),
      LogStreamViewer.effectiveFollow v = true ->
      (0 < LogStreamViewer.itemCount v)%Z ->
      (LogStreamViewer.itemCount v
       < LogStreamViewer.itemCount (LogStreamViewer.setLogs logs' v))%Z ->
      let v' := LogStreamViewer.logsChanged logs' v in
      LogStreamViewer.list_scrollToItem v'
      = (LogStreamViewer.list_scrollToItem v
         ++ [((LogStreamViewer.itemCount v' - 1)%Z,
              LogStreamViewer.AlignEnd)])%list /\
      LogStreamViewer.list_scrollOffset v'
      = Z.max 0 (LogStreamViewer.itemCount v' * LogStreamViewer.rowHeight v'
                 - LogStreamViewer.height v')%Z /\
      LogStreamViewer.atBottom v' = true /\
      LogStreamViewer.effectiveFollow v' = true) /\
  (forall (v : LogStreamViewer.Viewer)
          (e : LogStreamViewer.EnabledLevels) (q : string),
      LogStreamViewer.effectiveFollow v = true ->
      (0 < LogStreamViewer.itemCount v)%Z ->
      (LogStreamViewer.itemCount v
       < LogStreamViewer.itemCount (LogStreamViewer.setFilter e q v))%Z ->
      let v' := LogStreamViewer.filterChanged e q v in
      LogStreamViewer.list_scrollToItem v'
      = (LogStreamViewer.list_scrollToItem v
         ++ [((LogStreamViewer.itemCount v' - 1)%Z,
              LogStreamViewer.AlignEnd)])%list /\
      LogStreamViewer.list_scrollOffset v'
      = Z.max 0 (LogStreamViewer.itemCount v' * LogStreamViewer.rowHeight v'
                 - LogStreamViewer.height v')%Z /\
      LogStreamViewer.atBottom v' = true /\
      LogStreamViewer.effectiveFollow v' = true) /\
  (forall (v : LogStreamViewer.Viewer) (offset : Z),
      LogStreamViewer.onScroll v
        {| LogStreamViewer.scrollOffset := offset;
           LogStreamViewer.scrollUpdateWasRequested := true |} = v).
Proof.
  split; [|split; [|intros v offset; reflexivity]].
  - intros v logs' Hf Hpos Hgrow v'. subst v'.
    unfold LogStreamViewer.logsChanged.
    rewrite commit_growth by (assumption || lia).
    unfold LogStreamViewer.effectiveFollow in *. cbn.
    repeat split; try reflexivity; [apply andb_true_iff in Hf; tauto | exact Hf].
  - intros v e q Hf Hpos Hgrow v'. subst v'.
    unfold LogStreamViewer.filterChanged.
    rewrite commit_growth by (assumption || lia).
    unfold LogStreamViewer.effectiveFollow in *. cbn.
    repeat split; try reflexivity; [apply andb_true_iff in Hf; tauto | exact Hf].
Qed.

Lemma pinned_growth_scrolls_to_last_witness :
  let v := Samples.viewer 30 true true 200 in
  let v' := LogStreamViewer.logsChanged
              (LogStreamViewer.logs v
               ++ [Samples.entry 1 LogStreamViewer.WARN "Retrying"])%list v in
  LogStreamViewer.list_scrollToItem v'
  = (LogStreamViewer.list_scrollToItem v
     ++ [((LogStreamViewer.itemCount v' - 1)%Z, LogStreamViewer.AlignEnd)])%list /\
  LogStreamViewer.list_scrollOffset v'
  = Z.max 0 (LogStreamViewer.itemCount v' * LogStreamViewer.rowHeight v'
             - LogStreamViewer.height v')%Z /\
  LogStreamViewer.atBottom v' = true /\
  LogStreamViewer.effectiveFollow v' = true.
Proof.
  intros v.
  apply (proj1 pinned_growth_scrolls_to_last v).
  - reflexivity.
  - vm_compute. reflexivity.
  - vm_compute. reflexivity.
Defined.

(** C7: the "Jump to latest" handler only scrolls the list. The scroll is
    reported as requested by the program, so [onScroll] returns early and
    [atBottom] keeps its value. In the viewer of the demo with 100 records,
    the user scrolls from the bottom to the top (the viewer stops
    following) and clicks "Jump to latest": the list stands at its maximum
    offset 1880 again, but the viewer is still not at bottom and not
    following, and the next record is not scrolled to. *)
Theorem jumpToLatest_keeps_atBottom :
  (forall v : LogStreamViewer.Viewer,
      LogStreamViewer.atBottom (LogStreamViewer.jumpToLatest v)
      = LogStreamViewer.atBottom v /\
      LogStreamViewer.effectiveFollow (LogStreamViewer.jumpToLatest v)
      = LogStreamViewer.effectiveFollow v) /\
  (let v0 := Samples.viewer 100 true true 1880 in
   let v1 := LogStreamViewer.userScroll 0 v0 in
   let v2 := LogStreamViewer.jumpToLatest v1 in
   let v3 := LogStreamViewer.logsChanged
               (LogStreamViewer.logs v2
                ++ [Samples.entry 1 LogStreamViewer.WARN "Retrying"])%list v2 in
   LogStreamViewer.effectiveFollow v0 = true /\
   LogStreamViewer.effectiveFollow v1 = false /\
   LogStreamViewer.list_scrollToItem v2 = [(99%Z, LogStreamViewer.AlignEnd)] /\
   LogStreamViewer.list_scrollOffset v2 = 1880%Z /\
   LogStreamViewer.atBottom v2 = false /\
   LogStreamViewer.effectiveFollow v2 = false /\
   LogStreamViewer.itemCount v3 = 101%Z /\
   LogStreamViewer.list_scrollToItem v3 = LogStreamViewer.list_scrollToItem v2 /\
   LogStreamViewer.list_scrollOffset v3 = 1880%Z).
Proof.
  split.
  - intros v. rewrite jumpToLatest_eq.
    destruct (LogStreamViewer.itemCount v <=? 0)%Z; split; reflexivity.
  - vm_compute. repeat split.
Qed.

(** ** useAsyncMemo *)
Section AsyncMemo.
Import EventViewer.
Context {T : Type}.
Implicit Types m : AsyncMemo T.

Lemma cleanup_length m :
  List.length (controllers (cleanup m)) = List.length (controllers m).
Proof.
  unfold cleanup. destruct (live m); simpl; [apply length_insert | reflexivity].
Qed.

Lemma cleanup_value m : value (cleanup m) = value m.
Proof. unfold cleanup. now destruct (live m). Qed.

(** A request is aborted in the state right after a later one started. *)
Lemma start_aborts_live m (r : nat) :
  live m = Some r -> r < List.length (controllers m) ->
  aborted (start m) r = true.
Proof.
  intros Hl Hr. unfold aborted, start, effect, cleanup. rewrite Hl. simpl.
  rewrite lookup_app_l by (rewrite length_insert; exact Hr).
  rewrite list_lookup_insert_eq by exact Hr. reflexivity.
Qed.

Lemma start_live m : live (start m) = Some (List.length (controllers m)).
Proof. unfold start, effect. simpl. now rewrite cleanup_length. Qed.

Lemma start_length m :
  List.length (controllers (start m)) = S (List.length (controllers m)).
Proof.
  unfold start, effect. simpl. rewrite length_app, cleanup_length. simpl. lia.
Qed.

Lemma start_fresh m :
  aborted (start m) (List.length (controllers m)) = false.
Proof.
  unfold aborted, start, effect. simpl.
  rewrite <- (cleanup_length m), list_lookup_middle by reflexivity.
  reflexivity.
Qed.

Lemma start_value m : value (start m) = value m.
Proof. unfold start, effect. simpl. apply cleanup_value. Qed.

Lemma settle_aborted m (r : nat) (o : Settled T) :
  aborted m r = true ->
  settle r o m
  = match o with
    | Resolved _ => m
    | Rejected err => if isAbortError err then m else setError err m
    end.
Proof.
  intros Ha. unfold settle. rewrite Ha. simpl.
  destruct o as [next|err]; [now rewrite Ha|].
  destruct (isAbortError err); simpl.
  - now rewrite Ha.
  - unfold aborted in *. simpl. now rewrite Ha.
Qed.

Lemma settle_controllers m (r : nat) (o : Settled T) :
  controllers (settle r o m) = controllers m /\ live (settle r o m) = live m.
Proof.
  unfold settle.
  destruct o as [next|err]; simpl;
    repeat match goal with
           | |- context [if ?b then _ else _] => destruct b; simpl
           end; split; reflexivity.
Qed.

Lemma settle_aborted_value m (r : nat) (o : Settled T) :
  aborted m r = true -> value (settle r o m) = value m.
Proof.
  intros Ha. rewrite settle_aborted by exact Ha.
  destruct o as [next|err]; [reflexivity|].
  now destruct (isAbortError err).
Qed.

Lemma settle_resolved_live m (r : nat) (next : T) :
  aborted m r = false -> value (settle r (Resolved next) m) = next.
Proof.
  intros Ha. unfold settle. rewrite Ha. simpl.
  unfold aborted in *. simpl. now rewrite Ha.
Qed.

Lemma aborted_settle m (r r' : nat) (o : Settled T) :
  aborted (settle r' o m) r = aborted m r.
Proof.
  unfold aborted. now rewrite (proj1 (settle_controllers m r' o)).
Qed.

Lemma superseded_aborted_init (initialValue : T) :
  Spec.superseded_aborted (useAsyncMemo_init initialValue).
Proof. intros r Hr. simpl in Hr. lia. Qed.

Lemma superseded_aborted_cleanup m :
  Spec.superseded_aborted m -> Spec.superseded_aborted (cleanup m).
Proof.
  intros Inv r Hr _. rewrite cleanup_length in Hr.
  unfold cleanup. destruct (live m) as [r0|] eqn:El; simpl.
  - destruct (decide (r0 = r)) as [->|Hne].
    + now apply list_lookup_insert_eq.
    + rewrite list_lookup_insert_ne by exact Hne.
      apply Inv; [exact Hr | congruence].
  - apply Inv; [exact Hr | congruence].
Qed.

Lemma superseded_aborted_step m (e : HookEvent T) :
  Spec.superseded_aborted m -> Spec.superseded_aborted (useAsyncMemo_step m e).
Proof.
  intros Inv. destruct e as [|r o|]; simpl.
  - intros r Hr Hlive. rewrite start_length in Hr. rewrite start_live in Hlive.
    assert (Hlt : r < List.length (controllers m))
      by (assert (r <> List.length (controllers m)) by congruence; lia).
    unfold start, effect. simpl.
    rewrite lookup_app_l by (rewrite cleanup_length; exact Hlt).
    apply superseded_aborted_cleanup; [exact Inv | | ].
    + rewrite cleanup_length. exact Hlt.
    + unfold cleanup. destruct (live m) eqn:El; simpl; congruence.
  - intros r' Hr Hlive.
    destruct (settle_controllers m r o) as [Ec El].
    rewrite Ec in *. rewrite El in Hlive. now apply Inv.
  - now apply superseded_aborted_cleanup.
Qed.

Lemma superseded_aborted_run (es : list (HookEvent T)) m :
  Spec.superseded_aborted m -> Spec.superseded_aborted (useAsyncMemo_run m es).
Proof.
  revert m. induction es as [|e es IH]; intros m Inv; simpl; [exact Inv|].
  apply IH, superseded_aborted_step, Inv.
Qed.
End AsyncMemo.

(** C3: request R1 is started, then request R2 is started before R1
    settles. Whatever R1 settles with and in whichever order the two settle,
    the value of the hook ends as the result of R2. In every state the hook
    can reach, the resolution of a request that is not the live one changes
    nothing. For [EventViewer], [filteredEvents] ends as the filter of the
    second request's arguments. *)
Theorem useAsyncMemo_last_requested_wins :
  (forall (T : Type) (m : EventViewer.AsyncMemo T)
          (o1 : EventViewer.Settled T) (v2 : T),
      let r1 := List.length (EventViewer.controllers m) in
      let r2 := S r1 in
      let m2 := EventViewer.start (EventViewer.start m) in
      EventViewer.value
        (EventViewer.settle r2 (EventViewer.Resolved v2)
           (EventViewer.settle r1 o1 m2)) = v2 /\
      EventViewer.value
        (EventViewer.settle r1 o1
           (EventViewer.settle r2 (EventViewer.Resolved v2) m2)) = v2) /\
  (forall (T : Type) (initialValue : T)
          (es : list (EventViewer.HookEvent T)) (r : nat) (next : T),
      let m := EventViewer.useAsyncMemo_run
                 (EventViewer.useAsyncMemo_init initialValue) es in
      r < List.length (EventViewer.controllers m) ->
      EventViewer.live m <> Some r ->
      EventViewer.settle r (EventViewer.Resolved next) m = m) /\
  (forall (m : EventViewer.AsyncMemo (list EventViewer.Event))
          (events1 events2 : list EventViewer.Event)
          (filter1 filter2 : EventViewer.FilterValue) (abortedInDelay : bool),
      let r1 := List.length (EventViewer.controllers m) in
      let r2 := S r1 in
      let m2 := EventViewer.start (EventViewer.start m) in
      let o1 := EventViewer.applyFilterAsync events1 filter1 abortedInDelay in
      let o2 := EventViewer.applyFilterAsync events2 filter2 false in
      EventViewer.value
        (EventViewer.settle r2 o2 (EventViewer.settle r1 o1 m2))
      = EventViewer.applyFilter events2 filter2 /\
      EventViewer.value
        (EventViewer.settle r1 o1 (EventViewer.settle r2 o2 m2))
      = EventViewer.applyFilter events2 filter2).
Proof.
  assert (Hrace : forall (T : Type) (m : EventViewer.AsyncMemo T)
      (o1 : EventViewer.Settled T) (v2 : T),
      let r1 := List.length (EventViewer.controllers m) in
      let r2 := S r1 in
      let m2 := EventViewer.start (EventViewer.start m) in
      EventViewer.value
        (EventViewer.settle r2 (EventViewer.Resolved v2)
           (EventViewer.settle r1 o1 m2)) = v2 /\
      EventViewer.value
        (EventViewer.settle r1 o1
           (EventViewer.settle r2 (EventViewer.Resolved v2) m2)) = v2).
  { intros T m o1 v2 r1 r2 m2.
    assert (H1 : EventViewer.aborted m2 r1 = true).
    { apply start_aborts_live; [apply start_live | rewrite start_length; lia]. }
    assert (H2 : EventViewer.aborted m2 r2 = false).
    { subst r2 r1 m2. rewrite <- (start_length m). apply start_fresh. }
    split.
    - apply settle_resolved_live. now rewrite aborted_settle.
    - rewrite settle_aborted_value by (now rewrite aborted_settle).
      now apply settle_resolved_live. }
  split; [exact Hrace|]. split.
  - intros T initialValue es r next m Hr Hlive.
    assert (Ha : EventViewer.aborted m r = true).
    { unfold EventViewer.aborted. subst m.
      rewrite (superseded_aborted_run es _
                 (superseded_aborted_init initialValue) r Hr Hlive).
      reflexivity. }
    now rewrite settle_aborted.
  - intros m events1 events2 filter1 filter2 abortedInDelay r1 r2 m2 o1 o2.
    apply Hrace.
Qed.

Lemma useAsyncMemo_last_requested_wins_witness :
  let m := EventViewer.useAsyncMemo_run (EventViewer.useAsyncMemo_init 0)
             [EventViewer.Start; EventViewer.Start] in
  EventViewer.settle 0 (EventViewer.Resolved 7) m = m.
Proof.
  intros m.
  apply (proj1 (proj2 useAsyncMemo_last_requested_wins) nat 0
           [EventViewer.Start; EventViewer.Start] 0 7).
  - vm_compute. lia.
  - vm_compute. discriminate.
Defined.

(** C8: when a request fails with anything but an abort, the failure
    becomes the [error] of the hook and its [value] stays what it was; the
    value also stays through the start of the next request and is replaced
    when that request resolves. A rejection that is an abort changes
    neither [value] nor [error]. *)
Theorem useAsyncMemo_failure_keeps_value :
  (forall (T : Type) (m : EventViewer.AsyncMemo T) (r : nat)
          (err : EventViewer.Thrown),
      EventViewer.isAbortError err = false ->
      let m' := EventViewer.settle r (EventViewer.Rejected err) m in
      EventViewer.error m' = Some err /\
      EventViewer.value m' = EventViewer.value m /\
      EventViewer.value (EventViewer.start m') = EventViewer.value m /\
      forall next : T,
        EventViewer.value
          (EventViewer.settle (List.length (EventViewer.controllers m'))
             (EventViewer.Resolved next) (EventViewer.start m')) = next) /\
  (forall (T : Type) (m : EventViewer.AsyncMemo T) (r : nat)
          (err : EventViewer.Thrown),
      EventViewer.isAbortError err = true ->
      let m' := EventViewer.settle r (EventViewer.Rejected err) m in
      EventViewer.error m' = EventViewer.error m /\
      EventViewer.value m' = EventViewer.value m).
Proof.
  split.
  - intros T m r err Herr m'.
    assert (Hm' : EventViewer.error m' = Some err /\
                  EventViewer.value m' = EventViewer.value m).
    { subst m'. unfold EventViewer.settle. rewrite Herr. simpl.
      destruct (negb _); split; reflexivity. }
    destruct Hm' as [He Hv]. split; [exact He|]. split; [exact Hv|]. split.
    + now rewrite start_value.
    + intros next. apply settle_resolved_live, start_fresh.
  - intros T m r err Herr m'. subst m'. unfold EventViewer.settle.
    rewrite Herr. simpl. destruct (negb _); split; reflexivity.
Qed.

Lemma useAsyncMemo_failure_keeps_value_witness :
  let m := EventViewer.start (EventViewer.useAsyncMemo_init [Samples.event1]) in
  (let m' := EventViewer.settle 0
               (EventViewer.Rejected (EventViewer.OtherError "boom")) m in
   EventViewer.error m' = Some (EventViewer.OtherError "boom") /\
   EventViewer.value m' = EventViewer.value m /\
   EventViewer.value (EventViewer.start m') = EventViewer.value m /\
   forall next : list EventViewer.Event,
     EventViewer.value
       (EventViewer.settle (List.length (EventViewer.controllers m'))
          (EventViewer.Resolved next) (EventViewer.start m')) = next) /\
  (let m' := EventViewer.settle 0
               (EventViewer.Rejected
                  (EventViewer.DOMException "AbortError" "Aborted")) m in
   EventViewer.error m' = EventViewer.error m /\
   EventViewer.value m' = EventViewer.value m).
Proof.
  intros m. split.
  - apply (proj1 useAsyncMemo_failure_keeps_value). reflexivity.
  - apply (proj2 useAsyncMemo_failure_keeps_value). reflexivity.
Defined.

(** ** Ingestion: the socket handler and the latest-callback ref *)
Section Ingestion.
Import EventViewer.
Variable JSON_parse : string -> Completion Event.
Variable throws : Callback -> Event -> bool.
Implicit Types c : Component.

Lemma onmessage_parsed (data : string) (event : Event) c :
  JSON_parse data = Normal event ->
  onmessage JSON_parse throws data c = (Normal tt, Spec.ingested event c).
Proof.
  intros Hp. unfold onmessage, tryCatch, bind, lift, setEvents_append,
    invoke_current, invoke, ret, Spec.ingested.
  rewrite Hp. simpl.
  destruct (onEventReceivedRef c) as [cb|]; simpl.
  - destruct (throws cb event); reflexivity.
  - rewrite app_nil_r. reflexivity.
Qed.

Lemma onmessage_malformed (data : string) (e : Thrown) c :
  JSON_parse data = Throw e ->
  onmessage JSON_parse throws data c = (Normal tt, c).
Proof.
  intros Hp. unfold onmessage, tryCatch, bind, lift. now rewrite Hp.
Qed.

Lemma onmessage_returns (data : string) c :
  fst (onmessage JSON_parse throws data c) = Normal tt.
Proof.
  destruct (JSON_parse data) as [event|e] eqn:Hp.
  - now rewrite (onmessage_parsed data event).
  - now rewrite (onmessage_malformed data e).
Qed.

Lemma ref_is_latest_mount (cb : option Callback) (started : bool) :
  Spec.ref_is_latest (mount cb started).
Proof. split; reflexivity. Qed.

Lemma ref_is_latest_rerender (cb : option Callback) (started : bool) c :
  Spec.ref_is_latest c ->
  Spec.ref_is_latest (rerender cb started c) /\
  onEventReceived (rerender cb started c) = cb /\
  mockStarted (rerender cb started c) = started.
Proof.
  intros [Href Hws]. unfold rerender, socket_effect, useLatestRef_effect.
  simpl. destruct (decide (onEventReceived c = cb)) as [Hcb|Hne]; simpl;
    (destruct (Bool.eqb (mockStarted c) started) eqn:Es;
     [apply Bool.eqb_prop in Es|]); simpl; repeat split; simpl; congruence.
Qed.

Lemma ref_is_latest_react (r : Reaction) c :
  Spec.ref_is_latest c -> Spec.ref_is_latest (react JSON_parse throws c r).
Proof.
  intros Inv. destruct r as [cb started| | |data]; simpl.
  - now apply ref_is_latest_rerender.
  - unfold opened. now destruct (ws_handlers c).
  - unfold closed. now destruct (ws_handlers c).
  - unfold dispatch. destruct (ws_handlers c) eqn:Hh; [|exact Inv].
    destruct (JSON_parse data) as [event|e] eqn:Hp.
    + rewrite (onmessage_parsed data event) by exact Hp. exact Inv.
    + rewrite (onmessage_malformed data e) by exact Hp. exact Inv.
Qed.

Lemma ref_is_latest_reactAll (rs : list Reaction) c :
  Spec.ref_is_latest c -> Spec.ref_is_latest (reactAll JSON_parse throws c rs).
Proof.
  revert c. induction rs as [|r rs IH]; intros c Inv; simpl; [exact Inv|].
  apply IH, ref_is_latest_react, Inv.
Qed.

Lemma notified_once_react (r : Reaction) c :
  Spec.supplies_callback r -> Spec.ref_is_latest c -> Spec.notified_once c ->
  Spec.notified_once (react JSON_parse throws c r).
Proof.
  intros Hr Inv [Hrec Hcb]. destruct r as [cb started| | |data]; simpl.
  - destruct (ref_is_latest_rerender cb started c Inv) as [[Href _] [Hnew _]].
    split.
    + unfold rerender, socket_effect, useLatestRef_effect. simpl.
      destruct (decide (onEventReceived c = cb)); simpl;
        destruct (Bool.eqb (mockStarted c) started); exact Hrec.
    + rewrite Href, Hnew. destruct cb; [discriminate | contradiction].
  - unfold opened. destruct (ws_handlers c); split; assumption.
  - unfold closed. destruct (ws_handlers c); split; assumption.
  - unfold dispatch. destruct (ws_handlers c); [|split; assumption].
    destruct (JSON_parse data) as [event|e] eqn:Hp.
    + rewrite (onmessage_parsed data event) by exact Hp.
      unfold Spec.notified_once, Spec.ingested. simpl.
      destruct (onEventReceivedRef c) as [cb|]; [|contradiction].
      rewrite map_app, Hrec. split; [reflexivity | discriminate].
    + rewrite (onmessage_malformed data e) by exact Hp. split; assumption.
Qed.

Lemma notified_once_reactAll (rs : list Reaction) c :
  List.Forall Spec.supplies_callback rs ->
  Spec.ref_is_latest c -> Spec.notified_once c ->
  Spec.notified_once (reactAll JSON_parse throws c rs).
Proof.
  revert c. induction rs as [|r rs IH]; intros c Hrs Inv Hn; simpl;
    [exact Hn|].
  inversion Hrs as [|r' rs' Hr Hrs']; subst.
  apply IH; [exact Hrs' | apply ref_is_latest_react, Inv |].
  apply notified_once_react; assumption.
Qed.
End Ingestion.

(** C5: a well-formed message received while the socket is listening
    appends its record once and invokes once the callback that the ref
    holds, if there is one. In every state the component can reach, the ref
    holds the callback of the last render; so after the consumer has
    replaced its callback by [cb], whatever happened before, the next
    record is appended once and [cb] is invoked once with it, and no other
    callback is. As long as the consumer supplies a callback, the sequence
    of callback arguments is the buffer itself: one invocation per record
    taken in, in order. *)
Theorem onmessage_invokes_latest_callback :
  forall (JSON_parse : string -> EventViewer.Completion EventViewer.Event)
         (throws : EventViewer.Callback -> EventViewer.Event -> bool),
    (forall (c : EventViewer.Component) (data : string)
            (event : EventViewer.Event),
        EventViewer.ws_handlers c = true ->
        JSON_parse data = EventViewer.Normal event ->
        let c' := EventViewer.react JSON_parse throws c
                    (EventViewer.Message data) in
        EventViewer.events c' = (EventViewer.events c ++ [event])%list /\
        EventViewer.received c'
        = (EventViewer.received c ++
           match EventViewer.onEventReceivedRef c with
           | Some cb => [(cb, event)]
           | None => []
           end)%list) /\
    (forall (cb0 : option EventViewer.Callback) (started0 : bool)
            (rs : list EventViewer.Reaction),
        let c := EventViewer.reactAll JSON_parse throws
                   (EventViewer.mount cb0 started0) rs in
        EventViewer.onEventReceivedRef c = EventViewer.onEventReceived c) /\
    (forall (cb0 : option EventViewer.Callback) (started0 : bool)
            (rs : list EventViewer.Reaction) (cb : EventViewer.Callback)
            (data : string) (event : EventViewer.Event),
        JSON_parse data = EventViewer.Normal event ->
        let c := EventViewer.reactAll JSON_parse throws
                   (EventViewer.mount cb0 started0)
                   (rs ++ [EventViewer.Rerender (Some cb) true]) in
        let c' := EventViewer.react JSON_parse throws c
                    (EventViewer.Message data) in
        EventViewer.events c' = (EventViewer.events c ++ [event])%list /\
        EventViewer.received c'
        = (EventViewer.received c ++ [(cb, event)])%list) /\
    (forall (cb0 : EventViewer.Callback) (started0 : bool)
            (rs : list EventViewer.Reaction),
        List.Forall Spec.supplies_callback rs ->
        let c := EventViewer.reactAll JSON_parse throws
                   (EventViewer.mount (Some cb0) started0) rs in
        map snd (EventViewer.received c) = EventViewer.events c).
Proof.
  intros JSON_parse throws.
  assert (Hstep : forall (c : EventViewer.Component) (data : string)
            (event : EventViewer.Event),
        EventViewer.ws_handlers c = true ->
        JSON_parse data = EventViewer.Normal event ->
        EventViewer.react JSON_parse throws c (EventViewer.Message data)
        = Spec.ingested event c).
  { intros c data event Hh Hp. simpl. unfold EventViewer.dispatch.
    rewrite Hh, (onmessage_parsed JSON_parse throws data event) by exact Hp.
    reflexivity. }
  split; [|split; [|split]].
  - intros c data event Hh Hp c'. subst c'.
    rewrite (Hstep c data event Hh Hp). split; reflexivity.
  - intros cb0 started0 rs c.
    apply (ref_is_latest_reactAll JSON_parse throws rs), ref_is_latest_mount.
  - intros cb0 started0 rs cb data event Hp c c'.
    assert (Hc : EventViewer.onEventReceivedRef c = Some cb /\
                 EventViewer.ws_handlers c = true).
    { subst c. unfold EventViewer.reactAll. rewrite fold_left_app. simpl.
      destruct (ref_is_latest_rerender (Some cb) true
                  (fold_left (EventViewer.react JSON_parse throws) rs
                     (EventViewer.mount cb0 started0)))
        as [[Href Hws] [Hcb Hst]].
      - apply (ref_is_latest_reactAll JSON_parse throws rs),
          ref_is_latest_mount.
      - split; congruence. }
    destruct Hc as [Href Hh]. subst c'.
    rewrite (Hstep c data event Hh Hp). unfold Spec.ingested. simpl.
    rewrite Href. split; reflexivity.
  - intros cb0 started0 rs Hrs c.
    apply (notified_once_reactAll JSON_parse throws rs); [exact Hrs | |].
    + apply ref_is_latest_mount.
    + split; [reflexivity | discriminate].
Qed.

Lemma onmessage_invokes_latest_callback_witness :
  let c := EventViewer.reactAll Samples.parse Samples.quiet
             (EventViewer.mount (Some 1) true)
             ([EventViewer.Opened; EventViewer.Message "evt-1"]
              ++ [EventViewer.Rerender (Some 2) true]) in
  let c' := EventViewer.react Samples.parse Samples.quiet c
              (EventViewer.Message "evt-1") in
  EventViewer.events c' = (EventViewer.events c ++ [Samples.event1])%list /\
  EventViewer.received c'
  = (EventViewer.received c ++ [(2, Samples.event1)])%list.
Proof.
  apply (proj1 (proj2 (proj2 (onmessage_invokes_latest_callback
                                Samples.parse Samples.quiet)))
           (Some 1) true [EventViewer.Opened; EventViewer.Message "evt-1"]
           2 "evt-1" Samples.event1).
  reflexivity.
Defined.

(** ** Ingestion without the type annotation *)
Section UntypedIngestion.
Context {V : Type}.
Variable JSON_parse : string -> EventViewer.Completion V.
Variable throws : EventViewer.Callback -> V -> bool.
Implicit Types c : Untyped.Component V.

Lemma untyped_onmessage_parsed (data : string) (v : V) c :
  JSON_parse data = EventViewer.Normal v ->
  Untyped.onmessage JSON_parse throws data c
  = (EventViewer.Normal tt,
     {| Untyped.events := (Untyped.events c ++ [v])%list;
        Untyped.onEventReceivedRef := Untyped.onEventReceivedRef c;
        Untyped.ws_handlers := Untyped.ws_handlers c;
        Untyped.received :=
          (Untyped.received c ++
           match Untyped.onEventReceivedRef c with
           | Some cb => [(cb, v)]
           | None => []
           end)%list |}).
Proof.
  intros Hp. unfold Untyped.onmessage, Untyped.tryCatch, Untyped.bind,
    Untyped.lift, Untyped.setEvents_append, Untyped.invoke_current,
    Untyped.invoke, Untyped.ret.
  rewrite Hp. simpl.
  destruct (Untyped.onEventReceivedRef c) as [cb|]; simpl.
  - destruct (throws cb v); reflexivity.
  - rewrite app_nil_r. reflexivity.
Qed.

Lemma untyped_onmessage_thrown (data : string) (e : EventViewer.Thrown) c :
  JSON_parse data = EventViewer.Throw e ->
  Untyped.onmessage JSON_parse throws data c = (EventViewer.Normal tt, c).
Proof.
  intros Hp. unfold Untyped.onmessage, Untyped.tryCatch, Untyped.bind,
    Untyped.lift. now rewrite Hp.
Qed.
End UntypedIngestion.

(** On the payloads that parse to a record, the handler of the component
    is the handler without the type annotation. *)
Lemma onmessage_untyped
    (JSON_parse : string -> EventViewer.Completion EventViewer.Event)
    (throws : EventViewer.Callback -> EventViewer.Event -> bool)
    (data : string) (c : EventViewer.Component) :
  Untyped.onmessage JSON_parse throws data (Untyped.untyped c)
  = (fst (EventViewer.onmessage JSON_parse throws data c),
     Untyped.untyped (snd (EventViewer.onmessage JSON_parse throws data c))).
Proof.
  destruct (JSON_parse data) as [event|e] eqn:Hp.
  - rewrite (untyped_onmessage_parsed JSON_parse throws data event) by exact Hp.
    rewrite (onmessage_parsed JSON_parse throws data event) by exact Hp.
    reflexivity.
  - rewrite (untyped_onmessage_thrown JSON_parse throws data e) by exact Hp.
    rewrite (onmessage_malformed JSON_parse throws data e) by exact Hp.
    reflexivity.
Qed.

Lemma asEvent_ofEvent (e : EventViewer.Event) :
  Payloads.asEvent (Payloads.ofEvent e) = Some e.
Proof. destruct e as [i [] t m]; reflexivity. Qed.

(** C9, as the code has it: a message whose payload is not JSON, so that
    [JSON.parse] throws, leaves the whole component as it was: no value is
    appended and no callback is invoked. The handler never lets an
    exception out, whatever the payload and the callback do. Every payload
    that [JSON.parse] accepts is appended and passed to the callback that
    the ref holds, whatever value it parses to: the handler has no test of
    the shape, so null, a number or an object without the fields of a
    record is taken in like a record. *)
Theorem onmessage_swallows_invalid_JSON :
  forall (V : Type) (JSON_parse : string -> EventViewer.Completion V)
         (throws : EventViewer.Callback -> V -> bool)
         (c : Untyped.Component V) (data : string),
    (forall e : EventViewer.Thrown,
        JSON_parse data = EventViewer.Throw e ->
        Untyped.onmessage JSON_parse throws data c
        = (EventViewer.Normal tt, c) /\
        Untyped.dispatch JSON_parse throws data c
        = (EventViewer.Normal tt, c)) /\
    fst (Untyped.onmessage JSON_parse throws data c) = EventViewer.Normal tt /\
    (forall v : V,
        JSON_parse data = EventViewer.Normal v ->
        let c' := snd (Untyped.onmessage JSON_parse throws data c) in
        Untyped.events c' = (Untyped.events c ++ [v])%list /\
        Untyped.received c'
        = (Untyped.received c ++
           match Untyped.onEventReceivedRef c with
           | Some cb => [(cb, v)]
           | None => []
           end)%list).
Proof.
  intros V JSON_parse throws c data. split; [|split].
  - intros e Hp. unfold Untyped.dispatch.
    rewrite (untyped_onmessage_thrown JSON_parse throws data e) by exact Hp.
    split; [reflexivity | now destruct (Untyped.ws_handlers c)].
  - destruct (JSON_parse data) as [v|e] eqn:Hp.
    + now rewrite (untyped_onmessage_parsed JSON_parse throws data v).
    + now rewrite (untyped_onmessage_thrown JSON_parse throws data e).
  - intros v Hp c'. subst c'.
    rewrite (untyped_onmessage_parsed JSON_parse throws data v) by exact Hp.
    split; reflexivity.
Qed.

Lemma onmessage_swallows_invalid_JSON_witness :
  let c := Payloads.listening in
  (Untyped.onmessage Payloads.JSON_parse Payloads.quiet "not json" c
   = (EventViewer.Normal tt, c) /\
   Untyped.dispatch Payloads.JSON_parse Payloads.quiet "not json" c
   = (EventViewer.Normal tt, c)) /\
  (let c' := snd (Untyped.onmessage Payloads.JSON_parse Payloads.quiet
                    "evt-1" c) in
   Untyped.events c'
   = (Untyped.events c ++ [Payloads.ofEvent Samples.event1])%list /\
   Untyped.received c'
   = (Untyped.received c ++ [(1, Payloads.ofEvent Samples.event1)])%list) /\
  (let c' := snd (Untyped.onmessage Payloads.JSON_parse Payloads.quiet
                    "42" c) in
   Untyped.events c' = (Untyped.events c ++ [Payloads.JNumber 42])%list /\
   Untyped.received c'
   = (Untyped.received c ++ [(1, Payloads.JNumber 42)])%list).
Proof.
  intros c. split; [|split].
  - apply (proj1 (onmessage_swallows_invalid_JSON Payloads.JSONValue
                    Payloads.JSON_parse Payloads.quiet c "not json")
             (EventViewer.SyntaxError "Unexpected token")).
    reflexivity.
  - apply (proj2 (proj2 (onmessage_swallows_invalid_JSON Payloads.JSONValue
                           Payloads.JSON_parse Payloads.quiet c "evt-1"))
             (Payloads.ofEvent Samples.event1)).
    reflexivity.
  - apply (proj2 (proj2 (onmessage_swallows_invalid_JSON Payloads.JSONValue
                           Payloads.JSON_parse Payloads.quiet c "42"))
             (Payloads.JNumber 42)).
    reflexivity.
Defined.

(** C9 as the specification states it fails: the payload null is JSON
    but does not parse as a record, and the handler appends the value
    null to the buffer and invokes the callback with it. *)
Lemma onmessage_takes_in_null :
  Payloads.failsToParseAsRecord Payloads.JSON_parse "null" /\
  (let c' := snd (Untyped.onmessage Payloads.JSON_parse Payloads.quiet "null"
                    Payloads.listening) in
   Untyped.events c' = [Payloads.JNull] /\
   Untyped.received c' = [(1, Payloads.JNull)]) /\
  ~ Payloads.malformed_swallowed Payloads.JSON_parse Payloads.quiet.
Proof.
  split; [reflexivity|]. split; [split; reflexivity|].
  intros H.
  destruct (H "null" Payloads.listening) as [Hev _]; [reflexivity|].
  discriminate Hev.
Qed.

(* ===================================================================== *)
(** * Part III: further properties of the code *)
(* ===================================================================== *)

(** ** More on strings *)
Section StringsMore.
Import JS.

Lemma string_app_assoc (a b c : string) : (a ++ b) ++ c = a ++ (b ++ c).
Proof.
  induction a as [|x a IH]; [reflexivity|].
  change (String x ((a ++ b) ++ c) = String x (a ++ b ++ c)). now f_equal.
Qed.

Lemma string_app_empty (a b : string) : a ++ b = "" -> a = "" /\ b = "".
Proof. destruct a; [intros H; split; [reflexivity | exact H] | discriminate]. Qed.

Lemma contains_trans (s q' q : string) :
  Spec.contains s q' -> Spec.contains q' q -> Spec.contains s q.
Proof.
  intros [a [b ->]] [c [d ->]]. exists (a ++ c), (d ++ b).
  now rewrite !string_app_assoc.
Qed.

Lemma contains_empty (q : string) : Spec.contains "" q -> q = "".
Proof.
  intros [a [b H]]. symmetry in H.
  apply string_app_empty in H as [_ H]. now apply string_app_empty in H.
Qed.

Lemma isWhiteSpace_lowerChar (c : ascii) :
  isWhiteSpace (lowerChar c) = isWhiteSpace c.
Proof. destruct c as [[] [] [] [] [] [] [] []]; reflexivity. Qed.

Lemma trimStart_toLowerCase (s : string) :
  trimStart (toLowerCase s) = toLowerCase (trimStart s).
Proof.
  induction s as [|c s IH]; simpl; [reflexivity|].
  rewrite isWhiteSpace_lowerChar. now destruct (isWhiteSpace c).
Qed.

Lemma trimEnd_toLowerCase (s : string) :
  trimEnd (toLowerCase s) = toLowerCase (trimEnd s).
Proof.
  induction s as [|c s IH]; simpl; [reflexivity|].
  rewrite IH, isWhiteSpace_lowerChar.
  destruct (trimEnd s); simpl; [now destruct (isWhiteSpace c) | reflexivity].
Qed.

Lemma trim_toLowerCase (s : string) :
  trim (toLowerCase s) = toLowerCase (trim s).
Proof. unfold trim. now rewrite trimStart_toLowerCase, trimEnd_toLowerCase. Qed.
End StringsMore.

(** ** clamp *)

(** X1: [clamp] on JavaScript numbers. The result is [NaN] exactly when
    one of the three arguments is [NaN]: then it is within no bounds. For
    ordered arguments with the bounds in order, the result lies within
    the bounds and is the argument itself exactly when the argument is
    within them; with the bounds out of order it is the lower bound
    argument. The order is any total order, so the infinities and
    fractions are covered. *)
Theorem clamp_within_bounds :
  forall (R : Type) (leb : R -> R -> bool),
    (forall x y : R, leb x y = true \/ leb y x = true) ->
    (forall x y z : R, leb x y = true -> leb y z = true -> leb x z = true) ->
    (forall x y : R, leb x y = true -> leb y x = true -> x = y) ->
    (forall n lo hi : ViewerRest.Number R,
        ViewerRest.clamp leb n lo hi = ViewerRest.NaN
        <-> n = ViewerRest.NaN \/ lo = ViewerRest.NaN \/ hi = ViewerRest.NaN) /\
    (forall n lo hi : R,
        leb lo hi = true ->
        exists r : R,
          ViewerRest.clamp leb (ViewerRest.Num n) (ViewerRest.Num lo)
            (ViewerRest.Num hi) = ViewerRest.Num r /\
          leb lo r = true /\ leb r hi = true /\
          (r = n <-> leb lo n = true /\ leb n hi = true)) /\
    (forall n lo hi : R,
        leb lo hi = false ->
        ViewerRest.clamp leb (ViewerRest.Num n) (ViewerRest.Num lo)
          (ViewerRest.Num hi) = ViewerRest.Num lo).
Proof.
  intros R leb Htotal Htrans Hanti.
  assert (Hrefl : forall x, leb x x = true)
    by (intros x; destruct (Htotal x x); assumption).
  unfold ViewerRest.clamp, ViewerRest.Math_max, ViewerRest.Math_min.
  split; [|split].
  - intros [|n] [|lo] [|hi]; split; intros H; try tauto; try discriminate.
    + destruct (leb hi n); destruct (leb lo _); discriminate.
    + destruct H as [H|[H|H]]; discriminate.
  - intros n lo hi Hlh. destruct (leb hi n) eqn:Ehn.
    + rewrite Hlh. exists hi. split; [reflexivity|].
      split; [exact Hlh|]. split; [apply Hrefl|]. split.
      * intros <-. split; [exact Hlh | apply Hrefl].
      * intros [_ Hnh]. now apply Hanti.
    + assert (Hnh : leb n hi = true)
        by (destruct (Htotal n hi) as [H|H]; [exact H | congruence]).
      destruct (leb lo n) eqn:Eln.
      * exists n. split; [reflexivity|]. split; [exact Eln|].
        split; [exact Hnh|]. split; [intros _; split; auto | reflexivity].
      * exists lo. split; [reflexivity|]. split; [apply Hrefl|].
        split; [exact Hlh|]. split.
        -- intros ->. rewrite Hrefl in Eln. discriminate.
        -- intros [H _]. congruence.
  - intros n lo hi Hlh. destruct (leb hi n) eqn:Ehn.
    + now rewrite Hlh.
    + assert (Hnh : leb n hi = true)
        by (destruct (Htotal n hi) as [H|H]; [exact H | congruence]).
      destruct (leb lo n) eqn:Eln; [|reflexivity].
      rewrite (Htrans lo n hi Eln Hnh) in Hlh. discriminate.
Qed.

Lemma clamp_within_bounds_witness :
  (ViewerRest.clamp Z.leb ViewerRest.NaN (ViewerRest.Num 0%Z)
     (ViewerRest.Num 10%Z) = ViewerRest.NaN
   <-> @ViewerRest.NaN Z = ViewerRest.NaN \/
       ViewerRest.Num 0%Z = ViewerRest.NaN \/
       ViewerRest.Num 10%Z = ViewerRest.NaN) /\
  (exists r : Z,
      ViewerRest.clamp Z.leb (ViewerRest.Num 700%Z) (ViewerRest.Num 0%Z)
        (ViewerRest.Num 520%Z) = ViewerRest.Num r /\
      (0 <=? r)%Z = true /\ (r <=? 520)%Z = true /\
      (r = 700%Z <-> (0 <=? 700)%Z = true /\ (700 <=? 520)%Z = true)) /\
  ViewerRest.clamp Z.leb (ViewerRest.Num 7%Z) (ViewerRest.Num 10%Z)
    (ViewerRest.Num 3%Z) = ViewerRest.Num 10%Z.
Proof.
  assert (Htotal : forall x y : Z, (x <=? y)%Z = true \/ (y <=? x)%Z = true)
    by (intros x y; rewrite !Z.leb_le; lia).
  assert (Htrans : forall x y z : Z,
             (x <=? y)%Z = true -> (y <=? z)%Z = true -> (x <=? z)%Z = true)
    by (intros x y z; rewrite !Z.leb_le; lia).
  assert (Hanti : forall x y : Z,
             (x <=? y)%Z = true -> (y <=? x)%Z = true -> x = y)
    by (intros x y; rewrite !Z.leb_le; lia).
  destruct (clamp_within_bounds Z Z.leb Htotal Htrans Hanti) as [Hnan [Hin Hout]].
  split; [apply Hnan|]. split; [apply Hin | apply Hout]; reflexivity.
Defined.

(** ** Rows and counts *)
Section Rows.
Import LogStreamViewer ViewerRest.

Lemma pushed_enabled (e : EnabledLevels) (q : string) (u : bool)
    (log : LogEntry) :
  pushed e q u log = true -> get e (level log) = true.
Proof. unfold pushed. destruct (get e (level log)); [reflexivity | discriminate]. Qed.

Lemma pushedFrom_length (e : EnabledLevels) (q : string) (u : bool)
    (rest : list LogEntry) (i : nat) :
  List.length (pushedFrom e q u rest i) <= List.length rest.
Proof.
  revert i. induction rest as [|log rest IH]; intros i; simpl; [lia|].
  destruct (pushed e q u log); simpl; specialize (IH (S i)); lia.
Qed.

Lemma filteredIndices_length (logs : list LogEntry) (e : EnabledLevels)
    (q : string) :
  List.length (filteredIndices logs e q) <= List.length logs.
Proof.
  unfold filteredIndices. rewrite filteredIndices_loop_pushedFrom, app_nil_l.
  apply pushedFrom_length.
Qed.

Lemma pushedFrom_all (rest : list LogEntry) (i : nat) :
  pushedFrom allLevels "" false rest i = seq i (List.length rest).
Proof.
  revert i. induction rest as [|log rest IH]; intros i; simpl; [reflexivity|].
  unfold pushed. destruct (level log); simpl; now rewrite IH.
Qed.

Lemma sorted_lookup_lt (l : list nat) (i j a b : nat) :
  StronglySorted lt l -> i < j -> l !! i = Some a -> l !! j = Some b -> a < b.
Proof.
  intros Hs. revert i j. induction Hs as [|x l Hs IH Hall]; intros i j Hij Hi Hj.
  - discriminate.
  - destruct j as [|j]; [lia|]. simpl in Hj. destruct i as [|i].
    + simpl in Hi. injection Hi as <-.
      rewrite List.Forall_forall in Hall. apply Hall.
      apply list_elem_of_In. eapply list_elem_of_lookup_2, Hj.
    + simpl in Hi. apply (IH i j); [lia | exact Hi | exact Hj].
Qed.
End Rows.

(** X2: every row that the list is asked to render exists: for a row index
    below the item count, [LogRow] finds a record of the buffer, at the
    position that the visible index set gives, and its level is enabled;
    at or beyond the item count there is no row. Rows follow the order of
    the buffer: a later row shows a later record. *)
Theorem LogRow_reads_a_record :
  forall (v : LogStreamViewer.Viewer) (index : nat),
    ((Z.of_nat index < LogStreamViewer.itemCount v)%Z ->
     exists (realIndex : nat) (log : LogStreamViewer.LogEntry),
       ViewerRest.row_filteredIndices (ViewerRest.itemData v) !! index
       = Some realIndex /\
       LogStreamViewer.logs v !! realIndex = Some log /\
       ViewerRest.LogRow_log (ViewerRest.itemData v) index = Some log /\
       LogStreamViewer.get (LogStreamViewer.enabledLevels v)
         (LogStreamViewer.level log) = true) /\
    ((LogStreamViewer.itemCount v <= Z.of_nat index)%Z ->
     ViewerRest.LogRow_log (ViewerRest.itemData v) index = None) /\
    (forall (index' a b : nat),
        index < index' ->
        ViewerRest.row_filteredIndices (ViewerRest.itemData v) !! index
        = Some a ->
        ViewerRest.row_filteredIndices (ViewerRest.itemData v) !! index'
        = Some b ->
        a < b).
Proof.
  intros v index. unfold LogStreamViewer.itemCount, ViewerRest.LogRow_log,
    ViewerRest.itemData. cbn [ViewerRest.row_filteredIndices ViewerRest.row_logs].
  split; [|split].
  - intros Hlt.
    destruct (lookup_lt_is_Some_2
                (LogStreamViewer.visibleIndices (LogStreamViewer.logs v)
                   (LogStreamViewer.enabledLevels v)
                   (LogStreamViewer.debouncedSearch v)) index)
      as [realIndex Hr]; [lia|].
    assert (Hin : In realIndex
              (LogStreamViewer.visibleIndices (LogStreamViewer.logs v)
                 (LogStreamViewer.enabledLevels v)
                 (LogStreamViewer.debouncedSearch v))).
    { apply list_elem_of_In. eapply list_elem_of_lookup_2, Hr. }
    apply filteredIndices_In in Hin as [log [Hlog Hp]].
    exists realIndex, log. rewrite Hr.
    repeat split; try assumption. eapply pushed_enabled, Hp.
  - intros Hge. rewrite lookup_ge_None_2; [reflexivity | lia].
  - intros index' a b Hlt Ha Hb.
    eapply sorted_lookup_lt; [apply filteredIndices_sorted | exact Hlt | |];
      eassumption.
Qed.

Lemma LogRow_reads_a_record_witness :
  let v := Samples.viewer 30 true true 200 in
  (exists (realIndex : nat) (log : LogStreamViewer.LogEntry),
      ViewerRest.row_filteredIndices (ViewerRest.itemData v) !! 29
      = Some realIndex /\
      LogStreamViewer.logs v !! realIndex = Some log /\
      ViewerRest.LogRow_log (ViewerRest.itemData v) 29 = Some log /\
      LogStreamViewer.get (LogStreamViewer.enabledLevels v)
        (LogStreamViewer.level log) = true) /\
  ViewerRest.LogRow_log (ViewerRest.itemData v) 30 = None /\
  3 < 7.
Proof.
  intros v. split; [|split].
  - apply (proj1 (LogRow_reads_a_record v 29)). vm_compute. reflexivity.
  - apply (proj1 (proj2 (LogRow_reads_a_record v 30))). vm_compute. discriminate.
  - apply (proj2 (proj2 (LogRow_reads_a_record v 3)) 7 3 7);
      [lia | reflexivity | reflexivity].
Defined.

(** X3: the viewer never shows more rows than the buffer holds, and with
    every level enabled and a search box that is empty or holds only white
    space it shows every record, in buffer order. *)
Theorem shownCount_at_most_totalCount :
  (forall v : LogStreamViewer.Viewer,
      (0 <= ViewerRest.shownCount v <= ViewerRest.totalCount v)%Z) /\
  (forall (logs : list LogStreamViewer.LogEntry) (search : string),
      Spec.whitespaceOnly search = true ->
      LogStreamViewer.visibleIndices logs LogStreamViewer.allLevels search
      = seq 0 (List.length logs)).
Proof.
  split.
  - intros v. unfold ViewerRest.shownCount, ViewerRest.totalCount,
      LogStreamViewer.itemCount, LogStreamViewer.visibleIndices.
    pose proof (filteredIndices_length (LogStreamViewer.logs v)
                  (LogStreamViewer.enabledLevels v)
                  (LogStreamViewer.debouncedSearchLc
                     (LogStreamViewer.debouncedSearch v))).
    lia.
  - intros logs search Hws.
    unfold LogStreamViewer.visibleIndices, LogStreamViewer.debouncedSearchLc.
    rewrite trim_whitespaceOnly by exact Hws.
    unfold LogStreamViewer.filteredIndices. simpl.
    rewrite filteredIndices_loop_pushedFrom, app_nil_l.
    apply pushedFrom_all.
Qed.

Lemma shownCount_at_most_totalCount_witness :
  LogStreamViewer.visibleIndices Samples.five LogStreamViewer.allLevels "  "
  = seq 0 (List.length Samples.five).
Proof.
  apply (proj2 shownCount_at_most_totalCount). reflexivity.
Defined.

(** ** Level toggles and the query *)
Section Toggles.
Import LogStreamViewer ViewerRest.

Lemma get_set (e : EnabledLevels) (l l' : LogLevel) (b : bool) :
  get (set e l b) l' = if decide (l = l') then b else get e l'.
Proof. destruct l, l'; reflexivity. Qed.

Lemma pushed_set_false (e : EnabledLevels) (l : LogLevel) (q : string)
    (u : bool) (log : LogEntry) :
  pushed (set e l false) q u log = true
  <-> pushed e q u log = true /\ level log <> l.
Proof.
  unfold pushed. rewrite get_set.
  destruct (decide (l = level log)) as [->|Hne]; simpl.
  - split; [discriminate | intros [_ H]; contradiction].
  - split; [intros H; split; [exact H | congruence] | tauto].
Qed.

Lemma pushed_narrow (e : EnabledLevels) (q q' : string) (log : LogEntry) :
  Spec.contains q' q ->
  pushed e q' (0 <? String.length q')%nat log = true ->
  pushed e q (0 <? String.length q)%nat log = true.
Proof.
  intros Hc. unfold pushed.
  destruct (get e (level log)); simpl; [|discriminate].
  destruct q as [|c q]; [reflexivity|].
  destruct q' as [|c' q']; [apply contains_empty in Hc; discriminate|].
  simpl.
  destruct (JS.includes (_lc log) (String c' q')) eqn:E'; [|discriminate].
  intros _. apply includes_spec in E'.
  assert (E : JS.includes (_lc log) (String c q) = true).
  { apply includes_spec. eapply contains_trans; eassumption. }
  now rewrite E.
Qed.
End Toggles.

(** X4: a level toggle changes the flag of its level and no other; and
    unchecking a level removes from the view exactly the records of that
    level: a position is visible afterwards iff it was visible before and
    its record has another level. *)
Theorem unchecked_level_is_hidden :
  (forall (e : LogStreamViewer.EnabledLevels) (l l' : LogStreamViewer.LogLevel)
          (checked : bool),
      LogStreamViewer.get (LogStreamViewer.set e l checked) l'
      = if decide (l = l') then checked else LogStreamViewer.get e l') /\
  (forall (logs : list LogStreamViewer.LogEntry)
          (e : LogStreamViewer.EnabledLevels) (l : LogStreamViewer.LogLevel)
          (search : string) (i : nat),
      In i (LogStreamViewer.visibleIndices logs
              (LogStreamViewer.set e l false) search)
      <-> In i (LogStreamViewer.visibleIndices logs e search) /\
          exists log, logs !! i = Some log /\ LogStreamViewer.level log <> l).
Proof.
  split; [intros; apply get_set|].
  intros logs e l search i. unfold LogStreamViewer.visibleIndices.
  rewrite !filteredIndices_In. split.
  - intros [log [Hl Hp]]. apply pushed_set_false in Hp as [Hp Hne].
    split; exists log; split; assumption.
  - intros [[log [Hl Hp]] [log' [Hl' Hne]]].
    assert (log' = log) by congruence. subst log'.
    exists log. split; [exact Hl|]. now apply pushed_set_false.
Qed.

(** X5: a longer query never shows more: when the effective query [q] is
    contained in the effective query [q'], every position visible for [q']
    is visible for [q]. *)
Theorem longer_query_narrows :
  forall (logs : list LogStreamViewer.LogEntry)
         (e : LogStreamViewer.EnabledLevels) (q q' : string),
    Spec.contains q' q ->
    incl (LogStreamViewer.filteredIndices logs e q')
         (LogStreamViewer.filteredIndices logs e q).
Proof.
  intros logs e q q' Hc i. rewrite !filteredIndices_In.
  intros [log [Hl Hp]]. exists log. split; [exact Hl|].
  eapply pushed_narrow; eassumption.
Qed.

Lemma longer_query_narrows_witness :
  incl (LogStreamViewer.filteredIndices Samples.five
          LogStreamViewer.allLevels "request failed")
       (LogStreamViewer.filteredIndices Samples.five
          LogStreamViewer.allLevels "request").
Proof.
  apply longer_query_narrows. exists "", " failed". reflexivity.
Defined.

(** X6: the search of the log viewer ignores the letter case of the
    query: two texts of the search box with the same lowercase form show
    the same rows. *)
Theorem search_ignores_query_case :
  forall (logs : list LogStreamViewer.LogEntry)
         (e : LogStreamViewer.EnabledLevels) (search search' : string),
    JS.toLowerCase search = JS.toLowerCase search' ->
    LogStreamViewer.visibleIndices logs e search
    = LogStreamViewer.visibleIndices logs e search'.
Proof.
  intros logs e search search' H.
  unfold LogStreamViewer.visibleIndices, LogStreamViewer.debouncedSearchLc.
  now rewrite <- !trim_toLowerCase, H.
Qed.

Lemma search_ignores_query_case_witness :
  LogStreamViewer.visibleIndices Samples.five LogStreamViewer.allLevels
    " Failed"
  = LogStreamViewer.visibleIndices Samples.five LogStreamViewer.allLevels
      " FAILED".
Proof.
  apply search_ignores_query_case. reflexivity.
Defined.

(** ** useDebouncedValue over arbitrary inputs *)
Section DebounceRuns.
Import LogStreamViewer.
Context {T : Type} `{EqDecision T}.
Implicit Types d : Debounced T.

Lemma edited_app (xs ys : list (Input T)) :
  Props.edited (xs ++ ys) = (Props.edited xs ++ Props.edited ys)%list.
Proof.
  induction xs as [|[v|ms] xs IH]; simpl; [reflexivity | now rewrite IH | exact IH].
Qed.

Lemma useDebouncedValue_run_snoc d (inputs : list (Input T)) (i : Input T) :
  useDebouncedValue_run d (inputs ++ [i])
  = useDebouncedValue_step (useDebouncedValue_run d inputs) i.
Proof. unfold useDebouncedValue_run. now rewrite fold_left_app. Qed.



(** Where the values of the hook come from, and how many commits there
    can be. *)
Lemma debounce_sources_run (v0 : T) (delay t0 : nat)
    (inputs : list (Input T)) :
  let d := useDebouncedValue_run (useDebouncedValue_mount v0 delay t0) inputs in
  let supplied := (v0 :: Props.edited inputs)%list in
  In (debounced d) supplied /\
  List.Forall (fun x => In x supplied) (committed d) /\
  (match timer d with Some (_, v) => In v supplied | None => True end) /\
  List.length (committed d)
  + match timer d with Some _ => 1 | None => 0 end
  <= S (List.length (Props.edited inputs)).
Proof.
  induction inputs as [|i inputs IH] using rev_ind.
  - simpl. repeat split; [now left | constructor | now left | lia].
  - rewrite useDebouncedValue_run_snoc, edited_app.
    cbv zeta in IH |- *.
    set (d := useDebouncedValue_run (useDebouncedValue_mount v0 delay t0) inputs)
      in *.
    destruct IH as [Hdeb [Hcom [Htim Hlen]]].
    assert (Hmono : forall x, In x (v0 :: Props.edited inputs)%list ->
              In x (v0 :: Props.edited inputs ++ Props.edited [i])%list).
    { intros x [->|Hx]; [now left | right; apply in_or_app; now left]. }
    destruct i as [v|ms]; simpl.
    + unfold useDebouncedValue_render.
      destruct (decide (v = value d)); simpl.
      * rewrite length_app. simpl. repeat split.
        -- now apply Hmono.
        -- eapply List.Forall_impl; [|exact Hcom]. intros x Hx.
           now apply (Hmono x).
        -- destruct (timer d) as [[due w]|]; [now apply (Hmono w) | exact I].
        -- lia.
      * rewrite length_app. simpl. repeat split.
        -- now apply Hmono.
        -- eapply List.Forall_impl; [|exact Hcom]. intros x Hx.
           now apply (Hmono x).
        -- right. apply in_or_app. right. now left.
        -- destruct (timer d); simpl in Hlen; lia.
    + rewrite app_nil_r. unfold useDebouncedValue_wait.
      destruct (timer d) as [[due w]|] eqn:Et; simpl.
      * destruct (Nat.leb_spec due (now d + ms)); simpl.
        -- repeat split; [exact Htim | | ].
           ++ apply List.Forall_app. split; [exact Hcom|].
              constructor; [exact Htim | constructor].
           ++ rewrite length_app. simpl in *. lia.
        -- rewrite ?Et. repeat split; assumption.
      * repeat split; assumption || lia.
Qed.
End DebounceRuns.



(** X8: the hook never invents a value: the debounced value and every
    value passed to [setDebounced] is the initial value or one of the
    edits; and there is at most one commit per edit, plus one for the
    mount. *)
Theorem useDebouncedValue_commits_supplied_values :
  forall (T : Type) (eq_dec : EqDecision T) (v0 : T) (delay t0 : nat)
         (inputs : list (LogStreamViewer.Input T)),
    let d := LogStreamViewer.useDebouncedValue_run
               (LogStreamViewer.useDebouncedValue_mount v0 delay t0) inputs in
    In (LogStreamViewer.debounced d) (v0 :: Props.edited inputs) /\
    List.Forall (fun x => In x (v0 :: Props.edited inputs))
      (LogStreamViewer.committed d) /\
    List.length (LogStreamViewer.committed d)
    <= S (List.length (Props.edited inputs)).
Proof.
  intros T eq_dec v0 delay t0 inputs d.
  destruct (debounce_sources_run v0 delay t0 inputs) as [H1 [H2 [_ H4]]].
  fold d in H1, H2, H4. repeat split; [exact H1 | exact H2 | lia].
Qed.

(** ** The follow state under user actions *)
Section FollowMore.
Import LogStreamViewer ViewerRun.
Local Open Scope Z_scope.
Implicit Types v : Viewer.

Lemma commit_paused v next :
  effectiveFollow next = false -> commit v next = next.
Proof.
  intros Hf. unfold commit, layoutEffect. rewrite Hf.
  now destruct (_ && _).
Qed.

Lemma commit_empty v next : itemCount next = 0 -> commit v next = next.
Proof.
  intros H0. unfold commit, layoutEffect. rewrite H0.
  destruct (_ && _); [reflexivity|]. now destruct (negb _).
Qed.

Lemma commit_resumes v next :
  effectiveFollow v = false -> effectiveFollow next = true ->
  0 < itemCount next ->
  commit v next
  = list_moved (maxOffset next) (Some (itemCount next - 1, AlignEnd)) next.
Proof.
  intros Hv Hn Hpos. unfold commit. rewrite Hv, Hn. simpl.
  now apply layoutEffect_following.
Qed.

Lemma itemCount_nonneg v : 0 <= itemCount v.
Proof. unfold itemCount. lia. Qed.

(** The calls of [scrollToItem] that a step adds. *)
Lemma viewer_step_calls v (ev : ViewerEvent) :
  list_scrollToItem (viewer_step v ev) = list_scrollToItem v \/
  exists n, 0 < n /\
    list_scrollToItem (viewer_step v ev)
    = (list_scrollToItem v ++ [(n - 1, AlignEnd)])%list.
Proof.
  assert (Hcommit : forall next,
            list_scrollToItem next = list_scrollToItem v ->
            list_scrollToItem (commit v next) = list_scrollToItem v \/
            exists n, 0 < n /\
              list_scrollToItem (commit v next)
              = (list_scrollToItem v ++ [(n - 1, AlignEnd)])%list).
  { intros next Hn. unfold commit.
    destruct (_ && _); [now left|]. unfold layoutEffect.
    destruct (negb _); [now left|].
    destruct (Z.leb_spec (itemCount next) 0); [now left|].
    right. exists (itemCount next). split; [lia|].
    rewrite FixedSizeList_scrollToItem_eq. simpl. now rewrite Hn. }
  destruct ev as [l|e q|scrollTop| |b]; simpl.
  - apply Hcommit. reflexivity.
  - apply Hcommit. reflexivity.
  - unfold userScroll. destruct (_ =? _); [now left|].
    apply Hcommit. reflexivity.
  - rewrite jumpToLatest_eq. destruct (Z.leb_spec (itemCount v) 0); [now left|].
    right. exists (itemCount v). split; [lia | reflexivity].
  - apply Hcommit. reflexivity.
Qed.
End FollowMore.

(** X9: while the viewer does not follow, a change of the buffer or of the
    filter moves nothing: no [scrollToItem] call is made, the list keeps
    its offset and the follow state is unchanged. *)
Theorem paused_viewer_is_not_scrolled :
  forall (v : LogStreamViewer.Viewer)
         (logs' : list LogStreamViewer.LogEntry)
         (e : LogStreamViewer.EnabledLevels) (q : string),
    LogStreamViewer.effectiveFollow v = false ->
    LogStreamViewer.logsChanged logs' v = LogStreamViewer.setLogs logs' v /\
    LogStreamViewer.filterChanged e q v = LogStreamViewer.setFilter e q v.
Proof.
  intros v logs' e q Hf. split.
  - unfold LogStreamViewer.logsChanged. now apply commit_paused.
  - unfold LogStreamViewer.filterChanged. now apply commit_paused.
Qed.

Lemma paused_viewer_is_not_scrolled_witness :
  let v := Samples.viewer 100 true false 0 in
  LogStreamViewer.logsChanged Samples.five v
  = LogStreamViewer.setLogs Samples.five v /\
  LogStreamViewer.filterChanged Samples.onlyERROR "x" v
  = LogStreamViewer.setFilter Samples.onlyERROR "x" v.
Proof.
  intros v. apply (paused_viewer_is_not_scrolled v). reflexivity.
Defined.

(** X10: a scroll by the user to an offset further than two rows from the
    bottom stops the following, and nothing is scrolled by the program. A
    scroll by the user back to within two rows of the bottom, with the
    auto-follow toggle on and rows to show, resumes the following at once:
    the viewer scrolls to the last row. *)
Theorem userScroll_pauses_and_resumes :
  (forall (v : LogStreamViewer.Viewer) (scrollTop : Z),
      (0 <= LogStreamViewer.rowHeight v)%Z ->
      scrollTop <> LogStreamViewer.list_scrollOffset v ->
      (0 <= scrollTop
       < ViewerRun.maxOffset v - 2 * LogStreamViewer.rowHeight v)%Z ->
      let v' := LogStreamViewer.userScroll scrollTop v in
      LogStreamViewer.atBottom v' = false /\
      LogStreamViewer.effectiveFollow v' = false /\
      LogStreamViewer.list_scrollOffset v' = scrollTop /\
      LogStreamViewer.list_scrollToItem v'
      = LogStreamViewer.list_scrollToItem v) /\
  (forall (v : LogStreamViewer.Viewer) (scrollTop : Z),
      LogStreamViewer.autoFollowEnabled v = true ->
      LogStreamViewer.atBottom v = false ->
      (0 < LogStreamViewer.itemCount v)%Z ->
      scrollTop <> LogStreamViewer.list_scrollOffset v ->
      (0 <= scrollTop <= ViewerRun.maxOffset v)%Z ->
      (ViewerRun.maxOffset v - 2 * LogStreamViewer.rowHeight v
       <= scrollTop)%Z ->
      let v' := LogStreamViewer.userScroll scrollTop v in
      LogStreamViewer.atBottom v' = true /\
      LogStreamViewer.effectiveFollow v' = true /\
      LogStreamViewer.list_scrollOffset v' = ViewerRun.maxOffset v /\
      LogStreamViewer.list_scrollToItem v'
      = (LogStreamViewer.list_scrollToItem v
         ++ [((LogStreamViewer.itemCount v - 1)%Z,
              LogStreamViewer.AlignEnd)])%list).
Proof.
  split.
  - intros v scrollTop Hrh Hne [H0 Hfar] v'. subst v'.
    unfold LogStreamViewer.userScroll, ViewerRun.maxOffset in *.
    destruct (Z.eqb_spec scrollTop (LogStreamViewer.list_scrollOffset v));
      [contradiction|].
    rewrite (Z.min_l scrollTop) by lia. rewrite (Z.max_r 0 scrollTop) by lia.
    rewrite onScroll_user.
    assert (Hb : (Z.max 0
                    (LogStreamViewer.itemCount
                       (LogStreamViewer.list_moved scrollTop None v)
                     * LogStreamViewer.rowHeight
                         (LogStreamViewer.list_moved scrollTop None v)
                     - LogStreamViewer.height
                         (LogStreamViewer.list_moved scrollTop None v))
                  - LogStreamViewer.rowHeight
                      (LogStreamViewer.list_moved scrollTop None v) * 2
                  <=? scrollTop)%Z = false).
    { apply Z.leb_gt.
      change (LogStreamViewer.itemCount
                (LogStreamViewer.list_moved scrollTop None v))
        with (LogStreamViewer.itemCount v).
      cbn [LogStreamViewer.rowHeight LogStreamViewer.height
           LogStreamViewer.list_moved]. lia. }
    rewrite Hb. rewrite commit_paused.
    + unfold LogStreamViewer.effectiveFollow. cbn. rewrite andb_false_r.
      repeat split.
    + unfold LogStreamViewer.effectiveFollow. cbn. apply andb_false_r.
  - intros v scrollTop Hauto Hbot Hpos Hne [H0 Hmax] Hnear v'. subst v'.
    unfold LogStreamViewer.userScroll, ViewerRun.maxOffset in *.
    destruct (Z.eqb_spec scrollTop (LogStreamViewer.list_scrollOffset v));
      [contradiction|].
    rewrite (Z.min_l scrollTop) by lia. rewrite (Z.max_r 0 scrollTop) by lia.
    rewrite onScroll_user.
    assert (Hb : (Z.max 0
                    (LogStreamViewer.itemCount
                       (LogStreamViewer.list_moved scrollTop None v)
                     * LogStreamViewer.rowHeight
                         (LogStreamViewer.list_moved scrollTop None v)
                     - LogStreamViewer.height
                         (LogStreamViewer.list_moved scrollTop None v))
                  - LogStreamViewer.rowHeight
                      (LogStreamViewer.list_moved scrollTop None v) * 2
                  <=? scrollTop)%Z = true).
    { apply Z.leb_le.
      change (LogStreamViewer.itemCount
                (LogStreamViewer.list_moved scrollTop None v))
        with (LogStreamViewer.itemCount v).
      cbn [LogStreamViewer.rowHeight LogStreamViewer.height
           LogStreamViewer.list_moved]. lia. }
    rewrite Hb. rewrite commit_resumes.
    + unfold LogStreamViewer.effectiveFollow, ViewerRun.maxOffset. cbn.
      rewrite Hauto. repeat split.
    + unfold LogStreamViewer.effectiveFollow. now rewrite Hauto, Hbot.
    + unfold LogStreamViewer.effectiveFollow. cbn. now rewrite Hauto.
    + exact Hpos.
Qed.

Lemma userScroll_pauses_and_resumes_witness :
  (let v := Samples.viewer 100 true true 1880 in
   let v' := LogStreamViewer.userScroll 300 v in
   LogStreamViewer.atBottom v' = false /\
   LogStreamViewer.effectiveFollow v' = false /\
   LogStreamViewer.list_scrollOffset v' = 300%Z /\
   LogStreamViewer.list_scrollToItem v'
   = LogStreamViewer.list_scrollToItem v) /\
  (let v := Samples.viewer 100 true false 300 in
   let v' := LogStreamViewer.userScroll 1850 v in
   LogStreamViewer.atBottom v' = true /\
   LogStreamViewer.effectiveFollow v' = true /\
   LogStreamViewer.list_scrollOffset v' = ViewerRun.maxOffset v /\
   LogStreamViewer.list_scrollToItem v'
   = (LogStreamViewer.list_scrollToItem v
      ++ [((LogStreamViewer.itemCount v - 1)%Z,
           LogStreamViewer.AlignEnd)])%list).
Proof.
  split.
  - apply (proj1 userScroll_pauses_and_resumes
             (Samples.viewer 100 true true 1880) 300%Z).
    + vm_compute. discriminate.
    + vm_compute. discriminate.
    + vm_compute. split; [discriminate | reflexivity].
  - apply (proj2 userScroll_pauses_and_resumes
             (Samples.viewer 100 true false 300) 1850%Z).
    + reflexivity.
    + reflexivity.
    + vm_compute. reflexivity.
    + vm_compute. discriminate.
    + vm_compute. split; discriminate.
    + vm_compute. discriminate.
Defined.

(** X11: the auto-follow checkbox. Switching it off never scrolls.
    Switching it on while the viewer is at bottom and has rows scrolls to
    the last row; switching it on while the viewer is not at bottom
    changes the flag only. *)
Theorem toggleAutoFollow_scrolls_only_at_bottom :
  (forall v : LogStreamViewer.Viewer,
      LogStreamViewer.toggleAutoFollow false v
      = LogStreamViewer.setAutoFollowEnabled false v) /\
  (forall v : LogStreamViewer.Viewer,
      LogStreamViewer.atBottom v = false ->
      LogStreamViewer.toggleAutoFollow true v
      = LogStreamViewer.setAutoFollowEnabled true v) /\
  (forall v : LogStreamViewer.Viewer,
      LogStreamViewer.autoFollowEnabled v = false ->
      LogStreamViewer.atBottom v = true ->
      (0 < LogStreamViewer.itemCount v)%Z ->
      LogStreamViewer.toggleAutoFollow true v
      = LogStreamViewer.list_moved (ViewerRun.maxOffset v)
          (Some ((LogStreamViewer.itemCount v - 1)%Z, LogStreamViewer.AlignEnd))
          (LogStreamViewer.setAutoFollowEnabled true v)).
Proof.
  split; [|split].
  - intros v. unfold LogStreamViewer.toggleAutoFollow.
    apply commit_paused. reflexivity.
  - intros v Hb. unfold LogStreamViewer.toggleAutoFollow.
    apply commit_paused. unfold LogStreamViewer.effectiveFollow. cbn.
    exact Hb.
  - intros v Hauto Hb Hpos. unfold LogStreamViewer.toggleAutoFollow.
    rewrite commit_resumes; [reflexivity | | | exact Hpos].
    + unfold LogStreamViewer.effectiveFollow. now rewrite Hauto.
    + unfold LogStreamViewer.effectiveFollow. cbn. exact Hb.
Qed.

Lemma toggleAutoFollow_scrolls_only_at_bottom_witness :
  (let v := Samples.viewer 100 false false 300 in
   LogStreamViewer.toggleAutoFollow true v
   = LogStreamViewer.setAutoFollowEnabled true v) /\
  (let v := Samples.viewer 100 false true 1880 in
   LogStreamViewer.toggleAutoFollow true v
   = LogStreamViewer.list_moved (ViewerRun.maxOffset v)
       (Some ((LogStreamViewer.itemCount v - 1)%Z, LogStreamViewer.AlignEnd))
       (LogStreamViewer.setAutoFollowEnabled true v)).
Proof.
  split.
  - apply (proj1 (proj2 toggleAutoFollow_scrolls_only_at_bottom)).
    reflexivity.
  - apply (proj2 (proj2 toggleAutoFollow_scrolls_only_at_bottom)).
    + reflexivity.
    + reflexivity.
    + vm_compute. reflexivity.
Defined.

(** X12: whatever the user and the host do, the viewer only ever asks the
    list to scroll to a row that exists, aligned to the end: every
    [scrollToItem] call made during a run has a non-negative index and the
    alignment "end", and earlier calls are never lost. In particular an
    empty view is never scrolled to row -1. *)
Theorem viewer_scrolls_to_existing_rows :
  forall (v : LogStreamViewer.Viewer) (evs : list ViewerRun.ViewerEvent),
    exists calls : list (Z * LogStreamViewer.Align),
      LogStreamViewer.list_scrollToItem (ViewerRun.viewer_run v evs)
      = (LogStreamViewer.list_scrollToItem v ++ calls)%list /\
      List.Forall (fun c => (0 <= c.1)%Z /\ c.2 = LogStreamViewer.AlignEnd)
        calls.
Proof.
  intros v evs. revert v.
  induction evs as [|ev evs IH]; intros v.
  - exists []. split; [now rewrite app_nil_r | constructor].
  - destruct (IH (ViewerRun.viewer_step v ev)) as [calls [Hc Hall]].
    change (ViewerRun.viewer_run v (ev :: evs))
      with (ViewerRun.viewer_run (ViewerRun.viewer_step v ev) evs).
    destruct (viewer_step_calls v ev) as [Hsame | [n [Hn Hadd]]].
    + exists calls. split; [now rewrite Hc, Hsame | exact Hall].
    + exists (((n - 1)%Z, LogStreamViewer.AlignEnd) :: calls).
      split.
      * rewrite Hc, Hadd, <- app_assoc. reflexivity.
      * constructor; [split; [simpl; lia | reflexivity] | exact Hall].
Qed.

(** X13: a list that overflows its viewport by no more than two rows
    always counts as at bottom: no scroll by the user can stop the
    following. *)
Theorem short_list_stays_at_bottom :
  forall (v : LogStreamViewer.Viewer) (offset : Z),
    (0 <= LogStreamViewer.rowHeight v)%Z ->
    (0 <= offset)%Z ->
    (LogStreamViewer.itemCount v * LogStreamViewer.rowHeight v
     - LogStreamViewer.height v <= 2 * LogStreamViewer.rowHeight v)%Z ->
    LogStreamViewer.atBottom
      (LogStreamViewer.onScroll v
         {| LogStreamViewer.scrollOffset := offset;
            LogStreamViewer.scrollUpdateWasRequested := false |}) = true.
Proof.
  intros v offset Hrh Hoff Hshort. rewrite onScroll_user. cbn.
  apply Z.leb_le. lia.
Qed.

Lemma short_list_stays_at_bottom_witness :
  LogStreamViewer.atBottom
    (LogStreamViewer.onScroll (Samples.viewer 23 true true 0)
       {| LogStreamViewer.scrollOffset := 0;
          LogStreamViewer.scrollUpdateWasRequested := false |}) = true.
Proof.
  apply short_list_stays_at_bottom.
  - vm_compute. discriminate.
  - lia.
  - vm_compute. discriminate.
Defined.

(** ** Lists built over a range *)
Section Ranges.
Context {A : Type}.

Lemma NoDup_map_seq (f : nat -> A) (a n : nat) :
  (forall i j, f i = f j -> i = j) -> NoDup (map f (seq a n)).
Proof.
  intros Hinj. revert a. induction n as [|n IH]; intros a; simpl.
  - constructor.
  - apply NoDup_cons_2; [|apply IH].
    rewrite list_elem_of_In, in_map_iff. intros [j [Hj Hin]].
    apply Hinj in Hj. apply in_seq in Hin. lia.
Qed.

Lemma sorted_map_seq (R : A -> A -> Prop) (f : nat -> A) (a n : nat) :
  (forall i j, i < j -> R (f i) (f j)) ->
  StronglySorted R (map f (seq a n)).
Proof.
  intros Hmono. revert a. induction n as [|n IH]; intros a; simpl.
  - constructor.
  - constructor; [apply IH|].
    apply List.Forall_forall. intros x Hx.
    apply in_map_iff in Hx as [j [<- Hin]]. apply in_seq in Hin.
    apply Hmono. lia.
Qed.

Lemma lookup_map {B} (f : A -> B) (l : list A) (i : nat) :
  map f l !! i = option_map f (l !! i).
Proof.
  revert i. induction l as [|x l IH]; intros [|i]; simpl; auto.
Qed.

Lemma Forall_map_seq (P : A -> Prop) (f : nat -> A) (a n : nat) :
  (forall i, P (f i)) -> List.Forall P (map f (seq a n)).
Proof.
  intros HP. apply List.Forall_forall. intros x Hx.
  apply in_map_iff in Hx as [j [<- _]]. apply HP.
Qed.
End Ranges.

(** ** The demo host *)
Section Demo.
Import LogStreamViewer LogStreamDemo.

Lemma makeLog_lc (level : option LogLevel) (e : Entropy) :
  Spec.lc_precomputed (makeLog level e).
Proof. reflexivity. Qed.

Lemma seedOf_lc (n : nat) (now : Z) (es : nat -> Entropy) :
  List.Forall Spec.lc_precomputed (seedOf n now es).
Proof. apply Forall_map_seq. intros i. reflexivity. Qed.

Lemma batchOf_lc (rate : nat) (es : nat -> Entropy) :
  List.Forall Spec.lc_precomputed (batchOf rate es).
Proof. apply Forall_map_seq. intros i. reflexivity. Qed.

Lemma LogStreamDemo_tick_lc (prev batch : list LogEntry) :
  List.Forall Spec.lc_precomputed prev ->
  List.Forall Spec.lc_precomputed batch ->
  List.Forall Spec.lc_precomputed (LogStreamDemo_tick prev batch).
Proof.
  intros Hp Hb. unfold LogStreamDemo_tick, JS.slice_from.
  apply List.Forall_app. split; [|exact Hb].
  destruct (_ <? _)%nat; [now apply Forall_drop | exact Hp].
Qed.

Lemma demoRun_lc (buffer : list LogEntry) (evs : list DemoEvent) :
  List.Forall Spec.lc_precomputed buffer ->
  List.Forall Spec.lc_precomputed (demoRun buffer evs).
Proof.
  revert buffer. induction evs as [|ev evs IH]; intros buffer Hb; simpl;
    [exact Hb|].
  apply IH. destruct ev as [rate es|]; simpl.
  - apply LogStreamDemo_tick_lc; [exact Hb | apply batchOf_lc].
  - constructor.
Qed.

Lemma LogStreamDemo_tick_last_n (prev batch : list LogEntry) :
  LogStreamDemo_tick prev batch
  = Spec.last_n (MAX_LOGS + List.length batch) (prev ++ batch).
Proof.
  rewrite last_n_slice_last. unfold LogStreamDemo_tick, JS.slice_from,
    JS.slice_last.
  generalize MAX_LOGS. intros cap. rewrite length_app.
  destruct (Nat.ltb_spec cap (List.length prev)).
  - replace (List.length prev + List.length batch - (cap + List.length batch))
      with (List.length prev - cap) by lia.
    rewrite drop_app_le by lia. reflexivity.
  - replace (List.length prev + List.length batch - (cap + List.length batch))
      with 0 by lia.
    reflexivity.
Qed.
End Demo.

(** X14: one tick of the demo keeps exactly the last [MAX_LOGS] records of
    the previous buffer followed by the whole new batch, in order: the
    result is the last [MAX_LOGS + batch size] records of the old buffer
    with the batch appended. Its length never exceeds [MAX_LOGS] plus the
    batch size, and a buffer of at most [MAX_LOGS] records loses nothing. *)
Theorem LogStreamDemo_tick_keeps_newest :
  forall prev batch : list LogStreamViewer.LogEntry,
    LogStreamViewer.LogStreamDemo_tick prev batch
    = Spec.last_n (LogStreamViewer.MAX_LOGS + List.length batch)
        (prev ++ batch) /\
    List.length (LogStreamViewer.LogStreamDemo_tick prev batch)
    <= LogStreamViewer.MAX_LOGS + List.length batch /\
    (List.length prev <= LogStreamViewer.MAX_LOGS ->
     LogStreamViewer.LogStreamDemo_tick prev batch = (prev ++ batch)%list).
Proof.
  intros prev batch. split; [apply LogStreamDemo_tick_last_n|]. split.
  - rewrite LogStreamDemo_tick_length. lia.
  - intros Hle. unfold LogStreamViewer.LogStreamDemo_tick.
    destruct (Nat.ltb_spec LogStreamViewer.MAX_LOGS (List.length prev));
      [lia | reflexivity].
Qed.

Lemma LogStreamDemo_tick_keeps_newest_witness :
  LogStreamViewer.LogStreamDemo_tick Samples.five Samples.one
  = (Samples.five ++ Samples.one)%list.
Proof.
  apply (proj2 (proj2 (LogStreamDemo_tick_keeps_newest Samples.five
                         Samples.one))).
  apply Nat.leb_le. vm_compute. reflexivity.
Defined.

(** X15: the number of records per tick is at least 1 and, for the slider
    range up to 200, at most 20; it is the rate divided by ten, rounded to
    the nearest integer with halves up, except that every rate below 15
    gives 1: at the lowest slider positions the demo still produces ten
    records per second. *)
Theorem perTick_range :
  forall rate : nat,
    1 <= LogStreamViewer.perTick rate /\
    (rate <= 200 -> LogStreamViewer.perTick rate <= 20) /\
    (rate < 15 -> LogStreamViewer.perTick rate = 1) /\
    (5 <= rate ->
     10 * LogStreamViewer.perTick rate <= rate + 5 /\
     rate + 5 < 10 * LogStreamViewer.perTick rate + 10).
Proof.
  intros rate. unfold LogStreamViewer.perTick.
  pose proof (Nat.div_mod_eq (rate * 100 + 500) 1000) as Hdm.
  pose proof (Nat.mod_upper_bound (rate * 100 + 500) 1000) as Hmod.
  repeat split; intros; lia.
Qed.

Lemma perTick_range_witness :
  LogStreamViewer.perTick 200 <= 20 /\
  LogStreamViewer.perTick 3 = 1 /\
  (10 * LogStreamViewer.perTick 20 <= 20 + 5 /\
   20 + 5 < 10 * LogStreamViewer.perTick 20 + 10).
Proof.
  split; [|split].
  - apply (proj1 (proj2 (perTick_range 200))). lia.
  - apply (proj1 (proj2 (proj2 (perTick_range 3)))). lia.
  - apply (proj2 (proj2 (proj2 (perTick_range 20)))). lia.
Defined.

(** X16: every buffer that the demo host can hold (the seed, then any
    ticks at any rates, or a clear) carries the lowercase projection in
    every record, so the viewer's filter is exact on it: for every level
    map and every text of the search box, the visible index set lists, in
    ascending order, exactly the positions whose record passes the level
    test and the effective query. *)
Theorem demo_buffers_filter_exactly :
  forall (now : Z) (es : nat -> LogStreamDemo.Entropy)
         (evs : list LogStreamDemo.DemoEvent)
         (enabled : LogStreamViewer.EnabledLevels) (search : string),
    let buffer := LogStreamDemo.demoRun (LogStreamDemo.seed now es) evs in
    List.Forall Spec.lc_precomputed buffer /\
    Spec.positions_of
      (Spec.passes enabled (LogStreamViewer.debouncedSearchLc search)) buffer
      (LogStreamViewer.visibleIndices buffer enabled search).
Proof.
  intros now es evs enabled search buffer.
  assert (Hlc : List.Forall Spec.lc_precomputed buffer).
  { apply demoRun_lc. apply seedOf_lc. }
  split; [exact Hlc|].
  apply filteredIndices_positions;
    [exact Hlc | apply debouncedSearchLc_lowercase].
Qed.

Section DemoSearch.
Import LogStreamViewer LogStreamDemo Random.

Lemma randomPick_In {A} (arr : list A) (r : nat) :
  arr <> [] -> exists x, randomPick arr r = Some x /\ In x arr.
Proof.
  intros Hne. unfold randomPick.
  destruct (lookup_lt_is_Some_2 arr (r mod List.length arr)) as [x Hx].
  - apply Nat.mod_upper_bound. destruct arr; [contradiction | discriminate].
  - exists x. split; [exact Hx|].
    apply list_elem_of_In. eapply list_elem_of_lookup_2, Hx.
Qed.

Lemma makeLog_failed (lvl : option LogLevel) (e : Entropy) :
  Props.failed_iff_ERROR (makeLog lvl e).
Proof.
  unfold Props.failed_iff_ERROR, makeLog. cbn [_lc level].
  destruct (randomPick_In traces (pick_trace e)) as [t [Ht Hint]];
    [discriminate|].
  rewrite Ht. simpl in Hint.
  set (l := match lvl with
            | Some l => l
            | None => default INFO (randomPick LEVELS (pick_level e))
            end).
  destruct l; unfold extra.
  - destruct (randomPick_In ["a1"; "b2"; "c3"; "d4"] (pick_extra e))
      as [x [Hx Hin]]; [discriminate|].
    rewrite Hx. simpl in Hin.
    repeat (destruct Hin as [<-|Hin];
            [repeat (destruct Hint as [<-|Hint]; [vm_compute; reflexivity|]);
             contradiction|]).
    contradiction.
  - destruct (randomPick_In [12; 21; 34; 55; 89; 144] (pick_extra e))
      as [x [Hx Hin]]; [discriminate|].
    rewrite Hx. simpl in Hin.
    repeat (destruct Hin as [<-|Hin];
            [repeat (destruct Hint as [<-|Hint]; [vm_compute; reflexivity|]);
             contradiction|]).
    contradiction.
  - destruct (randomPick_In [2; 3; 4] (pick_extra e))
      as [x [Hx Hin]]; [discriminate|].
    rewrite Hx. simpl in Hin.
    repeat (destruct Hin as [<-|Hin];
            [repeat (destruct Hint as [<-|Hint]; [vm_compute; reflexivity|]);
             contradiction|]).
    contradiction.
  - destruct (randomPick_In [400; 401; 403; 404; 429; 500; 502; 503]
                (pick_extra e)) as [x [Hx Hin]]; [discriminate|].
    rewrite Hx. simpl in Hin.
    repeat (destruct Hin as [<-|Hin];
            [repeat (destruct Hint as [<-|Hint]; [vm_compute; reflexivity|]);
             contradiction|]).
    contradiction.
Qed.

Lemma demoRun_failed (buffer : list LogEntry) (evs : list DemoEvent) :
  List.Forall Props.failed_iff_ERROR buffer ->
  List.Forall Props.failed_iff_ERROR (demoRun buffer evs).
Proof.
  revert buffer. induction evs as [|ev evs IH]; intros buffer Hb; simpl;
    [exact Hb|].
  apply IH. destruct ev as [rate es|]; simpl; [|constructor].
  unfold LogStreamDemo_tick, JS.slice_from.
  apply List.Forall_app. split.
  - destruct (_ <? _)%nat; [now apply Forall_drop | exact Hb].
  - apply Forall_map_seq. intros i. apply makeLog_failed.
Qed.
End DemoSearch.

(** X17: in every buffer of the demo host, with all levels enabled, the
    search for "failed" in any letter case and with any surrounding white
    space shows exactly the ERROR records: the generator writes that word
    into the messages of errors and of nothing else. *)
Theorem demo_search_failed_shows_errors :
  forall (now : Z) (es : nat -> LogStreamDemo.Entropy)
         (evs : list LogStreamDemo.DemoEvent) (search : string) (i : nat),
    LogStreamViewer.debouncedSearchLc search = "failed" ->
    let buffer := LogStreamDemo.demoRun (LogStreamDemo.seed now es) evs in
    In i (LogStreamViewer.visibleIndices buffer LogStreamViewer.allLevels
            search)
    <-> exists log, buffer !! i = Some log /\
          LogStreamViewer.level log = LogStreamViewer.ERROR.
Proof.
  intros now es evs search i Hq buffer.
  assert (Hall : List.Forall Props.failed_iff_ERROR buffer).
  { apply demoRun_failed. apply Forall_map_seq. intros k.
    apply (makeLog_failed None (es k)). }
  unfold LogStreamViewer.visibleIndices. rewrite filteredIndices_In, Hq.
  rewrite List.Forall_forall in Hall.
  split; intros [log [Hl H]]; exists log; (split; [exact Hl|]);
    (assert (Hf : Props.failed_iff_ERROR log)
       by (apply Hall, list_elem_of_In; eapply list_elem_of_lookup_2, Hl));
    unfold Props.failed_iff_ERROR in Hf; unfold LogStreamViewer.pushed in *;
    simpl in *.
  - destruct (LogStreamViewer.level log); simpl in *;
      rewrite Hf in H; simpl in H; congruence.
  - rewrite H in *. simpl. now rewrite Hf.
Qed.

Lemma demo_search_failed_shows_errors_witness :
  let buffer := LogStreamDemo.demoRun
                  (LogStreamDemo.seed 0
                     (fun i => {| LogStreamDemo.pick_level := i;
                                  LogStreamDemo.pick_extra := i;
                                  LogStreamDemo.pick_trace := i;
                                  LogStreamDemo.random_id := "id";
                                  LogStreamDemo.date_now := 0 |}))
                  [] in
  In 0 (LogStreamViewer.visibleIndices buffer LogStreamViewer.allLevels
          " Failed ")
  <-> exists log, buffer !! 0 = Some log /\
        LogStreamViewer.level log = LogStreamViewer.ERROR.
Proof.
  apply demo_search_failed_shows_errors. reflexivity.
Defined.

(** ** The buffers of the two hosts *)
Section Seeds.
Import LogStreamViewer.

Lemma log_id_inj (i j : nat) : "log-" ++ pretty i = "log-" ++ pretty j -> i = j.
Proof.
  intros H. injection H as H. change (pretty i = pretty j) in H.
  exact (inj pretty i j H).
Qed.

Lemma newLog_lc (now : Z) (r : nat) :
  Spec.lc_precomputed (MockLogs.newLog now r).
Proof. reflexivity. Qed.

Lemma pageRun_inv (buffer : list LogEntry) (ticks : list (Z * nat)) :
  List.length buffer = BuildChallengePage.KEEP ->
  List.Forall Spec.lc_precomputed buffer ->
  List.length (MockLogs.pageRun buffer ticks) = BuildChallengePage.KEEP /\
  List.Forall Spec.lc_precomputed (MockLogs.pageRun buffer ticks).
Proof.
  revert buffer. induction ticks as [|[now r] ticks IH]; intros buffer Hlen Hlc.
  - split; assumption.
  - change (MockLogs.pageRun buffer ((now, r) :: ticks))
      with (MockLogs.pageRun
              (BuildChallengePage.append buffer (MockLogs.newLog now r)) ticks).
    apply IH.
    + rewrite append_length, Hlen. unfold BuildChallengePage.KEEP. lia.
    + unfold BuildChallengePage.append, JS.slice_last.
      apply List.Forall_app. split; [now apply Forall_drop|].
      constructor; [apply newLog_lc | constructor].
Qed.
Lemma pageRun_appendAll (buffer : list LogEntry) (ticks : list (Z * nat)) :
  MockLogs.pageRun buffer ticks
  = BuildChallengePage.appendAll buffer
      (map (fun t => MockLogs.newLog t.1 t.2) ticks).
Proof.
  revert buffer. induction ticks as [|t ticks IH]; intros buffer;
    [reflexivity|].
  exact (IH (BuildChallengePage.append buffer (MockLogs.newLog t.1 t.2))).
Qed.

Lemma pageRun_last_n (buffer : list LogEntry) (ticks : list (Z * nat)) :
  List.length buffer = BuildChallengePage.KEEP ->
  MockLogs.pageRun buffer ticks
  = Spec.last_n BuildChallengePage.KEEP
      (buffer ++ map (fun t => MockLogs.newLog t.1 t.2) ticks).
Proof.
  intros Hlen. rewrite pageRun_appendAll, last_n_slice_last.
  destruct ticks as [|t ticks].
  - simpl. rewrite app_nil_r. unfold JS.slice_last.
    rewrite Hlen, Nat.sub_diag. reflexivity.
  - cbn [map]. apply appendAll_slice_last.
Qed.

Lemma generateMockLogs_length_lc (count : nat) (now : Z) (rl rm : nat -> nat) :
  List.length (MockLogs.generateMockLogs count now rl rm) = count /\
  List.Forall Spec.lc_precomputed (MockLogs.generateMockLogs count now rl rm).
Proof.
  unfold MockLogs.generateMockLogs. split.
  - now rewrite length_map, length_seq.
  - apply Forall_map_seq. intros i. reflexivity.
Qed.
End Seeds.

(** X18: the seed of the demo host has 10000 records whose time stamps
    ascend strictly, five milliseconds apart, all before the time of the
    seeding. *)
#[warnings="-abstract-large-number"]
Theorem LogStreamDemo_seed_is_ordered :
  forall (now : Z) (es : nat -> LogStreamDemo.Entropy),
    List.length (LogStreamDemo.seed now es) = 10000 /\
    StronglySorted Z.lt (map LogStreamViewer.ts (LogStreamDemo.seed now es)) /\
    (forall (i : nat) (log : LogStreamViewer.LogEntry),
        LogStreamDemo.seed now es !! i = Some log ->
        LogStreamViewer.ts log = (now - (10000 - Z.of_nat i) * 5)%Z /\
        (LogStreamViewer.ts log < now)%Z).
Proof.
  intros now es. unfold LogStreamDemo.seed.
  assert (Hgen : forall n : nat,
    List.length (LogStreamDemo.seedOf n now es) = n /\
    StronglySorted Z.lt (map LogStreamViewer.ts (LogStreamDemo.seedOf n now es)) /\
    (forall (i : nat) (log : LogStreamViewer.LogEntry),
        LogStreamDemo.seedOf n now es !! i = Some log ->
        LogStreamViewer.ts log = (now - (Z.of_nat n - Z.of_nat i) * 5)%Z /\
        (LogStreamViewer.ts log < now)%Z)).
  { intros n. unfold LogStreamDemo.seedOf. split; [|split].
    - now rewrite length_map, length_seq.
    - rewrite map_map. apply sorted_map_seq. intros i j Hij. simpl. lia.
    - intros i log Hl.
      assert (Hi : i < n).
      { apply lookup_lt_Some in Hl. now rewrite length_map, length_seq in Hl. }
      rewrite lookup_map, lookup_seq_lt in Hl by exact Hi.
      simpl in Hl. injection Hl as <-. simpl. split; [reflexivity | lia]. }
  apply Hgen.
Qed.

#[warnings="-abstract-large-number"]
Lemma LogStreamDemo_seed_is_ordered_witness :
  let e := {| LogStreamDemo.pick_level := 3; LogStreamDemo.pick_extra := 0;
              LogStreamDemo.pick_trace := 0; LogStreamDemo.random_id := "id";
              LogStreamDemo.date_now := 7 |} in
  let log := LogStreamDemo.withTs (-50000) (LogStreamDemo.makeLog None e) in
  LogStreamViewer.ts log = (0 - (10000 - Z.of_nat 0) * 5)%Z /\
  (LogStreamViewer.ts log < 0)%Z.
Proof.
  intros e log.
  apply (proj2 (proj2 (LogStreamDemo_seed_is_ordered 0 (fun _ => e))) 0 log).
  reflexivity.
Defined.

(** X19: [generateMockLogs(count)] returns [count] records; record [i] has
    the id "log-i" and the time stamp [now - (count - i) * 100]; the ids
    are pairwise distinct, the time stamps ascend strictly, and every
    record carries the lowercase projection of its message. *)
Theorem generateMockLogs_shape :
  forall (count : nat) (now : Z) (rl rm : nat -> nat),
    let logs := MockLogs.generateMockLogs count now rl rm in
    List.length logs = count /\
    (forall (i : nat) (log : LogStreamViewer.LogEntry),
        logs !! i = Some log ->
        LogStreamViewer.id log = "log-" ++ pretty i /\
        LogStreamViewer.ts log
        = (now - (Z.of_nat count - Z.of_nat i) * 100)%Z) /\
    NoDup (map LogStreamViewer.id logs) /\
    StronglySorted Z.lt (map LogStreamViewer.ts logs) /\
    List.Forall Spec.lc_precomputed logs.
Proof.
  intros count now rl rm logs. subst logs. unfold MockLogs.generateMockLogs.
  split; [|split; [|split; [|split]]].
  - now rewrite length_map, length_seq.
  - intros i log Hl.
    assert (Hi : i < count).
    { apply lookup_lt_Some in Hl. now rewrite length_map, length_seq in Hl. }
    rewrite lookup_map, lookup_seq_lt in Hl by exact Hi.
    simpl in Hl. injection Hl as <-. split; reflexivity.
  - rewrite map_map. apply NoDup_map_seq. intros i j H. simpl in H.
    now apply log_id_inj.
  - rewrite map_map. apply sorted_map_seq. intros i j Hij. simpl. lia.
  - apply Forall_map_seq. intros i. reflexivity.
Qed.

Lemma generateMockLogs_shape_witness :
  let log := {| LogStreamViewer.id := "log-1"; LogStreamViewer.ts := -200;
                LogStreamViewer.level := LogStreamViewer.INFO;
                LogStreamViewer.message := "Database query executed";
                LogStreamViewer._lc := "database query executed" |} in
  LogStreamViewer.id log = "log-" ++ pretty 1 /\
  LogStreamViewer.ts log = (0 - (Z.of_nat 3 - Z.of_nat 1) * 100)%Z.
Proof.
  intros log.
  apply (proj1 (proj2 (generateMockLogs_shape 3 0 (fun i => i) (fun i => i)))
           1 log).
  reflexivity.
Defined.

(** X20: the buffer of the page always holds exactly 1000 records, namely
    the last 1000 of the seed followed by the entries of the interval: the
    seed has 1000, and every append drops the oldest record for the new
    one. Every record in it, the hand-written entry of the interval
    included, carries the lowercase projection of its message, and after
    a tick the newest record is the last one. *)
Theorem BuildChallengePage_buffer_is_full :
  forall (now : Z) (rl rm : nat -> nat) (ticks : list (Z * nat)),
    let buffer :=
      MockLogs.pageRun (MockLogs.generateMockLogs 1000 now rl rm) ticks in
    List.length buffer = 1000 /\
    buffer
    = Spec.last_n 1000
        (MockLogs.generateMockLogs 1000 now rl rm
         ++ map (fun t => MockLogs.newLog t.1 t.2) ticks) /\
    List.Forall Spec.lc_precomputed buffer /\
    (forall (earlier : list (Z * nat)) (t : Z) (r : nat),
        ticks = (earlier ++ [(t, r)])%list ->
        List.last buffer (MockLogs.newLog t r) = MockLogs.newLog t r /\
        buffer !! 999 = Some (MockLogs.newLog t r)).
Proof.
  intros now rl rm ticks buffer.
  destruct (generateMockLogs_length_lc 1000 now rl rm) as [Hlen Hlc].
  destruct (pageRun_inv _ ticks Hlen Hlc) as [Hl Hf].
  fold buffer in Hl, Hf. split; [exact Hl|].
  split; [exact (pageRun_last_n _ ticks Hlen)|]. split; [exact Hf|].
  intros earlier t r ->. subst buffer.
  unfold MockLogs.pageRun in *. rewrite fold_left_app in *. simpl in *.
  unfold BuildChallengePage.append at 1 3.
  split.
  - apply List.last_last.
  - unfold BuildChallengePage.append at 1 in Hl.
    rewrite length_app in Hl. simpl in Hl.
    rewrite lookup_app_r by (unfold BuildChallengePage.KEEP in Hl; lia).
    replace (999 - _) with 0 by (unfold BuildChallengePage.KEEP in Hl; lia).
    reflexivity.
Qed.

Lemma BuildChallengePage_buffer_is_full_witness :
  let buffer :=
    MockLogs.pageRun (MockLogs.generateMockLogs 1000 0 (fun i => i) (fun i => i))
      ([] ++ [(5%Z, 2)]) in
  List.last buffer (MockLogs.newLog 5 2) = MockLogs.newLog 5 2 /\
  buffer !! 999 = Some (MockLogs.newLog 5 2).
Proof.
  apply (proj2 (proj2 (proj2 (BuildChallengePage_buffer_is_full 0
                                (fun i => i) (fun i => i)
                                ([] ++ [(5%Z, 2)])))) [] 5%Z 2).
  reflexivity.
Defined.

(** ** The mock log stream *)
Section MockStream.
Import MockLogStream.

Lemma stream_ids_consecutive_step (s : Stream) (ev : StreamEvent) :
  Props.stream_ids_consecutive s ->
  Props.stream_ids_consecutive (useLogStream_step s ev).
Proof.
  unfold Props.stream_ids_consecutive. intros [Hlen Hids].
  destruct ev as [| |e| |]; simpl.
  - destruct (connectTimeout s); split; assumption.
  - destruct (streamTimeout s); split; assumption.
  - destruct (interval s); [|split; assumption]. simpl. split.
    + rewrite length_app. simpl. lia.
    + intros i log Hl. rewrite length_app. simpl.
      destruct (decide (i < List.length (logs s))) as [Hi|Hi].
      * rewrite lookup_app_l in Hl by exact Hi.
        rewrite (Hids i log Hl). do 2 f_equal. lia.
      * rewrite lookup_app_r in Hl by lia.
        destruct (i - List.length (logs s)) as [|k] eqn:Ek; [|discriminate].
        simpl in Hl. injection Hl as <-. simpl. do 2 f_equal. lia.
  - split; simpl; [lia | intros i log Hl; discriminate].
  - split; assumption.
Qed.

Lemma stream_ids_consecutive_run (s : Stream) (evs : list StreamEvent) :
  Props.stream_ids_consecutive s ->
  Props.stream_ids_consecutive (useLogStream_run s evs).
Proof.
  revert s. induction evs as [|ev evs IH]; intros s Inv; simpl; [exact Inv|].
  apply IH, stream_ids_consecutive_step, Inv.
Qed.

Lemma NoDup_of_ids (l : list LogEntry) (base : nat) :
  (forall i log, l !! i = Some log -> id log = "log-" ++ pretty (base + i)) ->
  NoDup (map id l).
Proof.
  intros Hids. apply NoDup_alt. intros i j x Hi Hj.
  rewrite lookup_map in Hi, Hj.
  destruct (l !! i) as [a|] eqn:Ea; [|discriminate].
  destruct (l !! j) as [b|] eqn:Eb; [|discriminate].
  simpl in Hi, Hj. injection Hi as <-. injection Hj as Hj.
  rewrite (Hids i a Ea), (Hids j b Eb) in Hj.
  apply log_id_inj in Hj. lia.
Qed.
End MockStream.

(** X21: the ids of the mock log stream never repeat: whatever the order
    of timer firings and clicks on Clear, the records in [logs] carry the
    ids of consecutive generation numbers, ending with the last one
    generated, and are pairwise distinct. The counter is not reset by
    Clear, so ids are not reused afterwards. *)
Theorem useLogStream_ids_are_distinct :
  forall evs : list MockLogStream.StreamEvent,
    let s := MockLogStream.useLogStream_run
               MockLogStream.useLogStream_mount evs in
    List.length (MockLogStream.logs s) <= MockLogStream.counter s /\
    (forall (i : nat) (log : MockLogStream.LogEntry),
        MockLogStream.logs s !! i = Some log ->
        MockLogStream.id log
        = "log-" ++ pretty (MockLogStream.counter s
                            - List.length (MockLogStream.logs s) + i)) /\
    NoDup (map MockLogStream.id (MockLogStream.logs s)).
Proof.
  intros evs s.
  assert (Inv : Props.stream_ids_consecutive s).
  { apply stream_ids_consecutive_run. split; simpl; [lia|].
    intros i log Hl. discriminate. }
  destruct Inv as [Hlen Hids]. split; [exact Hlen|]. split; [exact Hids|].
  eapply NoDup_of_ids. exact Hids.
Qed.

Lemma useLogStream_ids_are_distinct_witness :
  let e := {| MockLogStream.r_level := 4; MockLogStream.r_message := 2;
              MockLogStream.with_metadata := false; MockLogStream.r_user := 0;
              MockLogStream.r_duration := 0; MockLogStream.date_now := 9 |} in
  let s := MockLogStream.useLogStream_run MockLogStream.useLogStream_mount
             [MockLogStream.StreamTimeoutFires; MockLogStream.IntervalFires e;
              MockLogStream.ClearLogs; MockLogStream.IntervalFires e] in
  MockLogStream.id (MockLogStream.generateRandomLog 1 e)
  = "log-" ++ pretty (MockLogStream.counter s
                      - List.length (MockLogStream.logs s) + 0).
Proof.
  intros e s.
  apply (proj1 (proj2 (useLogStream_ids_are_distinct
                         [MockLogStream.StreamTimeoutFires;
                          MockLogStream.IntervalFires e;
                          MockLogStream.ClearLogs;
                          MockLogStream.IntervalFires e]))
           0 (MockLogStream.generateRandomLog 1 e)).
  reflexivity.
Defined.

(** X22: the life cycle of the mock log stream. No record is generated
    before the stream timeout has fired, and the hook reports a connection
    only after the connect timeout has fired. After the unmount every
    timer is cleared: no timer firing changes the state any more. *)
Theorem useLogStream_timers :
  (forall evs : list MockLogStream.StreamEvent,
      ~ In MockLogStream.StreamTimeoutFires evs ->
      MockLogStream.logs
        (MockLogStream.useLogStream_run MockLogStream.useLogStream_mount evs)
      = []) /\
  (forall evs : list MockLogStream.StreamEvent,
      ~ In MockLogStream.ConnectTimeoutFires evs ->
      MockLogStream.isConnected
        (MockLogStream.useLogStream_run MockLogStream.useLogStream_mount evs)
      = false) /\
  (forall (s : MockLogStream.Stream) (evs : list MockLogStream.StreamEvent),
      List.Forall Props.not_clear evs ->
      MockLogStream.useLogStream_run
        (MockLogStream.useLogStream_step s MockLogStream.Unmount) evs
      = MockLogStream.useLogStream_step s MockLogStream.Unmount).
Proof.
  split; [|split].
  - assert (H : forall evs s,
              ~ In MockLogStream.StreamTimeoutFires evs ->
              MockLogStream.interval s = false -> MockLogStream.logs s = [] ->
              MockLogStream.logs (MockLogStream.useLogStream_run s evs) = []).
    { induction evs as [|ev evs IH]; intros s Hn Hi Hl; simpl; [exact Hl|].
      apply IH.
      - intros Hin. apply Hn. now right.
      - destruct ev; simpl; rewrite ?Hi; try reflexivity; try assumption.
        + now destruct (MockLogStream.connectTimeout s).
        + exfalso. apply Hn. now left.
      - destruct ev; simpl; rewrite ?Hi; try reflexivity; try assumption.
        + now destruct (MockLogStream.connectTimeout s).
        + exfalso. apply Hn. now left. }
    intros evs Hn. now apply H.
  - assert (H : forall evs s,
              ~ In MockLogStream.ConnectTimeoutFires evs ->
              MockLogStream.isConnected s = false ->
              MockLogStream.isConnected
                (MockLogStream.useLogStream_run s evs) = false).
    { induction evs as [|ev evs IH]; intros s Hn Hc; simpl; [exact Hc|].
      apply IH.
      - intros Hin. apply Hn. now right.
      - destruct ev; simpl; try assumption.
        + exfalso. apply Hn. now left.
        + now destruct (MockLogStream.streamTimeout s).
        + now destruct (MockLogStream.interval s). }
    intros evs Hn. now apply H.
  - intros s evs Hall. induction Hall as [|ev evs Hev Hall IH]; [reflexivity|].
    simpl in *. destruct ev; simpl in *; try exact IH. contradiction.
Qed.

Lemma useLogStream_timers_witness :
  MockLogStream.logs
    (MockLogStream.useLogStream_run MockLogStream.useLogStream_mount
       [MockLogStream.ConnectTimeoutFires]) = [] /\
  MockLogStream.isConnected
    (MockLogStream.useLogStream_run MockLogStream.useLogStream_mount
       [MockLogStream.StreamTimeoutFires]) = false /\
  MockLogStream.useLogStream_run
    (MockLogStream.useLogStream_step MockLogStream.useLogStream_mount
       MockLogStream.Unmount)
    [MockLogStream.StreamTimeoutFires; MockLogStream.ConnectTimeoutFires]
  = MockLogStream.useLogStream_step MockLogStream.useLogStream_mount
      MockLogStream.Unmount.
Proof.
  split; [|split].
  - apply (proj1 useLogStream_timers). intros [H|[]]. discriminate.
  - apply (proj1 (proj2 useLogStream_timers)). intros [H|[]]. discriminate.
  - apply (proj2 (proj2 useLogStream_timers)). repeat constructor.
Defined.

(** ** The mock socket *)
Section MockSocket.
Import MockEventStream.

Lemma messagesOf_app (xs ys : list Delivery) :
  Props.messagesOf (xs ++ ys)
  = (Props.messagesOf xs ++ Props.messagesOf ys)%list.
Proof.
  induction xs as [|[|ev|] xs IH]; simpl; [reflexivity | exact IH | | exact IH].
  now rewrite IH.
Qed.

(** A socket that is closed and no longer connecting stays silent. *)
Lemma closed_socket_step (s : Socket) (ev : SocketEvent) :
  connecting s = false -> interval s = false ->
  connecting (socket_step s ev) = false /\
  interval (socket_step s ev) = false /\
  Props.messagesOf (delivered (socket_step s ev))
  = Props.messagesOf (delivered s) /\
  (In OnOpen (delivered (socket_step s ev)) -> In OnOpen (delivered s)).
Proof.
  intros Hc Hi. destruct ev as [|e| | |]; simpl; rewrite ?Hc, ?Hi; simpl.
  - tauto.
  - tauto.
  - unfold deliver. destruct (handlers s); simpl.
    + rewrite messagesOf_app. simpl. rewrite app_nil_r.
      repeat split; try reflexivity.
      intros Hin. apply in_app_or in Hin as [Hin|[Hin|[]]];
        [exact Hin | discriminate].
    + tauto.
  - tauto.
  - tauto.
Qed.

Lemma closed_socket_run (evs : list SocketEvent) (s : Socket) :
  connecting s = false -> interval s = false ->
  Props.messagesOf (delivered (socket_run s evs))
  = Props.messagesOf (delivered s) /\
  (In OnOpen (delivered (socket_run s evs)) -> In OnOpen (delivered s)) /\
  interval (socket_run s evs) = false.
Proof.
  revert s. induction evs as [|ev evs IH]; intros s Hc Hi; simpl.
  - tauto.
  - destruct (closed_socket_step s ev Hc Hi) as [Hc' [Hi' [Hm Ho]]].
    destruct (IH _ Hc' Hi') as [Hm' [Ho' Hi'']].
    split; [congruence|]. split; [tauto | exact Hi''].
Qed.

Lemma sorted_snoc (ns : list nat) (c : nat) :
  StronglySorted lt ns -> List.Forall (fun n => n < c) ns ->
  StronglySorted lt (ns ++ [c]).
Proof.
  induction 1 as [|n ns Hs IH Hn]; intros Hc; simpl.
  - repeat constructor.
  - inversion Hc as [|n' ns' Hnc Hc']; subst. constructor.
    + now apply IH.
    + apply List.Forall_app. split; [exact Hn | now constructor].
Qed.

(** Whatever the owner does with its handlers, the messages delivered
    carry ascending counter values below the counter. *)
Lemma ascending_step (s : Socket) (ev : SocketEvent) (ns : list nat) :
  List.Forall2 Props.built_with (Props.messagesOf (delivered s)) ns ->
  StronglySorted lt ns -> List.Forall (fun n => n < counter s) ns ->
  exists ns' : list nat,
    List.Forall2 Props.built_with
      (Props.messagesOf (delivered (socket_step s ev))) ns' /\
    StronglySorted lt ns' /\
    List.Forall (fun n => n < counter (socket_step s ev)) ns'.
Proof.
  intros Hb Hs Hc. destruct ev as [|e| | |]; simpl.
  - destruct (connecting s); simpl; [|now exists ns].
    unfold deliver. destruct (handlers s); simpl; [|now exists ns].
    rewrite messagesOf_app. simpl. rewrite app_nil_r. now exists ns.
  - destruct (interval s); simpl; [|now exists ns].
    destruct (negb _); simpl; [now exists ns|].
    assert (Hc' : List.Forall (fun n => n < S (counter s)) ns).
    { eapply List.Forall_impl; [|exact Hc]. simpl. intros n Hn. lia. }
    unfold deliver. destruct (handlers s); simpl; [|now exists ns].
    exists (ns ++ [counter s])%list. rewrite messagesOf_app. simpl.
    split; [|split].
    + apply List.Forall2_app; [exact Hb|]. constructor; [|constructor].
      exists e. split; reflexivity.
    + now apply sorted_snoc.
    + apply List.Forall_app. split; [exact Hc'|]. constructor; [lia|constructor].
  - unfold deliver. destruct (handlers s); simpl; [|now exists ns].
    rewrite messagesOf_app. simpl. rewrite app_nil_r. now exists ns.
  - now exists ns.
  - now exists ns.
Qed.

Lemma ascending_run (evs : list SocketEvent) (s : Socket) (ns : list nat) :
  List.Forall2 Props.built_with (Props.messagesOf (delivered s)) ns ->
  StronglySorted lt ns -> List.Forall (fun n => n < counter s) ns ->
  exists ns' : list nat,
    List.Forall2 Props.built_with
      (Props.messagesOf (delivered (socket_run s evs))) ns' /\
    StronglySorted lt ns' /\
    List.Forall (fun n => n < counter (socket_run s evs)) ns'.
Proof.
  revert s ns. induction evs as [|ev evs IH]; intros s ns Hb Hs Hc; simpl.
  - now exists ns.
  - destruct (ascending_step s ev ns Hb Hs Hc) as [ns' [Hb' [Hs' Hc']]].
    exact (IH _ ns' Hb' Hs' Hc').
Qed.

Lemma delivered_at_most_counter (evs : list SocketEvent) (s : Socket) :
  List.length (Props.messagesOf (delivered s)) <= counter s ->
  List.length (Props.messagesOf (delivered (socket_run s evs)))
  <= counter (socket_run s evs).
Proof.
  revert s. induction evs as [|ev evs IH]; intros s Hl; simpl; [exact Hl|].
  apply IH. destruct ev as [|e| | |]; simpl.
  - destruct (connecting s); simpl; [|exact Hl].
    unfold deliver. destruct (handlers s); simpl; [|exact Hl].
    rewrite messagesOf_app. simpl. now rewrite app_nil_r.
  - destruct (interval s); simpl; [|exact Hl].
    destruct (negb _); simpl; [exact Hl|].
    unfold deliver. destruct (handlers s); simpl; [|lia].
    rewrite messagesOf_app, length_app. simpl. lia.
  - unfold deliver. destruct (handlers s); simpl; [|exact Hl].
    rewrite messagesOf_app. simpl. now rewrite app_nil_r.
  - exact Hl.
  - exact Hl.
Qed.

(** As long as the handlers are never cleared, the messages delivered are
    numbered by the counter. *)
Lemma numbered_step (s : Socket) (ev : SocketEvent) :
  ev <> HandlersCleared ->
  handlers s = true ->
  List.length (Props.messagesOf (delivered s)) = counter s ->
  (forall k x, Props.messagesOf (delivered s) !! k = Some x ->
               exists e, x = makeEvent k e) ->
  handlers (socket_step s ev) = true /\
  List.length (Props.messagesOf (delivered (socket_step s ev)))
  = counter (socket_step s ev) /\
  (forall k x, Props.messagesOf (delivered (socket_step s ev)) !! k = Some x ->
               exists e, x = makeEvent k e).
Proof.
  intros Hev Hh Hlen Hnum. destruct ev as [|e| | |]; simpl.
  - destruct (connecting s); simpl; [|tauto].
    unfold deliver. rewrite Hh. simpl.
    rewrite messagesOf_app. simpl. rewrite app_nil_r. tauto.
  - destruct (interval s); simpl; [|tauto].
    destruct (negb _); simpl; [tauto|].
    unfold deliver. rewrite Hh. simpl.
    rewrite messagesOf_app. simpl. split; [reflexivity|]. split.
    + rewrite length_app. simpl. lia.
    + intros k x Hk.
      destruct (decide (k < List.length (Props.messagesOf (delivered s))))
        as [Hlt|Hge].
      * rewrite lookup_app_l in Hk by exact Hlt. now apply Hnum.
      * rewrite lookup_app_r in Hk by lia.
        destruct (k - List.length (Props.messagesOf (delivered s)))
          as [|k'] eqn:Ek; [|discriminate].
        simpl in Hk. injection Hk as <-. exists e. f_equal. lia.
  - unfold deliver. rewrite Hh. simpl.
    rewrite messagesOf_app. simpl. rewrite app_nil_r. tauto.
  - contradiction.
  - tauto.
Qed.

Lemma numbered_run (evs : list SocketEvent) (s : Socket) :
  ~ In HandlersCleared evs ->
  handlers s = true ->
  List.length (Props.messagesOf (delivered s)) = counter s ->
  (forall k x, Props.messagesOf (delivered s) !! k = Some x ->
               exists e, x = makeEvent k e) ->
  List.length (Props.messagesOf (delivered (socket_run s evs)))
  = counter (socket_run s evs) /\
  (forall k x, Props.messagesOf (delivered (socket_run s evs)) !! k = Some x ->
               exists e, x = makeEvent k e).
Proof.
  revert s. induction evs as [|ev evs IH]; intros s Hno Hh Hlen Hnum; simpl;
    [tauto|].
  destruct (numbered_step s ev) as [Hh' [Hlen' Hnum']]; try assumption.
  - intros ->. apply Hno. now left.
  - apply IH; try assumption. intros Hin. apply Hno. now right.
Qed.
End MockSocket.

(** X23: once a mock socket that has finished connecting is closed, it
    stays silent: whatever fires or is called afterwards, no further
    message and no further open is delivered, and the interval stays
    cleared. *)
Theorem closed_socket_is_silent :
  forall (s : MockEventStream.Socket) (evs : list MockEventStream.SocketEvent),
    MockEventStream.connecting s = false ->
    let closed := MockEventStream.socket_step s MockEventStream.CloseCalled in
    let s' := MockEventStream.socket_run closed evs in
    Props.messagesOf (MockEventStream.delivered s')
    = Props.messagesOf (MockEventStream.delivered s) /\
    (In MockEventStream.OnOpen (MockEventStream.delivered s') ->
     In MockEventStream.OnOpen (MockEventStream.delivered s)) /\
    MockEventStream.interval s' = false.
Proof.
  intros s evs Hc closed s'.
  destruct (closed_socket_run evs closed) as [Hm [Ho Hi]];
    [exact Hc | reflexivity |].
  fold s' in Hm, Ho, Hi.
  assert (Hcl : Props.messagesOf (MockEventStream.delivered closed)
                = Props.messagesOf (MockEventStream.delivered s) /\
                (In MockEventStream.OnOpen (MockEventStream.delivered closed) ->
                 In MockEventStream.OnOpen (MockEventStream.delivered s))).
  { subst closed. simpl. unfold MockEventStream.deliver.
    destruct (MockEventStream.handlers s); simpl; [|tauto].
    rewrite messagesOf_app. simpl. rewrite app_nil_r. split; [reflexivity|].
    intros Hin. apply in_app_or in Hin as [Hin|[Hin|[]]];
      [exact Hin | discriminate]. }
  destruct Hcl as [Hcm Hco].
  split; [congruence|]. split; [tauto | exact Hi].
Qed.

Lemma closed_socket_is_silent_witness :
  let s := MockEventStream.socket_run MockEventStream.MockWebSocket
             [MockEventStream.ConnectTimeoutFires] in
  let closed := MockEventStream.socket_step s MockEventStream.CloseCalled in
  let s' := MockEventStream.socket_run closed
              [MockEventStream.IntervalFires
                 {| MockEventStream.r_type := 0;
                    MockEventStream.r_message := 0;
                    MockEventStream.date_now := 5 |};
               MockEventStream.ConnectTimeoutFires] in
  Props.messagesOf (MockEventStream.delivered s')
  = Props.messagesOf (MockEventStream.delivered s) /\
  (In MockEventStream.OnOpen (MockEventStream.delivered s') ->
   In MockEventStream.OnOpen (MockEventStream.delivered s)) /\
  MockEventStream.interval s' = false.
Proof.
  intros s.
  apply (closed_socket_is_silent s). reflexivity.
Defined.

(** X24: closing a mock socket that is still connecting does not cancel
    its connection timeout: when the timeout fires, the socket is open
    again, its interval runs, and every firing of the interval takes a new
    counter value; with the handlers still set, the open and the messages
    are delivered after the close. *)
Theorem socket_closed_while_connecting_reopens :
  forall (s : MockEventStream.Socket) (e : MockEventStream.Entropy),
    MockEventStream.connecting s = true ->
    let closed := MockEventStream.socket_step s MockEventStream.CloseCalled in
    let s' := MockEventStream.socket_step closed
                MockEventStream.ConnectTimeoutFires in
    let s'' := MockEventStream.socket_step s'
                 (MockEventStream.IntervalFires e) in
    MockEventStream.readyState closed = 3 /\
    MockEventStream.readyState s' = 1 /\
    MockEventStream.interval s' = true /\
    MockEventStream.counter s'' = S (MockEventStream.counter s) /\
    (MockEventStream.handlers s = true ->
     MockEventStream.delivered s''
     = (MockEventStream.delivered s
        ++ [MockEventStream.OnClose; MockEventStream.OnOpen;
            MockEventStream.OnMessage
              (MockEventStream.makeEvent (MockEventStream.counter s) e)])%list).
Proof.
  intros s e Hc closed s' s''. subst closed s' s''. simpl.
  rewrite Hc. simpl. repeat split.
  intros Hh. unfold MockEventStream.deliver. simpl. rewrite Hh. simpl.
  rewrite <- !app_assoc. reflexivity.
Qed.

Lemma socket_closed_while_connecting_reopens_witness :
  let s := MockEventStream.MockWebSocket in
  let e := {| MockEventStream.r_type := 1; MockEventStream.r_message := 2;
              MockEventStream.date_now := 7 |} in
  let closed := MockEventStream.socket_step s MockEventStream.CloseCalled in
  let s' := MockEventStream.socket_step closed
              MockEventStream.ConnectTimeoutFires in
  let s'' := MockEventStream.socket_step s' (MockEventStream.IntervalFires e) in
  MockEventStream.readyState closed = 3 /\
  MockEventStream.readyState s' = 1 /\
  MockEventStream.interval s' = true /\
  MockEventStream.counter s'' = S (MockEventStream.counter s) /\
  (MockEventStream.handlers s = true ->
   MockEventStream.delivered s''
   = (MockEventStream.delivered s
      ++ [MockEventStream.OnClose; MockEventStream.OnOpen;
          MockEventStream.OnMessage
            (MockEventStream.makeEvent (MockEventStream.counter s) e)])%list).
Proof.
  intros s e.
  apply (socket_closed_while_connecting_reopens s e). reflexivity.
Defined.

(** X25: the numbering of the messages of a mock socket. Whatever happens
    to a new socket, a clearing and a new setting of the handlers
    included, the messages delivered were built with strictly ascending
    counter values below the counter, and there are at most as many as the
    counter says. The counter advances also while the handlers are
    cleared: a message due then is lost and its number skipped, so after
    the handlers are set again the numbers go on beyond the gap. When the
    handlers are never cleared, the k-th message delivered is the one
    built with counter value k, and the number delivered is the counter. *)
Theorem socket_messages_are_numbered :
  (forall evs : list MockEventStream.SocketEvent,
      let s := MockEventStream.socket_run MockEventStream.MockWebSocket evs in
      (exists ns : list nat,
          List.Forall2 Props.built_with
            (Props.messagesOf (MockEventStream.delivered s)) ns /\
          StronglySorted lt ns /\
          List.Forall (fun n => n < MockEventStream.counter s) ns) /\
      List.length (Props.messagesOf (MockEventStream.delivered s))
      <= MockEventStream.counter s /\
      (~ In MockEventStream.HandlersCleared evs ->
       List.length (Props.messagesOf (MockEventStream.delivered s))
       = MockEventStream.counter s /\
       forall (k : nat) (x : EventViewer.Event),
         Props.messagesOf (MockEventStream.delivered s) !! k = Some x ->
         Props.built_with x k)) /\
  (forall (s : MockEventStream.Socket) (e1 e2 : MockEventStream.Entropy),
      MockEventStream.interval s = true ->
      MockEventStream.readyState s = 1 ->
      let s' := MockEventStream.socket_run s
                  [MockEventStream.HandlersCleared;
                   MockEventStream.IntervalFires e1;
                   MockEventStream.HandlersSet;
                   MockEventStream.IntervalFires e2] in
      Props.messagesOf (MockEventStream.delivered s')
      = (Props.messagesOf (MockEventStream.delivered s)
         ++ [MockEventStream.makeEvent (S (MockEventStream.counter s)) e2])%list /\
      MockEventStream.counter s' = S (S (MockEventStream.counter s))).
Proof.
  split.
  - intros evs s. split; [|split].
    + apply (ascending_run evs MockEventStream.MockWebSocket []);
        constructor.
    + apply delivered_at_most_counter. simpl. lia.
    + intros Hno.
      destruct (numbered_run evs MockEventStream.MockWebSocket Hno)
        as [Hl Hn]; [reflexivity | reflexivity | |].
      * intros k x Hk. discriminate.
      * split; [exact Hl|]. intros k x Hk.
        destruct (Hn k x Hk) as [e ->]. exists e. split; reflexivity.
  - intros s e1 e2 Hi Hr s'. subst s'.
    unfold MockEventStream.socket_run. simpl. rewrite Hi, Hr. simpl.
    unfold MockEventStream.deliver. simpl.
    rewrite messagesOf_app. split; reflexivity.
Qed.

Lemma socket_messages_are_numbered_witness :
  let e := {| MockEventStream.r_type := 2; MockEventStream.r_message := 2;
              MockEventStream.date_now := 5 |} in
  (let s := MockEventStream.socket_run MockEventStream.MockWebSocket
              [MockEventStream.ConnectTimeoutFires;
               MockEventStream.IntervalFires e;
               MockEventStream.HandlersSet;
               MockEventStream.IntervalFires e] in
   List.length (Props.messagesOf (MockEventStream.delivered s))
   = MockEventStream.counter s /\
   forall (k : nat) (x : EventViewer.Event),
     Props.messagesOf (MockEventStream.delivered s) !! k = Some x ->
     Props.built_with x k) /\
  (let s := MockEventStream.socket_run MockEventStream.MockWebSocket
              [MockEventStream.ConnectTimeoutFires;
               MockEventStream.IntervalFires e] in
   let s' := MockEventStream.socket_run s
               [MockEventStream.HandlersCleared;
                MockEventStream.IntervalFires e;
                MockEventStream.HandlersSet;
                MockEventStream.IntervalFires e] in
   Props.messagesOf (MockEventStream.delivered s')
   = (Props.messagesOf (MockEventStream.delivered s)
      ++ [MockEventStream.makeEvent (S (MockEventStream.counter s)) e])%list /\
   MockEventStream.counter s' = S (S (MockEventStream.counter s))).
Proof.
  intros e. split.
  - apply (proj2 (proj2 (proj1 socket_messages_are_numbered
                           [MockEventStream.ConnectTimeoutFires;
                            MockEventStream.IntervalFires e;
                            MockEventStream.HandlersSet;
                            MockEventStream.IntervalFires e]))).
    intros [H|[H|[H|[H|[]]]]]; discriminate.
  - apply (proj2 socket_messages_are_numbered); reflexivity.
Defined.

(** ** EventViewer: delay, filter and search *)
Section DelayFacts.
Import EventViewer EventViewerRest.

Lemma delay_settled_stays (evs : list DelayEvent) (d : Delay)
    (o : Settled unit) :
  settled d = Some o -> timer d = false ->
  settled (delay_run d evs) = Some o /\ timer (delay_run d evs) = false.
Proof.
  revert d. induction evs as [|ev evs IH]; intros d Hs Ht; simpl; [tauto|].
  assert (Hstep : settled (delay_step d ev) = Some o /\
                  timer (delay_step d ev) = false).
  { destruct ev; simpl.
    - rewrite Ht. tauto.
    - destruct (listener d); simpl; [|tauto].
      unfold settle_once. rewrite Hs. tauto. }
  apply IH; tauto.
Qed.

Lemma delay_never_rejects_without_signal (evs : list DelayEvent) (d : Delay) :
  listener d = false ->
  (settled d = None \/ settled d = Some (Resolved tt)) ->
  settled (delay_run d evs) = None \/
  settled (delay_run d evs) = Some (Resolved tt).
Proof.
  revert d. induction evs as [|ev evs IH]; intros d Hl Hs; simpl; [exact Hs|].
  assert (Hstep : listener (delay_step d ev) = false /\
                  (settled (delay_step d ev) = None \/
                   settled (delay_step d ev) = Some (Resolved tt))).
  { destruct ev; simpl.
    - destruct (timer d); simpl; [|tauto]. split; [exact Hl|]. right.
      unfold settle_once. destruct Hs as [-> | ->]; reflexivity.
    - rewrite Hl. tauto. }
  apply IH; tauto.
Qed.
End DelayFacts.

(** X26: the promise of [delay]. With a signal that is already aborted it
    rejects at once and sets no timer. With a live signal, whichever of
    the abort and the timer comes first decides for good: an abort first
    gives the rejection "AbortError", which [isAbortError] recognises, and
    leaves no timer behind; the timer first gives the fulfilment, which a
    later abort does not change. Without a signal it never rejects. *)
Theorem delay_settles_once :
  let abortError := EventViewer.DOMException "AbortError" "Aborted" in
  forall evs : list EventViewerRest.DelayEvent,
    EventViewer.isAbortError abortError = true /\
    (let d := EventViewerRest.delay_run (EventViewerRest.delay (Some true)) evs in
     EventViewerRest.settled d = Some (EventViewer.Rejected abortError) /\
     EventViewerRest.timer d = false) /\
    (let d := EventViewerRest.delay_run (EventViewerRest.delay (Some false))
                (EventViewerRest.SignalAborts :: evs) in
     EventViewerRest.settled d = Some (EventViewer.Rejected abortError) /\
     EventViewerRest.timer d = false) /\
    (let d := EventViewerRest.delay_run (EventViewerRest.delay (Some false))
                (EventViewerRest.TimerFires :: evs) in
     EventViewerRest.settled d = Some (EventViewer.Resolved tt) /\
     EventViewerRest.timer d = false) /\
    (let d := EventViewerRest.delay_run (EventViewerRest.delay None) evs in
     EventViewerRest.settled d = None \/
     EventViewerRest.settled d = Some (EventViewer.Resolved tt)).
Proof.
  intros abortError evs. split; [reflexivity|].
  split; [|split; [|split]].
  - cbv zeta. apply delay_settled_stays; reflexivity.
  - cbv zeta. unfold EventViewerRest.delay_run. cbn [fold_left].
    apply (delay_settled_stays evs); reflexivity.
  - cbv zeta. unfold EventViewerRest.delay_run. cbn [fold_left].
    apply (delay_settled_stays evs); reflexivity.
  - cbv zeta.
    apply delay_never_rejects_without_signal; [reflexivity | now left].
Qed.

Section SearchFacts.
Import EventViewer EventViewerRest.

Lemma filter_sublist {A} (f : A -> bool) (l : list A) :
  sublist (List.filter f l) l.
Proof.
  induction l as [|x l IH]; simpl; [constructor|].
  destruct (f x); now constructor.
Qed.

Lemma filter_comm {A} (f g : A -> bool) (l : list A) :
  List.filter f (List.filter g l) = List.filter g (List.filter f l).
Proof.
  induction l as [|x l IH]; simpl; [reflexivity|].
  destruct (f x) eqn:Ef, (g x) eqn:Eg; simpl; rewrite ?Ef, ?Eg, IH; reflexivity.
Qed.

Lemma filter_length_le {A} (f : A -> bool) (l : list A) :
  List.length (List.filter f l) <= List.length l.
Proof.
  induction l as [|x l IH]; simpl; [lia|]. destruct (f x); simpl; lia.
Qed.

Lemma searchedEvents_length (fe : list Event) (q : string) (cs : bool) :
  List.length (searchedEvents fe q cs) <= List.length fe.
Proof.
  unfold searchedEvents. destruct (negb _); [lia|].
  destruct cs; apply filter_length_le.
Qed.

Lemma applyFilter_length (ev : list Event) (f : FilterValue) :
  List.length (applyFilter ev f) <= List.length ev.
Proof. destruct f; simpl; [lia | apply filter_length_le]. Qed.

Lemma EventType_eqb_eq (a b : EventType) : EventType_eqb a b = true <-> a = b.
Proof. destruct a, b; simpl; split; congruence. Qed.
End SearchFacts.

(** X27: the search of the event viewer keeps the order of the filtered
    events and drops nothing else than the events that do not match: an
    event is shown iff it is among the filtered events and the query is
    empty or occurs in its message, both taken in lower case unless the
    search is case sensitive. The query is not trimmed, so white space in
    it must occur in the message. Two queries with the same lowercase
    form show the same events. *)
Theorem searchedEvents_exact :
  (forall (filteredEvents : list EventViewer.Event) (q : string)
          (caseSensitive : bool),
      sublist (EventViewerRest.searchedEvents filteredEvents q caseSensitive)
        filteredEvents /\
      forall e : EventViewer.Event,
        In e (EventViewerRest.searchedEvents filteredEvents q caseSensitive)
        <-> In e filteredEvents /\
            (q = "" \/
             if caseSensitive
             then Spec.contains (EventViewer.message e) q
             else Spec.contains (JS.toLowerCase (EventViewer.message e))
                    (JS.toLowerCase q))) /\
  (forall (filteredEvents : list EventViewer.Event) (q q' : string),
      JS.toLowerCase q = JS.toLowerCase q' ->
      EventViewerRest.searchedEvents filteredEvents q false
      = EventViewerRest.searchedEvents filteredEvents q' false).
Proof.
  split.
  - intros fe q cs. unfold EventViewerRest.searchedEvents.
    destruct q as [|c q].
    + simpl. split; [reflexivity|]. intros e. split; [intros H; split; [exact H | now left] | tauto].
    + cbn [String.length Nat.ltb Nat.leb negb].
      destruct cs.
      * split; [apply filter_sublist|]. intros e.
        rewrite filter_In, includes_spec.
        split; [intros [H1 H2]; split; [exact H1 | now right]|].
        intros [H1 [H2|H2]]; [discriminate | split; assumption].
      * split; [apply filter_sublist|]. intros e.
        rewrite filter_In, includes_spec.
        split; [intros [H1 H2]; split; [exact H1 | now right]|].
        intros [H1 [H2|H2]]; [discriminate | split; assumption].
  - intros fe q q' H. unfold EventViewerRest.searchedEvents.
    assert (Hlen : String.length q = String.length q').
    { rewrite <- (toLowerCase_length q), <- (toLowerCase_length q'). now rewrite H. }
    rewrite Hlen, H. reflexivity.
Qed.

Lemma searchedEvents_exact_witness :
  EventViewerRest.searchedEvents [Samples.event1] "CLICKED" false
  = EventViewerRest.searchedEvents [Samples.event1] "clicked" false.
Proof.
  apply (proj2 searchedEvents_exact). reflexivity.
Defined.

(** X28: the type filter keeps exactly the events of the chosen type, in
    order, and "all" keeps everything; the filter and the search can be
    applied in either order with the same result; and the number shown
    never exceeds the number of events held. *)
Theorem filter_and_search_commute :
  forall (events : list EventViewer.Event) (f : EventViewer.FilterValue)
         (q : string) (caseSensitive : bool),
    EventViewer.applyFilter events EventViewer.All = events /\
    (forall (t : EventViewer.EventType) (e : EventViewer.Event),
        In e (EventViewer.applyFilter events (EventViewer.Only t))
        <-> In e events /\ EventViewer.type e = t) /\
    sublist (EventViewer.applyFilter events f) events /\
    EventViewerRest.searchedEvents (EventViewer.applyFilter events f) q
      caseSensitive
    = EventViewer.applyFilter
        (EventViewerRest.searchedEvents events q caseSensitive) f /\
    List.length
      (EventViewerRest.searchedEvents (EventViewer.applyFilter events f) q
         caseSensitive)
    <= List.length events.
Proof.
  intros events f q cs. split; [reflexivity|]. split; [|split; [|split]].
  - intros t e. simpl. rewrite filter_In, EventType_eqb_eq. reflexivity.
  - destruct f; simpl; [reflexivity | apply filter_sublist].
  - unfold EventViewerRest.searchedEvents.
    destruct (negb _); [reflexivity|].
    destruct f as [|t]; simpl; [now destruct cs|].
    destruct cs; apply filter_comm.
  - etransitivity; [apply searchedEvents_length | apply applyFilter_length].
Qed.

(** ** useAsyncMemo: the loading flag and the unmount *)
Section AsyncMemoMore.
Import EventViewer.
Context {T : Type}.
Implicit Types m : AsyncMemo T.

Lemma start_loading m : loading (start m) = true /\ error (start m) = None.
Proof. split; reflexivity. Qed.

Lemma settle_live_loading m (r : nat) (o : Settled T) :
  aborted m r = false -> loading (settle r o m) = false.
Proof.
  intros Ha. unfold settle.
  assert (H1 : forall m1, controllers m1 = controllers m ->
                          aborted m1 r = false).
  { intros m1 Hc. unfold aborted in *. now rewrite Hc. }
  destruct o as [next|err].
  - rewrite Ha. simpl. rewrite (H1 (setValue next m)) by reflexivity.
    reflexivity.
  - destruct (negb (isAbortError err)); simpl.
    + rewrite (H1 (setError err m)) by reflexivity. reflexivity.
    + rewrite Ha. reflexivity.
Qed.

Lemma settle_aborted_loading m (r : nat) (o : Settled T) :
  aborted m r = true ->
  loading (settle r o m) = loading m /\ value (settle r o m) = value m.
Proof.
  intros Ha. rewrite settle_aborted by exact Ha.
  destruct o as [next|err]; [split; reflexivity|].
  destruct (isAbortError err); split; reflexivity.
Qed.

Lemma superseded_is_aborted m (r : nat) :
  Spec.superseded_aborted m ->
  r < List.length (controllers m) -> live m <> Some r ->
  aborted m r = true.
Proof.
  intros Inv Hr Hl. unfold aborted. now rewrite (Inv r Hr Hl).
Qed.

Lemma unmounted_run (es : list (HookEvent T)) m :
  Spec.superseded_aborted m -> live m = None ->
  List.Forall (Props.settles_started (List.length (controllers m))) es ->
  value (useAsyncMemo_run m es) = value m /\
  loading (useAsyncMemo_run m es) = loading m /\
  controllers (useAsyncMemo_run m es) = controllers m.
Proof.
  revert m. induction es as [|e es IH]; intros m Inv Hl Hes; simpl;
    [repeat split|].
  inversion Hes as [|e' es' He Hes']; subst.
  destruct e as [|r o|]; simpl in He; try contradiction.
  simpl.
  destruct (settle_controllers m r o) as [Ec El].
  assert (Ha : aborted m r = true).
  { apply superseded_is_aborted; [exact Inv | exact He | congruence]. }
  destruct (settle_aborted_loading m r o Ha) as [Hload Hval].
  destruct (IH (settle r o m)) as [Hv [Hlo Hc]].
  - exact (superseded_aborted_step m (Settle r o) Inv).
  - congruence.
  - now rewrite Ec.
  - split; [congruence|]. split; congruence.
Qed.
End AsyncMemoMore.

(** X29: the [loading] flag of [useAsyncMemo] follows the live request.
    Starting a request sets [loading] and clears [error]; when that
    request settles, fulfilled or rejected, [loading] is cleared. In every
    state the hook can reach, the settlement of a request that is no
    longer the live one changes neither [loading] nor [value]; and after
    the unmount no settlement of a started request changes them, so a
    hook that is unmounted while loading stays so. *)
Theorem useAsyncMemo_loading_follows_live_request :
  (forall (T : Type) (m : EventViewer.AsyncMemo T) (o : EventViewer.Settled T),
      EventViewer.loading (EventViewer.start m) = true /\
      EventViewer.error (EventViewer.start m) = None /\
      EventViewer.loading
        (EventViewer.settle (List.length (EventViewer.controllers m)) o
           (EventViewer.start m)) = false) /\
  (forall (T : Type) (initialValue : T)
          (es : list (EventViewer.HookEvent T)) (r : nat)
          (o : EventViewer.Settled T),
      let m := EventViewer.useAsyncMemo_run
                 (EventViewer.useAsyncMemo_init initialValue) es in
      r < List.length (EventViewer.controllers m) ->
      EventViewer.live m <> Some r ->
      EventViewer.loading (EventViewer.settle r o m) = EventViewer.loading m /\
      EventViewer.value (EventViewer.settle r o m) = EventViewer.value m) /\
  (forall (T : Type) (initialValue : T)
          (es later : list (EventViewer.HookEvent T)),
      let m := EventViewer.useAsyncMemo_run
                 (EventViewer.useAsyncMemo_init initialValue)
                 (es ++ [EventViewer.Unmount]) in
      List.Forall
        (Props.settles_started (List.length (EventViewer.controllers m)))
        later ->
      EventViewer.value (EventViewer.useAsyncMemo_run m later)
      = EventViewer.value m /\
      EventViewer.loading (EventViewer.useAsyncMemo_run m later)
      = EventViewer.loading m).
Proof.
  split; [|split].
  - intros T m o. split; [reflexivity|]. split; [reflexivity|].
    apply settle_live_loading, start_fresh.
  - intros T initialValue es r o m Hr Hl.
    apply settle_aborted_loading, superseded_is_aborted; try assumption.
    apply superseded_aborted_run, superseded_aborted_init.
  - intros T initialValue es later m Hlater.
    assert (Inv : Spec.superseded_aborted m)
      by apply superseded_aborted_run, superseded_aborted_init.
    assert (Hlive : EventViewer.live m = None).
    { subst m. unfold EventViewer.useAsyncMemo_run. rewrite fold_left_app.
      cbn [fold_left EventViewer.useAsyncMemo_step].
      generalize (fold_left EventViewer.useAsyncMemo_step es
                    (EventViewer.useAsyncMemo_init initialValue)).
      intros m0. unfold EventViewer.cleanup.
      destruct (EventViewer.live m0) eqn:E; [reflexivity | exact E]. }
    destruct (unmounted_run later m Inv Hlive Hlater) as [Hv [Hl _]].
    split; assumption.
Qed.

Lemma useAsyncMemo_loading_follows_live_request_witness :
  (let m := EventViewer.useAsyncMemo_run (EventViewer.useAsyncMemo_init 0)
              [EventViewer.Start; EventViewer.Start] in
   EventViewer.loading
     (EventViewer.settle 0
        (EventViewer.Rejected (EventViewer.OtherError "boom")) m)
   = EventViewer.loading m /\
   EventViewer.value
     (EventViewer.settle 0
        (EventViewer.Rejected (EventViewer.OtherError "boom")) m)
   = EventViewer.value m) /\
  (let m := EventViewer.useAsyncMemo_run (EventViewer.useAsyncMemo_init 0)
              ([EventViewer.Start] ++ [EventViewer.Unmount]) in
   EventViewer.value
     (EventViewer.useAsyncMemo_run m
        [EventViewer.Settle 0 (EventViewer.Resolved 7)])
   = EventViewer.value m /\
   EventViewer.loading
     (EventViewer.useAsyncMemo_run m
        [EventViewer.Settle 0 (EventViewer.Resolved 7)])
   = EventViewer.loading m).
Proof.
  split.
  - apply (proj1 (proj2 useAsyncMemo_loading_follows_live_request) nat 0
             [EventViewer.Start; EventViewer.Start] 0).
    + vm_compute. lia.
    + vm_compute. discriminate.
  - apply (proj2 (proj2 useAsyncMemo_loading_follows_live_request) nat 0
             [EventViewer.Start]
             [EventViewer.Settle 0 (EventViewer.Resolved 7)]).
    constructor; [vm_compute; lia | constructor].
Defined.

(** ** EventViewer: the life of the socket effect *)
Section SocketEffect.
Import EventViewer.
Variable JSON_parse : string -> Completion Event.
Variable throws : Callback -> Event -> bool.

Lemma react_events (r : Reaction) c :
  exists added : list Event,
    events (react JSON_parse throws c r) = (events c ++ added)%list /\
    List.length added <= Props.messageCount [r].
Proof.
  destruct r as [cb started| | |data]; simpl.
  - exists []. split; [|simpl; lia]. rewrite app_nil_r.
    unfold rerender, socket_effect, useLatestRef_effect. simpl.
    destruct (decide (onEventReceived c = cb)); simpl;
      destruct (Bool.eqb (mockStarted c) started); reflexivity.
  - exists []. split; [|simpl; lia]. rewrite app_nil_r.
    unfold opened. now destruct (ws_handlers c).
  - exists []. split; [|simpl; lia]. rewrite app_nil_r.
    unfold closed. now destruct (ws_handlers c).
  - unfold dispatch. destruct (ws_handlers c).
    + destruct (JSON_parse data) as [event|e] eqn:Hp.
      * rewrite (onmessage_parsed JSON_parse throws data event) by exact Hp.
        exists [event]. split; [reflexivity | simpl; lia].
      * rewrite (onmessage_malformed JSON_parse throws data e) by exact Hp.
        exists []. split; [now rewrite app_nil_r | simpl; lia].
    + exists []. split; [now rewrite app_nil_r | simpl; lia].
Qed.

Lemma messageCount_cons (r : Reaction) (rs : list Reaction) :
  Props.messageCount (r :: rs) = Props.messageCount [r] + Props.messageCount rs.
Proof. destruct r; simpl; lia. Qed.

Lemma reactAll_events (rs : list Reaction) c :
  exists added : list Event,
    events (reactAll JSON_parse throws c rs) = (events c ++ added)%list /\
    List.length added <= Props.messageCount rs.
Proof.
  revert c. induction rs as [|r rs IH]; intros c.
  - exists []. split; [simpl; now rewrite app_nil_r | simpl; lia].
  - destruct (react_events r c) as [a1 [H1 L1]].
    destruct (IH (react JSON_parse throws c r)) as [a2 [H2 L2]].
    exists (a1 ++ a2)%list. split.
    + change (reactAll JSON_parse throws c (r :: rs))
        with (reactAll JSON_parse throws (react JSON_parse throws c r) rs).
      rewrite H2, H1, <- app_assoc. reflexivity.
    + rewrite length_app, messageCount_cons. lia.
Qed.

Lemma detached_react (r : Reaction) c :
  ws_handlers c = false -> Props.from_socket r ->
  react JSON_parse throws c r = c.
Proof.
  intros Hh Hr. destruct r as [cb started| | |data]; simpl in *;
    [contradiction | | | ].
  - unfold opened. now rewrite Hh.
  - unfold closed. now rewrite Hh.
  - unfold dispatch. now rewrite Hh.
Qed.

Lemma detached_reactAll (rs : list Reaction) c :
  ws_handlers c = false -> List.Forall Props.from_socket rs ->
  reactAll JSON_parse throws c rs = c.
Proof.
  intros Hh Hrs. induction Hrs as [|r rs Hr Hrs IH]; [reflexivity|].
  simpl. rewrite detached_react by assumption. exact IH.
Qed.

Lemma rerender_isConnected (cb : option Callback) (started : bool) c :
  isConnected (rerender cb started c) = isConnected c.
Proof.
  unfold rerender, socket_effect, useLatestRef_effect. simpl.
  destruct (decide (onEventReceived c = cb)); simpl;
    destruct (Bool.eqb (mockStarted c) started); reflexivity.
Qed.
End SocketEffect.

(** X30: what the socket effect of the event viewer does to the state.
    The buffer of events only grows: whatever happens, the old events stay
    in place and at most one event per message is added; nothing is ever
    dropped from it. Once the effect is cleaned up (a render with
    [mockStarted] false), nothing that the socket does changes the
    component any more, and since the cleanup detaches [onclose] before it
    closes the socket, the connection flag keeps the value it had. The same
    silence holds before the mock has started. *)
Theorem socket_effect_lifecycle :
  forall (JSON_parse : string -> EventViewer.Completion EventViewer.Event)
         (throws : EventViewer.Callback -> EventViewer.Event -> bool),
    (forall (c : EventViewer.Component) (rs : list EventViewer.Reaction),
        exists added : list EventViewer.Event,
          EventViewer.events (EventViewer.reactAll JSON_parse throws c rs)
          = (EventViewer.events c ++ added)%list /\
          List.length added <= Props.messageCount rs) /\
    (forall (cb0 cb : option EventViewer.Callback) (started0 : bool)
            (rs later : list EventViewer.Reaction),
        let before := EventViewer.reactAll JSON_parse throws
                        (EventViewer.mount cb0 started0) rs in
        let c := EventViewer.rerender cb false before in
        List.Forall Props.from_socket later ->
        EventViewer.reactAll JSON_parse throws c later = c /\
        EventViewer.isConnected c = EventViewer.isConnected before) /\
    (forall (cb : option EventViewer.Callback)
            (later : list EventViewer.Reaction),
        List.Forall Props.from_socket later ->
        EventViewer.reactAll JSON_parse throws (EventViewer.mount cb false)
          later
        = EventViewer.mount cb false).
Proof.
  intros JSON_parse throws. split; [|split].
  - intros c rs. apply reactAll_events.
  - intros cb0 cb started0 rs later before c Hlater. split.
    + apply detached_reactAll; [|exact Hlater].
      destruct (ref_is_latest_rerender cb false before) as [[_ Hws] [_ Hst]].
      * apply (ref_is_latest_reactAll JSON_parse throws rs),
          ref_is_latest_mount.
      * subst c. congruence.
    + apply rerender_isConnected.
  - intros cb later Hlater. now apply detached_reactAll.
Qed.

Lemma socket_effect_lifecycle_witness :
  let before := EventViewer.reactAll Samples.parse Samples.quiet
                  (EventViewer.mount (Some 1) true)
                  [EventViewer.Opened; EventViewer.Message "evt-1"] in
  let c := EventViewer.rerender (Some 1) false before in
  (EventViewer.reactAll Samples.parse Samples.quiet c
     [EventViewer.Message "evt-1"; EventViewer.Closed] = c /\
   EventViewer.isConnected c = EventViewer.isConnected before) /\
  EventViewer.reactAll Samples.parse Samples.quiet
    (EventViewer.mount (Some 1) false) [EventViewer.Opened]
  = EventViewer.mount (Some 1) false.
Proof.
  intros before c. split.
  - apply (proj1 (proj2 (socket_effect_lifecycle Samples.parse Samples.quiet))
             (Some 1) (Some 1) true
             [EventViewer.Opened; EventViewer.Message "evt-1"]
             [EventViewer.Message "evt-1"; EventViewer.Closed]).
    repeat constructor.
  - apply (proj2 (proj2 (socket_effect_lifecycle Samples.parse Samples.quiet))
             (Some 1) [EventViewer.Opened]).
    repeat constructor.
Defined.
